(** * fastapi-topaz: authorization pipeline, model and properties

    A shallow embedding of the decision pipeline of [fastapi_topaz]
    ([dependencies.py], [circuit_breaker.py], [connection_pool.py],
    [middleware.py]) and the properties stated about it.

    Conventions of the model.
    - Python [str] values are [string]; the handful of [str] methods the
      code calls ([strip], [split], [startswith], [endswith], slicing, [join])
      are written out in [PyStr].
    - [time.monotonic()] readings are integers ([Z]) in an arbitrary unit;
      durations ([ttl_seconds], [recovery_timeout], ...) are in the same unit.
    - A Python [dict] is an association list in insertion order ([PyDict]):
      the eviction code of the caches depends on that order.
    - A Python [set] of pooled connections is a [gset] of connection
      identities; the idle [asyncio.Queue] is a FIFO list.
    - A call that may raise returns an [Outcome]. *)

From Stdlib Require Import ZArith List String Ascii Bool Lia.
From stdpp Require Import base gmap sets list strings.
Import ListNotations.

Local Open Scope string_scope.
Local Open Scope list_scope.

(* ===================================================================== *)
(** * Part I. The model                                                   *)
(* ===================================================================== *)

(** ** Python string methods used by the code *)
Module PyStr.

Definition is_empty (s : string) : bool :=
  match s with EmptyString => true | String _ _ => false end.

(** [s.lstrip(c)] for a one-character set. *)
Fixpoint lstrip (c : ascii) (s : string) : string :=
  match s with
  | EmptyString => EmptyString
  | String a s' => if Ascii.eqb a c then lstrip c s' else s
  end.

(** [s.rstrip(c)] for a one-character set. *)
Fixpoint rstrip (c : ascii) (s : string) : string :=
  match s with
  | EmptyString => EmptyString
  | String a s' =>
      let r := rstrip c s' in
      if Ascii.eqb a c && is_empty r then EmptyString else String a r
  end.

(** [s.strip(c)]. *)
Definition strip (c : ascii) (s : string) : string := rstrip c (lstrip c s).

(** [s.split(c)]: never empty, [''.split(c) == ['']], consecutive
    separators give empty pieces. *)
Fixpoint split (c : ascii) (s : string) : list string :=
  match s with
  | EmptyString => [EmptyString]
  | String a s' =>
      if Ascii.eqb a c then EmptyString :: split c s'
      else match split c s' with
           | [] => [String a EmptyString]
           | w :: ws => String a w :: ws
           end
  end.

(** [s.startswith(c)] and [s.endswith(c)] for a one-character argument. *)
Definition startswith (c : ascii) (s : string) : bool :=
  match s with
  | EmptyString => false
  | String a _ => Ascii.eqb a c
  end.

Fixpoint endswith (c : ascii) (s : string) : bool :=
  match s with
  | EmptyString => false
  | String a EmptyString => Ascii.eqb a c
  | String _ s' => endswith c s'
  end.

(** [s[:-1]]. *)
Fixpoint drop_last (s : string) : string :=
  match s with
  | EmptyString => EmptyString
  | String _ EmptyString => EmptyString
  | String a s' => String a (drop_last s')
  end.

(** [s[1:-1]]. *)
Definition slice_1_m1 (s : string) : string :=
  match s with
  | EmptyString => EmptyString
  | String _ s' => drop_last s'
  end.

(** [sep.join(parts)]. *)
Definition join (sep : string) (parts : list string) : string :=
  String.concat sep parts.

End PyStr.

(** ** Policy-path resolver ([dependencies.py], lines 25-72) *)
Module PolicyPath.
Import PyStr.

(** One iteration of the [for segment in segments] loop: the accumulator is
    [result_parts]. *)
Definition loop_body (result_parts : list string) (segment : string) : list string :=
  if is_empty segment then result_parts
  else if startswith "{" segment && endswith "}" segment then
    let param_name := slice_1_m1 segment in
    result_parts ++ ["__" +:+ param_name]
  else result_parts ++ [segment].

Definition _policy_path_heuristic (path : string) : string :=
  if is_empty path || String.eqb path "/" then ""
  else
    let segments := split "/" (strip "/" path) in
    let result_parts := fold_left loop_body segments [] in
    match result_parts with
    | [] => ""
    | _ => "." +:+ join "." result_parts
    end.

Definition _resolve_policy_path (root method path : string) : string :=
  let heuristic := _policy_path_heuristic path in
  root +:+ "." +:+ method +:+ heuristic.

(** *** The resolver as the specification words it

    "strip leading/trailing slashes, split on '/', emit [__name] for each
    placeholder segment [{name}] and each literal segment unchanged, join the
    emitted segments with '.', prefix with a single '.' when non-empty". *)

(** [Some name] exactly when the segment reads [{name}]. *)
Definition placeholder_name (segment : string) : option string :=
  match segment with
  | String "{" rest => if endswith "}" rest then Some (drop_last rest) else None
  | _ => None
  end.

Definition emit (segment : string) : string :=
  match placeholder_name segment with
  | Some name => "__" +:+ name
  | None => segment
  end.

Definition dot_prefixed (joined : string) : string :=
  if is_empty joined then "" else "." +:+ joined.

Definition spec_resolvePolicyPath (root method pattern : string) : string :=
  let segments := split "/" (strip "/" pattern) in
  root +:+ "." +:+ method +:+ dot_prefixed (join "." (map emit segments)).

(** The same, with the empty segments left out before emitting. *)
Definition nonempty (s : string) : bool := negb (is_empty s).

Definition spec_resolvePolicyPath_nonempty (root method pattern : string) : string :=
  let segments := List.filter nonempty (split "/" (strip "/" pattern)) in
  root +:+ "." +:+ method +:+ dot_prefixed (join "." (map emit segments)).

End PolicyPath.

(** ** Python dictionaries, in insertion order *)
Module PyDict.
Section Dict.
Context {V : Type}.

(** [d.get(k)] *)
Fixpoint get (k : string) (d : list (string * V)) : option V :=
  match d with
  | [] => None
  | (k', v) :: d' => if String.eqb k' k then Some v else get k d'
  end.

(** [d[k] = v]: an existing key keeps its place, a new key goes last. *)
Fixpoint set (k : string) (v : V) (d : list (string * V)) : list (string * V) :=
  match d with
  | [] => [(k, v)]
  | (k', v') :: d' =>
      if String.eqb k' k then (k', v) :: d' else (k', v') :: set k v d'
  end.

(** [del d[k]] *)
Definition del (k : string) (d : list (string * V)) : list (string * V) :=
  List.filter (fun kv => negb (String.eqb (fst kv) k)) d.

(** [for k in ks: del d[k]] *)
Definition del_all (ks : list string) (d : list (string * V)) : list (string * V) :=
  fold_left (fun d k => del k d) ks d.

(** [d.update(items)] *)
Definition update (d items : list (string * V)) : list (string * V) :=
  fold_left (fun d kv => set (fst kv) (snd kv) d) items d.

Definition keys (d : list (string * V)) : list string := map fst d.

Definition len (d : list (string * V)) : Z := Z.of_nat (length d).

End Dict.

(** [l[:n]], with Python's reading of a negative bound. *)
Definition slice_to {A : Type} (n : Z) (l : list A) : list A :=
  if (0 <=? n)%Z then firstn (Z.to_nat n) l
  else firstn (length l - Z.to_nat (- n)) l.

(** [sorted(d.items())]: the keys of a dictionary are distinct, so the
    comparison of tuples is decided by the keys. *)
Fixpoint insert_sorted {V : Type} (kv : string * V) (l : list (string * V))
  : list (string * V) :=
  match l with
  | [] => [kv]
  | kv' :: l' =>
      if String.leb (fst kv) (fst kv') then kv :: l else kv' :: insert_sorted kv l'
  end.

Definition sorted_items {V : Type} (d : list (string * V)) : list (string * V) :=
  fold_right insert_sorted [] d.

End PyDict.

(** ** DecisionCache ([dependencies.py], lines 113-219) *)
Module Cache.

Record CacheEntry := { value : bool; expires_at : Z }.

Record DecisionCache := {
  ttl_seconds : Z;
  max_size : Z;
  _cache : list (string * CacheEntry)
}.

Definition with_cache (c : DecisionCache) (d : list (string * CacheEntry)) : DecisionCache :=
  {| ttl_seconds := ttl_seconds c; max_size := max_size c; _cache := d |}.

Definition empty (ttl size : Z) : DecisionCache :=
  {| ttl_seconds := ttl; max_size := size; _cache := [] |}.

Section Keys.
(** What the key is computed with, and is not part of this repository:
    the values of a resource context, [str] of a list of items, and the
    first 32 hexadecimal digits of the SHA-256 digest. *)
Context {Value : Type}.
Variable py_str : list (string * Value) -> string.
Variable sha256_hex32 : string -> string.

(** [str(sorted(resource_context.items())) if resource_context else ""]:
    [None] and the empty dictionary are both false. *)
Definition ctx_str (resource_context : option (list (string * Value))) : string :=
  match resource_context with
  | None => ""
  | Some [] => ""
  | Some items => py_str (PyDict.sorted_items items)
  end.

Definition key_data (identity_value policy_path decision : string)
    (resource_context : option (list (string * Value))) : string :=
  identity_value +:+ ":" +:+ policy_path +:+ ":" +:+ decision +:+ ":"
    +:+ ctx_str resource_context.

Definition _make_key (identity_value policy_path decision : string)
    (resource_context : option (list (string * Value))) : string :=
  sha256_hex32 (key_data identity_value policy_path decision resource_context).

(** [get], called when the clock reads [now]. *)
Definition get (c : DecisionCache) (identity_value policy_path decision : string)
    (resource_context : option (list (string * Value))) (now : Z)
  : option bool * DecisionCache :=
  let key := _make_key identity_value policy_path decision resource_context in
  match PyDict.get key (_cache c) with
  | None => (None, c)
  | Some entry =>
      if (now >? expires_at entry)%Z
      then (None, with_cache c (PyDict.del key (_cache c)))
      else (Some (value entry), c)
  end.

(** The eviction of [set]: runs when the table is full; [now] is the
    clock reading taken there. *)
Definition evict (c : DecisionCache) (now : Z) : list (string * CacheEntry) :=
  if (PyDict.len (_cache c) >=? max_size c)%Z then
    let expired :=
      PyDict.keys (List.filter (fun kv => (expires_at (snd kv) <? now)%Z) (_cache c)) in
    let cache := PyDict.del_all expired (_cache c) in
    if (PyDict.len cache >=? max_size c)%Z then
      let to_remove := PyDict.slice_to (max_size c / 10) (PyDict.keys cache) in
      PyDict.del_all to_remove cache
    else cache
  else _cache c.

(** [set]: [now] is the clock reading of the eviction, [now'] the one
    the expiry of the new entry is computed from. *)
Definition set (c : DecisionCache) (identity_value policy_path decision : string)
    (resource_context : option (list (string * Value))) (v : bool) (now now' : Z)
  : DecisionCache :=
  let key := _make_key identity_value policy_path decision resource_context in
  with_cache c
    (PyDict.set key {| value := v; expires_at := (now' + ttl_seconds c)%Z |}
       (evict c now)).

Definition clear (c : DecisionCache) : DecisionCache := with_cache c [].

(** A [set] call with its arguments and clock readings, and a run of them. *)
Record SetCall := {
  sc_identity : string;
  sc_policy_path : string;
  sc_decision : string;
  sc_context : option (list (string * Value));
  sc_value : bool;
  sc_now : Z;
  sc_now' : Z
}.

Definition do_set (c : DecisionCache) (call : SetCall) : DecisionCache :=
  set c (sc_identity call) (sc_policy_path call) (sc_decision call)
    (sc_context call) (sc_value call) (sc_now call) (sc_now' call).

Definition run_sets (calls : list SetCall) (c : DecisionCache) : DecisionCache :=
  fold_left do_set calls c.

(** Runs of the three operations of the cache. *)
Inductive Op :=
| OpGet (identity_value policy_path decision : string)
    (resource_context : option (list (string * Value))) (now : Z)
| OpSet (call : SetCall)
| OpClear.

Definition step (c : DecisionCache) (op : Op) : DecisionCache :=
  match op with
  | OpGet identity_value policy_path decision resource_context now =>
      snd (get c identity_value policy_path decision resource_context now)
  | OpSet call => do_set c call
  | OpClear => clear c
  end.

Definition run (ops : list Op) (c : DecisionCache) : DecisionCache :=
  fold_left step ops c.

End Keys.
End Cache.

(** ** Exceptions *)
Module PyExc.

(** The exception classes the pipeline raises or tests for, with the
    parent of each in Python's hierarchy. *)
Inductive ExcClass :=
| Exception_
| OSError_
| ConnectionError_
| ConnectionRefusedError_
| TimeoutError_
| RuntimeError_
| ValueError_
| KeyError_
| AttributeError_
| UnboundLocalError_.

Definition parent (c : ExcClass) : option ExcClass :=
  match c with
  | Exception_ => None
  | OSError_ => Some Exception_
  | ConnectionError_ => Some OSError_
  | ConnectionRefusedError_ => Some ConnectionError_
  | TimeoutError_ => Some OSError_
  | RuntimeError_ => Some Exception_
  | ValueError_ => Some Exception_
  | KeyError_ => Some Exception_
  | AttributeError_ => Some Exception_
  | UnboundLocalError_ => Some Exception_
  end.

Definition class_eqb (a b : ExcClass) : bool :=
  match a, b with
  | Exception_, Exception_ | OSError_, OSError_
  | ConnectionError_, ConnectionError_
  | ConnectionRefusedError_, ConnectionRefusedError_
  | TimeoutError_, TimeoutError_ | RuntimeError_, RuntimeError_
  | ValueError_, ValueError_ | KeyError_, KeyError_
  | AttributeError_, AttributeError_
  | UnboundLocalError_, UnboundLocalError_ => true
  | _, _ => false
  end.

(** [issubclass(c, base)]; the hierarchy above is four classes deep. *)
Fixpoint issubclass_upto (depth : nat) (c base : ExcClass) : bool :=
  class_eqb c base
  || match depth with
     | O => false
     | S depth' =>
         match parent c with
         | Some c' => issubclass_upto depth' c' base
         | None => false
         end
     end.

Definition issubclass (c base : ExcClass) : bool := issubclass_upto 4 c base.

Record Exn := { exc_class : ExcClass; exc_message : string }.

Definition isinstance (e : Exn) (base : ExcClass) : bool :=
  issubclass (exc_class e) base.

(** The result of a call that may raise. *)
Inductive Outcome (A : Type) :=
| Returned (a : A)
| Raised (e : Exn).
Arguments Returned {A} a.
Arguments Raised {A} e.

End PyExc.

(** ** CircuitBreaker ([circuit_breaker.py]) *)
Module Breaker.
Import PyExc.

Inductive CircuitState := CLOSED | OPEN | HALF_OPEN.

Definition state_eqb (a b : CircuitState) : bool :=
  match a, b with
  | CLOSED, CLOSED | OPEN, OPEN | HALF_OPEN, HALF_OPEN => true
  | _, _ => false
  end.

(** The internal state of the dataclass.  [transitions] is not a field
    of the code: it lists the state changes in the order [_transition_to]
    reported them (old state, new state, reason), which is what the
    log line and the [on_state_change] callback receive. *)
Record State := {
  _state : CircuitState;
  _failure_count : Z;
  _success_count : Z;
  _last_failure_time : option Z;
  _last_success_time : option Z;
  _open_since : option Z;
  _half_open_requests : Z;
  transitions : list (CircuitState * CircuitState * string)
}.

Definition initial : State :=
  {| _state := CLOSED; _failure_count := 0; _success_count := 0;
     _last_failure_time := None; _last_success_time := None;
     _open_since := None; _half_open_requests := 0; transitions := [] |}.

Section Config.
(** The request object and the values of a resource context are opaque to
    the breaker; [fnmatch.fnmatch] is Python's. *)
Context {Request Value : Type}.
Variable fnmatch : string -> string -> bool.

Inductive FallbackStrategy :=
| StrategyName (strategy : string)
| StrategyCallable
    (f : Request -> string -> list (string * Value) -> option bool -> Exn -> Outcome bool).

(** The configuration fields of the dataclass. *)
Record Config := {
  failure_threshold : Z;
  success_threshold : Z;
  recovery_timeout : Z;
  fallback : FallbackStrategy;
  serve_stale_cache : bool;
  stale_cache_ttl : Z;
  no_stale_for : option (list string);
  failure_exceptions : list ExcClass;
  on_fallback : option (Request -> string -> option bool -> bool -> Outcome unit);
  half_open_max_requests : Z
}.

(** [_transition_to], when the clock reads [now]. *)
Definition _transition_to (now : Z) (new_state : CircuitState) (reason : string)
    (s : State) : State :=
  let old_state := _state s in
  if state_eqb old_state new_state then s
  else
    let log := transitions s ++ [(old_state, new_state, reason)] in
    match new_state with
    | OPEN =>
        {| _state := OPEN;
           _failure_count := _failure_count s;
           _success_count := _success_count s;
           _last_failure_time := _last_failure_time s;
           _last_success_time := _last_success_time s;
           _open_since := Some now;
           _half_open_requests := 0;
           transitions := log |}
    | CLOSED =>
        {| _state := CLOSED;
           _failure_count := 0;
           _success_count := 0;
           _last_failure_time := _last_failure_time s;
           _last_success_time := _last_success_time s;
           _open_since := None;
           _half_open_requests := _half_open_requests s;
           transitions := log |}
    | HALF_OPEN =>
        {| _state := HALF_OPEN;
           _failure_count := _failure_count s;
           _success_count := _success_count s;
           _last_failure_time := _last_failure_time s;
           _last_success_time := _last_success_time s;
           _open_since := _open_since s;
           _half_open_requests := 0;
           transitions := log |}
    end.

Definition record_success (cfg : Config) (now : Z) (s : State) : State :=
  let s1 :=
    {| _state := _state s;
       _failure_count := 0;
       _success_count := _success_count s;
       _last_failure_time := _last_failure_time s;
       _last_success_time := Some now;
       _open_since := _open_since s;
       _half_open_requests := _half_open_requests s;
       transitions := transitions s |} in
  match _state s1 with
  | HALF_OPEN =>
      let s2 :=
        {| _state := _state s1;
           _failure_count := _failure_count s1;
           _success_count := _success_count s1 + 1;
           _last_failure_time := _last_failure_time s1;
           _last_success_time := _last_success_time s1;
           _open_since := _open_since s1;
           _half_open_requests := _half_open_requests s1;
           transitions := transitions s1 |} in
      if (_success_count s2 >=? success_threshold cfg)%Z
      then _transition_to now CLOSED "test_succeeded" s2
      else s2
  | _ => s1
  end.

Definition record_failure (cfg : Config) (now : Z) (exception : Exn) (s : State) : State :=
  let s1 :=
    {| _state := _state s;
       _failure_count := _failure_count s + 1;
       _success_count := 0;
       _last_failure_time := Some now;
       _last_success_time := _last_success_time s;
       _open_since := _open_since s;
       _half_open_requests := _half_open_requests s;
       transitions := transitions s |} in
  match _state s1 with
  | CLOSED =>
      if (_failure_count s1 >=? failure_threshold cfg)%Z
      then _transition_to now OPEN "failure_threshold_exceeded" s1
      else s1
  | HALF_OPEN => _transition_to now OPEN "test_failed" s1
  | OPEN => s1
  end.

Definition with_half_open_requests (n : Z) (s : State) : State :=
  {| _state := _state s;
     _failure_count := _failure_count s;
     _success_count := _success_count s;
     _last_failure_time := _last_failure_time s;
     _last_success_time := _last_success_time s;
     _open_since := _open_since s;
     _half_open_requests := n;
     transitions := transitions s |}.

Definition should_allow_request (cfg : Config) (now : Z) (s : State) : bool * State :=
  match _state s with
  | CLOSED => (true, s)
  | OPEN =>
      match _open_since s with
      | Some open_since =>
          let elapsed := (now - open_since)%Z in
          if (elapsed >=? recovery_timeout cfg)%Z then
            let s1 := _transition_to now HALF_OPEN "recovery_timeout_expired" s in
            (true, with_half_open_requests 1 s1)
          else (false, s)
      | None => (false, s)
      end
  | HALF_OPEN =>
      if (_half_open_requests s <? half_open_max_requests cfg)%Z
      then (true, with_half_open_requests (_half_open_requests s + 1) s)
      else (false, s)
  end.

Definition is_failure_exception (cfg : Config) (exc : Exn) : bool :=
  existsb (isinstance exc) (failure_exceptions cfg).

(** The [for pattern in self.no_stale_for] loop, with its [break]. *)
Fixpoint discard_stale (patterns : list string) (policy_path : string)
    (cached_decision : option bool) : option bool :=
  match patterns with
  | [] => cached_decision
  | pattern :: rest =>
      if fnmatch policy_path pattern then None
      else discard_stale rest policy_path cached_decision
  end.

Definition get_fallback_decision (cfg : Config) (request : Request)
    (policy_path : string) (resource_context : list (string * Value))
    (cached_decision : option bool) (error : Exn) : Outcome bool :=
  let cached_decision :=
    match cached_decision, no_stale_for cfg with
    | Some _, Some (pattern :: rest) =>
        discard_stale (pattern :: rest) policy_path cached_decision
    | _, _ => cached_decision
    end in
  match fallback cfg with
  | StrategyCallable f => f request policy_path resource_context cached_decision error
  | StrategyName strategy =>
      if String.eqb strategy "cache_then_deny" then
        match cached_decision with
        | Some b => Returned b
        | None => Returned false
        end
      else if String.eqb strategy "cache_then_allow" then
        match cached_decision with
        | Some b => Returned b
        | None => Returned true
        end
      else if String.eqb strategy "deny" then Returned false
      else if String.eqb strategy "allow" then Returned true
      else Returned false
  end.

Definition reset (now : Z) (s : State) : State :=
  let s1 := _transition_to now CLOSED "manual_reset" s in
  {| _state := _state s1;
     _failure_count := 0;
     _success_count := 0;
     _last_failure_time := None;
     _last_success_time := None;
     _open_since := None;
     _half_open_requests := 0;
     transitions := transitions s1 |}.

(** *** Runs of the three operations of the state machine *)
Inductive Op :=
| RecordSuccess (now : Z)
| RecordFailure (now : Z) (exception : Exn)
| ShouldAllowRequest (now : Z).

(** One operation: the answer of [should_allow_request], if it is one,
    and the next state. *)
Definition step (cfg : Config) (op : Op) (s : State) : option bool * State :=
  match op with
  | RecordSuccess now => (None, record_success cfg now s)
  | RecordFailure now exception => (None, record_failure cfg now exception s)
  | ShouldAllowRequest now =>
      let '(answer, s') := should_allow_request cfg now s in (Some answer, s')
  end.

Fixpoint run (cfg : Config) (ops : list Op) (s : State) : State :=
  match ops with
  | [] => s
  | op :: rest => run cfg rest (snd (step cfg op s))
  end.

(** The number of requests let through while the breaker is half-open: the
    [true] answers given from the state [HALF_OPEN], up to the operation
    that leaves it. *)
Fixpoint half_open_admissions (cfg : Config) (ops : list Op) (s : State) : nat :=
  match _state s, ops with
  | HALF_OPEN, op :: rest =>
      let '(answer, s') := step cfg op s in
      (match answer with Some true => 1 | _ => 0 end
       + half_open_admissions cfg rest s')%nat
  | _, _ => 0%nat
  end.

(** Runs of failures and of successes only. *)
Definition failures (fs : list (Z * Exn)) : list Op :=
  map (fun f => RecordFailure (fst f) (snd f)) fs.

Definition successes (ts : list Z) : list Op := map RecordSuccess ts.

(** The states a breaker created with [cfg] can be in. *)
Definition reachable (cfg : Config) (s : State) : Prop :=
  exists ops, s = run cfg ops initial.

(** An open breaker knows since when, and the success streak is only
    counted while half-open. *)
Definition well_formed (s : State) : Prop :=
  (_state s = OPEN -> exists t0, _open_since s = Some t0)
  /\ (_state s <> HALF_OPEN -> _success_count s = 0%Z).

(** What the counters of a breaker satisfy: the failure streak of a
    closed breaker is below its threshold, and a half-open breaker has a
    success streak below its threshold and has let through at least the
    request that made it half-open and at most [half_open_max_requests] (one,
    when that is less). *)
Definition counters_ok (cfg : Config) (s : State) : Prop :=
  (0 <= _failure_count s)%Z
  /\ (0 <= _success_count s)%Z
  /\ (_state s = CLOSED -> (_failure_count s < failure_threshold cfg)%Z)
  /\ (_state s = HALF_OPEN ->
      (_success_count s < success_threshold cfg)%Z
      /\ (1 <= _half_open_requests s <= Z.max 1 (half_open_max_requests cfg))%Z).

(** The four state changes the operations make, with their reasons. *)
Definition legal_transition (tr : CircuitState * CircuitState * string) : Prop :=
  tr = (CLOSED, OPEN, "failure_threshold_exceeded")
  \/ tr = (OPEN, HALF_OPEN, "recovery_timeout_expired")
  \/ tr = (HALF_OPEN, OPEN, "test_failed")
  \/ tr = (HALF_OPEN, CLOSED, "test_succeeded").

(** The log leads from [from] to [to], each change starting where the one
    before it ended. *)
Fixpoint chained (from : CircuitState) (log : list (CircuitState * CircuitState * string))
    (to : CircuitState) : Prop :=
  match log with
  | [] => from = to
  | (a, b, _) :: rest => a = from /\ chained b rest to
  end.

(** The answers of the [should_allow_request] calls of a run, in order. *)
Fixpoint answers (cfg : Config) (ops : list Op) (s : State) : list bool :=
  match ops with
  | [] => []
  | op :: rest =>
      match step cfg op s with
      | (Some answer, s') => answer :: answers cfg rest s'
      | (None, s') => answers cfg rest s'
      end
  end.

(** A state without its log. *)
Definition forget_log (s : State) : State :=
  {| _state := _state s;
     _failure_count := _failure_count s;
     _success_count := _success_count s;
     _last_failure_time := _last_failure_time s;
     _last_success_time := _last_success_time s;
     _open_since := _open_since s;
     _half_open_requests := _half_open_requests s;
     transitions := [] |}.

(** The stale value the dispatch sees, as the specification words it: absent
    when a configured pattern matches the policy path. *)
Definition stale_seen (cfg : Config) (policy_path : string)
    (cached_decision : option bool) : option bool :=
  let patterns := match no_stale_for cfg with Some ps => ps | None => [] end in
  if existsb (fnmatch policy_path) patterns then None else cached_decision.

Definition or_default (default : bool) (stale : option bool) : bool :=
  match stale with Some b => b | None => default end.

Definition with_fallback (cfg : Config) (f : FallbackStrategy) : Config :=
  {| failure_threshold := failure_threshold cfg;
     success_threshold := success_threshold cfg;
     recovery_timeout := recovery_timeout cfg;
     fallback := f;
     serve_stale_cache := serve_stale_cache cfg;
     stale_cache_ttl := stale_cache_ttl cfg;
     no_stale_for := no_stale_for cfg;
     failure_exceptions := failure_exceptions cfg;
     on_fallback := on_fallback cfg;
     half_open_max_requests := half_open_max_requests cfg |}.

(** The defaults of the dataclass. *)
Definition default_config : Config :=
  {| failure_threshold := 5;
     success_threshold := 2;
     recovery_timeout := 30;
     fallback := StrategyName "cache_then_deny";
     serve_stale_cache := true;
     stale_cache_ttl := 300;
     no_stale_for := None;
     failure_exceptions := [ConnectionError_; TimeoutError_; OSError_];
     on_fallback := None;
     half_open_max_requests := 1 |}.

End Config.
End Breaker.

(** ** ConnectionPool ([connection_pool.py]) *)
Module Pool.
Import PyExc.

(** A [PooledConnection] object, without its client.  Connections are
    compared by identity: the pool holds identities and [objects] maps an
    identity to the object. *)
Record PooledConnection := {
  created_at : Z;
  last_used_at : Z;
  healthy : bool
}.

Record Config := {
  min_connections : Z;
  max_connections : Z;
  max_idle_time : Z;
  idle_check_interval : Z;
  eager_init : bool
}.

(** The internal state.  [_authorizer_options] records whether the
    options are set, [_semaphore] holds the free permits, [_cleanup_task]
    whether the sweep task is running; [objects] and [next_id] are the
    connection objects created so far and the identity of the next one. *)
Record State := {
  _authorizer_options : bool;
  _idle : list nat;
  _semaphore : option Z;
  _connections : gset nat;
  _busy : gset nat;
  _initialized : bool;
  _closed : bool;
  _cleanup_task : bool;
  objects : gmap nat PooledConnection;
  next_id : nat
}.

Definition new : State :=
  {| _authorizer_options := false; _idle := []; _semaphore := None;
     _connections := ∅; _busy := ∅; _initialized := false; _closed := false;
     _cleanup_task := false; objects := ∅; next_id := 0 |}.

Definition with_idle (l : list nat) (p : State) : State :=
  {| _authorizer_options := _authorizer_options p; _idle := l;
     _semaphore := _semaphore p; _connections := _connections p;
     _busy := _busy p; _initialized := _initialized p; _closed := _closed p;
     _cleanup_task := _cleanup_task p; objects := objects p; next_id := next_id p |}.

Definition with_semaphore (sem : option Z) (p : State) : State :=
  {| _authorizer_options := _authorizer_options p; _idle := _idle p;
     _semaphore := sem; _connections := _connections p;
     _busy := _busy p; _initialized := _initialized p; _closed := _closed p;
     _cleanup_task := _cleanup_task p; objects := objects p; next_id := next_id p |}.

Definition with_connections (cs : gset nat) (p : State) : State :=
  {| _authorizer_options := _authorizer_options p; _idle := _idle p;
     _semaphore := _semaphore p; _connections := cs;
     _busy := _busy p; _initialized := _initialized p; _closed := _closed p;
     _cleanup_task := _cleanup_task p; objects := objects p; next_id := next_id p |}.

Definition with_busy (b : gset nat) (p : State) : State :=
  {| _authorizer_options := _authorizer_options p; _idle := _idle p;
     _semaphore := _semaphore p; _connections := _connections p;
     _busy := b; _initialized := _initialized p; _closed := _closed p;
     _cleanup_task := _cleanup_task p; objects := objects p; next_id := next_id p |}.

Definition with_objects (o : gmap nat PooledConnection) (n : nat) (p : State) : State :=
  {| _authorizer_options := _authorizer_options p; _idle := _idle p;
     _semaphore := _semaphore p; _connections := _connections p;
     _busy := _busy p; _initialized := _initialized p; _closed := _closed p;
     _cleanup_task := _cleanup_task p; objects := o; next_id := n |}.

(** [conn.mark_used()] *)
Definition mark_used (now : Z) (conn : nat) (p : State) : State :=
  with_objects
    (alter (fun o => {| created_at := created_at o; last_used_at := now;
                        healthy := healthy o |}) conn (objects p))
    (next_id p) p.

(** [conn.healthy = h], done by the code that holds the connection. *)
Definition set_healthy (conn : nat) (h : bool) (p : State) : State :=
  with_objects
    (alter (fun o => {| created_at := created_at o; last_used_at := last_used_at o;
                        healthy := h |}) conn (objects p))
    (next_id p) p.

Definition is_healthy (p : State) (conn : nat) : bool :=
  match objects p !! conn with
  | Some o => healthy o
  | None => false
  end.

(** [semaphore.release()] *)
Definition semaphore_release (p : State) : State :=
  match _semaphore p with
  | Some permits => with_semaphore (Some (permits + 1)%Z) p
  | None => p
  end.

Definition configure (cfg : Config) (p : State) : State :=
  {| _authorizer_options := true; _idle := _idle p;
     _semaphore := Some (max_connections cfg); _connections := _connections p;
     _busy := _busy p; _initialized := _initialized p; _closed := _closed p;
     _cleanup_task := _cleanup_task p; objects := objects p; next_id := next_id p |}.

(** [_create_connection]: [ctor] is the exception the constructor of the
    client raises, if it raises. *)
Definition _create_connection (now : Z) (ctor : option Exn) (p : State)
  : Outcome nat * State :=
  if negb (_authorizer_options p) then
    (Raised {| exc_class := RuntimeError_;
               exc_message := "ConnectionPool not configured with authorizer_options" |}, p)
  else
    match ctor with
    | Some e => (Raised e, p)
    | None =>
        let conn := next_id p in
        let o := {| created_at := now; last_used_at := now; healthy := true |} in
        let p1 := with_objects (<[conn := o]> (objects p)) (S conn) p in
        (Returned conn, with_connections ({[conn]} ∪ _connections p1) p1)
    end.

(** The [for _ in range(min_connections)] loop of [initialize]. *)
Fixpoint create_initial (n : nat) (now : Z) (ctor : option Exn) (p : State) : State :=
  match n with
  | O => p
  | S n' =>
      let p1 :=
        match _create_connection now ctor p with
        | (Returned conn, p') => with_idle (_idle p' ++ [conn]) p'
        | (Raised _, p') => p'
        end in
      create_initial n' now ctor p1
  end.

Definition initialize (cfg : Config) (now : Z) (ctor : option Exn) (p : State) : State :=
  if _initialized p then p
  else
    let p1 :=
      match _semaphore p with
      | None => with_semaphore (Some (max_connections cfg)) p
      | Some _ => p
      end in
    let p2 :=
      if eager_init cfg && _authorizer_options p1
      then create_initial (Z.to_nat (min_connections cfg)) now ctor p1
      else p1 in
    {| _authorizer_options := _authorizer_options p2; _idle := _idle p2;
       _semaphore := _semaphore p2; _connections := _connections p2;
       _busy := _busy p2; _initialized := true; _closed := _closed p2;
       _cleanup_task := (0 <? idle_check_interval cfg)%Z || _cleanup_task p2;
       objects := objects p2; next_id := next_id p2 |}.

Definition closed_error : Exn :=
  {| exc_class := RuntimeError_; exc_message := "Connection pool is closed" |}.

(** [acquire], from the wait for a permit on.  The calls of a run happen
    one after the other, so a call that finds no permit waits for
    [acquire_timeout] in vain and raises the timeout. *)
Definition acquire_ready (now : Z) (ctor : option Exn) (p1 : State) : Outcome nat * State :=
  match _semaphore p1 with
  | None => (Raised {| exc_class := Exception_; exc_message := "AssertionError" |}, p1)
  | Some permits =>
      if (permits <=? 0)%Z then
        (Raised {| exc_class := TimeoutError_; exc_message := "" |}, p1)
      else
        let p2 := with_semaphore (Some (permits - 1)%Z) p1 in
        match _idle p2 with
        | conn :: rest =>
            let p3 := mark_used now conn (with_idle rest p2) in
            (Returned conn, with_busy ({[conn]} ∪ _busy p3) p3)
        | [] =>
            match _create_connection now ctor p2 with
            | (Returned conn, p3) =>
                let p4 := mark_used now conn p3 in
                (Returned conn, with_busy ({[conn]} ∪ _busy p4) p4)
            | (Raised e, p3) => (Raised e, semaphore_release p3)
            end
        end
  end.

Definition acquire (cfg : Config) (now : Z) (ctor : option Exn) (p : State)
  : Outcome nat * State :=
  if _closed p then (Raised closed_error, p)
  else acquire_ready now ctor (if _initialized p then p else initialize cfg now ctor p).

Definition release (now : Z) (conn : nat) (p : State) : State :=
  if decide (conn ∈ _busy p) then
    let p1 := with_busy (_busy p ∖ {[conn]}) p in
    let p2 :=
      if is_healthy p1 conn && negb (_closed p1)
      then let p' := mark_used now conn p1 in with_idle (_idle p' ++ [conn]) p'
      else with_connections (_connections p1 ∖ {[conn]}) p1 in
    semaphore_release p2
  else p.

Definition close (p : State) : State :=
  {| _authorizer_options := _authorizer_options p; _idle := [];
     _semaphore := _semaphore p; _connections := ∅;
     _busy := ∅; _initialized := _initialized p; _closed := true;
     _cleanup_task := false; objects := objects p; next_id := next_id p |}.

(** *** Runs of the pool *)
Inductive Op :=
| Acquire (now : Z) (ctor : option Exn)
| Release (now : Z) (conn : nat)
| SetHealthy (conn : nat) (h : bool)
| Close.

(** One operation: the outcome of [acquire], if it is one, and the next state. *)
Definition step (cfg : Config) (op : Op) (p : State) : option (Outcome nat) * State :=
  match op with
  | Acquire now ctor => let '(r, p') := acquire cfg now ctor p in (Some r, p')
  | Release now conn => (None, release now conn p)
  | SetHealthy conn h => (None, set_healthy conn h p)
  | Close => (None, close p)
  end.

Fixpoint run (cfg : Config) (ops : list Op) (p : State) : State :=
  match ops with
  | [] => p
  | op :: rest => run cfg rest (snd (step cfg op p))
  end.

(** The outcomes of the [acquire] calls of a run, in order. *)
Fixpoint acquire_outcomes (cfg : Config) (ops : list Op) (p : State) : list (Outcome nat) :=
  match ops with
  | [] => []
  | op :: rest =>
      match step cfg op p with
      | (Some r, p') => r :: acquire_outcomes cfg rest p'
      | (None, p') => acquire_outcomes cfg rest p'
      end
  end.

(** The connections handed out by [acquire] and not given back: what
    the callers hold, whatever the pool records. *)
Definition held_after (op : Op) (result : option (Outcome nat)) (held : gset nat) : gset nat :=
  match op, result with
  | Acquire _ _, Some (Returned conn) => {[conn]} ∪ held
  | Release _ conn, _ => held ∖ {[conn]}
  | _, _ => held
  end.

(** No [acquire] of the run returns a connection that a caller holds. *)
Fixpoint exclusive (cfg : Config) (ops : list Op) (p : State) (held : gset nat) : Prop :=
  match ops with
  | [] => True
  | op :: rest =>
      let '(result, p') := step cfg op p in
      match result with
      | Some (Returned conn) => conn ∉ held
      | _ => True
      end
      /\ exclusive cfg rest p' (held_after op result held)
  end.

(** A pool as the engine sets it up: created, then configured. *)
Definition configured (cfg : Config) : State := configure cfg new.

(** A configuration that makes sense: a capacity that is not negative,
    and no more warm connections than the capacity. *)
Definition config_ok (cfg : Config) : Prop :=
  (0 <= max_connections cfg)%Z
  /\ (eager_init cfg = true -> (min_connections cfg <= max_connections cfg)%Z).

(** What the bookkeeping of the pool keeps true. *)
Definition invariant (cfg : Config) (p : State) : Prop :=
  (forall c, c ∈ _idle p -> (c < next_id p)%nat)
  /\ (forall c, c ∈ _busy p -> (c < next_id p)%nat)
  /\ NoDup (_idle p)
  /\ (forall c, c ∈ _idle p -> c ∉ _busy p)
  /\ _connections p = list_to_set (_idle p) ∪ _busy p
  /\ (Z.of_nat (length (_idle p)) + Z.of_nat (size (_busy p)) <= max_connections cfg)%Z
  /\ (_initialized p = false ->
      _idle p = [] /\ _busy p = ∅
      /\ (_semaphore p = None \/ _semaphore p = Some (max_connections cfg)))
  /\ (_closed p = false -> _initialized p = true ->
      exists permits,
        _semaphore p = Some permits
        /\ (permits + Z.of_nat (size (_busy p)) = max_connections cfg)%Z).

(** What a call of [acquire] guarantees: [p] is the state before, [r] the
    outcome and [p'] the state after. *)
Definition acquire_post (cfg : Config) (p : State) (r : Outcome nat) (p' : State) : Prop :=
  invariant cfg p' /\ _closed p' = _closed p /\ (next_id p <= next_id p')%nat
  /\ (forall c', c' ∈ _idle p' -> c' ∈ _idle p \/ (next_id p <= c')%nat)
  /\ match r with
     | Returned c =>
         _closed p = false /\ (c ∉ _busy p)
         /\ (c ∈ _idle p \/ (next_id p <= c)%nat)
         /\ _busy p' = {[c]} ∪ _busy p
         /\ (c ∉ _idle p')
     | Raised e => _busy p' = _busy p
     end.

(** A connection the pool has let go of for good. *)
Definition discarded (p : State) (conn : nat) : Prop :=
  (conn ∉ _idle p) /\ (conn ∉ _busy p) /\ (conn < next_id p)%nat.

Definition reachable (cfg : Config) (p : State) : Prop :=
  exists ops, p = run cfg ops (configured cfg).

(** *** The idle sweep, the status and the context manager *)

(** [conn.idle_time], when the clock reads [now]. *)
Definition idle_time (now : Z) (p : State) (conn : nat) : Z :=
  match objects p !! conn with
  | Some o => (now - last_used_at o)%Z
  | None => 0%Z
  end.

(** The [while True] loop of [_cleanup_idle_connections] over the idle
    queue: [to_close] and [temp_idle] are the two lists it builds. *)
Fixpoint sweep (cfg : Config) (now : Z) (p : State) (queue to_close temp_idle : list nat)
  : list nat * list nat :=
  match queue with
  | [] => (to_close, temp_idle)
  | conn :: rest =>
      if (idle_time now p conn >? max_idle_time cfg)%Z then
        if (Z.of_nat (size (_connections p)) - Z.of_nat (length to_close)
            >? min_connections cfg)%Z
        then sweep cfg now p rest (to_close ++ [conn]) temp_idle
        else sweep cfg now p rest to_close (temp_idle ++ [conn])
      else sweep cfg now p rest to_close (temp_idle ++ [conn])
  end.

Definition _cleanup_idle_connections (cfg : Config) (now : Z) (p : State) : State :=
  let '(to_close, temp_idle) := sweep cfg now p (_idle p) [] [] in
  with_connections (_connections p ∖ list_to_set to_close) (with_idle temp_idle p).

Record PoolStatus := {
  total : Z;
  idle : Z;
  busy : Z;
  healthy_connections : Z;
  status_max_connections : Z;
  status_min_connections : Z
}.

(** [PoolStatus.healthy] *)
Definition status_healthy (st : PoolStatus) : bool :=
  (healthy_connections st >? 0)%Z || (total st =? 0)%Z.

Definition status (cfg : Config) (p : State) : PoolStatus :=
  let idle_count := Z.of_nat (length (_idle p)) in
  let busy_count := Z.of_nat (size (_busy p)) in
  let healthy_count :=
    Z.of_nat (length (List.filter (is_healthy p) (elements (_connections p)))) in
  {| total := Z.of_nat (size (_connections p));
     idle := idle_count;
     busy := busy_count;
     healthy_connections := healthy_count;
     status_max_connections := max_connections cfg;
     status_min_connections := min_connections cfg |}.

(** [async with pool.connection() as conn]: [body] is what the caller
    does while it holds the connection; the release in the [finally] block
    happens when the clock reads [now']. *)
Definition connection {A : Type} (cfg : Config) (now now' : Z) (ctor : option Exn)
    (body : nat -> State -> Outcome A * State) (p : State) : Outcome A * State :=
  match acquire cfg now ctor p with
  | (Raised e, p1) => (Raised e, p1)
  | (Returned conn, p1) =>
      let '(result, p2) := body conn p1 in
      (result, release now' conn p2)
  end.

End Pool.

(** ** TopazConfig: the engine ([dependencies.py], lines 222-549) *)
Module Engine.
Import PyExc.

Inductive IdentityType :=
| IDENTITY_TYPE_NONE
| IDENTITY_TYPE_SUB
| IDENTITY_TYPE_JWT
| IDENTITY_TYPE_MANUAL.

Record Identity := {
  identity_type : IdentityType;
  identity_value : option string
}.

(** [identity.value or ""] *)
Definition value_or_empty (identity : Identity) : string :=
  match identity_value identity with
  | Some v => v
  | None => ""
  end.

Definition decision_label (result : bool) : string :=
  if result then "allowed" else "denied".

Section WithEnv.
(** The request object and the values of a resource context are opaque.
    [py_str], [sha256_hex32] and [fnmatch] are Python's, as in [Cache] and
    [Breaker]. *)
Context {Request Value : Type}.
Variable py_str : list (string * Value) -> string.
Variable sha256_hex32 : string -> string.
Variable fnmatch : string -> string -> bool.

Definition Context_ := list (string * Value).

(** What a check does outside the engine, in order.  The metrics events
    occur only with a metrics collector; tracing spans are left out. *)
Inductive Event :=
| EvCacheHit (source : string)
| EvCacheMiss (source : string)
| EvCreateClient (identity : option Identity)
| EvDecisions (identity : option Identity) (policy_path decision : string)
    (resource_context : option Context_)
| EvTopazLatency
| EvRecordFallback (strategy : string) (cache_hit : bool) (decision : string)
| EvOnFallback (policy_path : string) (stale_cached : option bool) (result : bool)
    (outcome : Outcome unit)
| EvRecordError (error_type : ExcClass)
| EvAuthRequest (source decision : string)
| EvLatency (source : string) (cached : bool).

(** The collaborators of the engine: the identity provider of the
    application, which may return no identity or raise, and the authorizer
    behind [client.decisions], which answers with a dictionary of decisions
    or raises. *)
Record Env := {
  identity_provider : Request -> Outcome (option Identity);
  decisions :
    option Identity -> string -> string -> option Context_ -> Outcome (list (string * bool))
}.

(** The fields of [TopazConfig].  The circuit breaker and the connection
    pool are carried with their state. *)
Record TopazConfig := {
  policy_path_root : string;
  resource_context_provider : option (Request -> Context_);
  decision_cache : option Cache.DecisionCache;
  circuit_breaker : option (@Breaker.Config Request Value * Breaker.State);
  connection_pool : option (Pool.Config * Pool.State);
  metrics : bool;
  _stale_cache : list (string * (bool * Z))
}.

Definition with_decision_cache (c : Cache.DecisionCache) (t : TopazConfig) : TopazConfig :=
  {| policy_path_root := policy_path_root t;
     resource_context_provider := resource_context_provider t;
     decision_cache := Some c;
     circuit_breaker := circuit_breaker t;
     connection_pool := connection_pool t;
     metrics := metrics t;
     _stale_cache := _stale_cache t |}.

Definition with_breaker_state (bc : @Breaker.Config Request Value) (bs : Breaker.State)
    (t : TopazConfig) : TopazConfig :=
  {| policy_path_root := policy_path_root t;
     resource_context_provider := resource_context_provider t;
     decision_cache := decision_cache t;
     circuit_breaker := Some (bc, bs);
     connection_pool := connection_pool t;
     metrics := metrics t;
     _stale_cache := _stale_cache t |}.

Definition with_stale_cache (d : list (string * (bool * Z))) (t : TopazConfig) : TopazConfig :=
  {| policy_path_root := policy_path_root t;
     resource_context_provider := resource_context_provider t;
     decision_cache := decision_cache t;
     circuit_breaker := circuit_breaker t;
     connection_pool := connection_pool t;
     metrics := metrics t;
     _stale_cache := d |}.

(** [TopazConfig(...)]: the constructor configures the pool it is given. *)
Definition make (root : string) (provider : option (Request -> Context_))
    (cache : option Cache.DecisionCache)
    (breaker : option (@Breaker.Config Request Value))
    (pool : option Pool.Config) (with_metrics : bool) : TopazConfig :=
  {| policy_path_root := root;
     resource_context_provider := provider;
     decision_cache := cache;
     circuit_breaker :=
       match breaker with Some bc => Some (bc, Breaker.initial) | None => None end;
     connection_pool :=
       match pool with Some pc => Some (pc, Pool.configure pc Pool.new) | None => None end;
     metrics := with_metrics;
     _stale_cache := [] |}.

Definition _make_stale_cache_key := @Cache._make_key Value py_str sha256_hex32.

Definition _get_stale_cached (t : TopazConfig) (identity_value policy_path decision : string)
    (resource_context : option Context_) (now : Z) : option bool * TopazConfig :=
  match circuit_breaker t with
  | None => (None, t)
  | Some (bc, _) =>
      if negb (Breaker.serve_stale_cache bc) then (None, t)
      else
        let key := _make_stale_cache_key identity_value policy_path decision resource_context in
        match PyDict.get key (_stale_cache t) with
        | None => (None, t)
        | Some (value, cached_at) =>
            let stale_age := (now - cached_at)%Z in
            if (stale_age >? Breaker.stale_cache_ttl bc)%Z
            then (None, with_stale_cache (PyDict.del key (_stale_cache t)) t)
            else (Some value, t)
        end
  end.

(** [sorted(keys, key=cached_at)], a stable sort: an entry is inserted
    before the entries of the same age that follow it in the dictionary. *)
Fixpoint insert_by_time (kv : string * (bool * Z)) (l : list (string * (bool * Z)))
  : list (string * (bool * Z)) :=
  match l with
  | [] => [kv]
  | kv' :: l' =>
      if (snd (snd kv) <=? snd (snd kv'))%Z then kv :: l else kv' :: insert_by_time kv l'
  end.

Definition keys_by_time (d : list (string * (bool * Z))) : list string :=
  PyDict.keys (fold_right insert_by_time [] d).

(** No entry of the list is newer than an entry after it. *)
Fixpoint by_time (l : list (string * (bool * Z))) : Prop :=
  match l with
  | [] => True
  | kv :: l' => Forall (fun kv' => (snd (snd kv) <= snd (snd kv'))%Z) l' /\ by_time l'
  end.

Definition _set_stale_cached (t : TopazConfig) (identity_value policy_path decision : string)
    (resource_context : option Context_) (value : bool) (now : Z) : TopazConfig :=
  match circuit_breaker t with
  | None => t
  | Some _ =>
      let key := _make_stale_cache_key identity_value policy_path decision resource_context in
      let d := PyDict.set key (value, now) (_stale_cache t) in
      let max_stale_cache := 10000%Z in
      if (PyDict.len d >? max_stale_cache)%Z
      then with_stale_cache
             (PyDict.del_all (PyDict.slice_to (max_stale_cache / 10) (keys_by_time d)) d) t
      else with_stale_cache d t
  end.

(** [dict(resource_context) if resource_context else {}] *)
Definition context_or_empty (resource_context : option Context_) : Context_ :=
  match resource_context with
  | Some ctx => ctx
  | None => []
  end.

(** What a run of the [try] block leaves behind: the outcome, the engine,
    the events, and the two locals the [finally] block reads ([result], set
    on the paths that assign it, and [cached_result]). *)
Record Ran := {
  outcome : Outcome bool;
  engine : TopazConfig;
  events : list Event;
  local_result : option bool;
  cached_result : bool
}.

Definition after (evs : list Event) (r : Ran) : Ran :=
  {| outcome := outcome r; engine := engine r; events := evs ++ events r;
     local_result := local_result r; cached_result := cached_result r |}.

(** The stale-cache fallback, used when the circuit is open and when a
    call has failed: [kind] is the label of the metric, [error] the exception
    handed to the strategy. *)
Definition use_fallback (t : TopazConfig) (bc : @Breaker.Config Request Value)
    (kind : string) (error : Exn) (request : Request)
    (identity_value policy_path decision : string)
    (resource_context : option Context_) (now : Z) : Ran :=
  let '(stale_cached, t1) :=
    _get_stale_cached t identity_value policy_path decision resource_context now in
  match Breaker.get_fallback_decision fnmatch bc request policy_path
          (context_or_empty resource_context) stale_cached error with
  | Raised ex =>
      {| outcome := Raised ex; engine := t1; events := [];
         local_result := None; cached_result := false |}
  | Returned result =>
      let recorded :=
        if metrics t1
        then [EvRecordFallback kind
                (match stale_cached with Some _ => true | None => false end)
                (decision_label result)]
        else [] in
      let called :=
        match Breaker.on_fallback bc with
        | Some on_fallback =>
            [EvOnFallback policy_path stale_cached result
               (on_fallback request policy_path stale_cached result)]
        | None => []
        end in
      {| outcome := Returned result; engine := t1; events := recorded ++ called;
         local_result := Some result; cached_result := false |}
  end.

(** The [except Exception as e] block. *)
Definition on_exception (t : TopazConfig) (e : Exn) (request : Request)
    (identity_value policy_path decision : string)
    (resource_context : option Context_) (now : Z) : Ran :=
  let recorded := if metrics t then [EvRecordError (exc_class e)] else [] in
  let reraise :=
    {| outcome := Raised e; engine := t; events := recorded;
       local_result := None; cached_result := false |} in
  match circuit_breaker t with
  | Some (bc, bs) =>
      if Breaker.is_failure_exception bc e then
        let bs' := Breaker.record_failure bc now e bs in
        after recorded
          (use_fallback (with_breaker_state bc bs' t) bc "error" e request
             identity_value policy_path decision resource_context now)
      else reraise
  | None => reraise
  end.

(** "Make the authorization call": [create_client] asks the identity
    provider again and constructs a client for this call, whatever
    [connection_pool] holds. *)
Definition call_authorizer (env : Env) (t : TopazConfig) (request : Request)
    (identity_value policy_path decision : string)
    (resource_context : option Context_) (now : Z) : Ran :=
  match identity_provider env request with
  | Raised e =>
      on_exception t e request identity_value policy_path decision resource_context now
  | Returned identity =>
      let called :=
        [EvCreateClient identity;
         EvDecisions identity policy_path decision resource_context] in
      match decisions env identity policy_path decision resource_context with
      | Raised e =>
          after called
            (on_exception t e request identity_value policy_path decision
               resource_context now)
      | Returned decisions_result =>
          let result :=
            match PyDict.get decision decisions_result with
            | Some b => b
            | None => false
            end in
          let measured := if metrics t then [EvTopazLatency] else [] in
          let t1 :=
            match circuit_breaker t with
            | Some (bc, bs) => with_breaker_state bc (Breaker.record_success bc now bs) t
            | None => t
            end in
          let t2 :=
            match decision_cache t1 with
            | Some c =>
                with_decision_cache
                  (Cache.set py_str sha256_hex32 c identity_value policy_path decision
                     resource_context result now now) t1
            | None => t1
            end in
          let t3 :=
            _set_stale_cached t2 identity_value policy_path decision resource_context
              result now in
          {| outcome := Returned result; engine := t3; events := called ++ measured;
             local_result := Some result; cached_result := false |}
      end
  end.

(** [ConnectionError("Circuit breaker open")] *)
Definition open_error : Exn :=
  {| exc_class := ConnectionError_; exc_message := "Circuit breaker open" |}.

(** From the circuit breaker on: the part of the [try] block that runs
    when the fresh cache has not answered. *)
Definition gate (env : Env) (t : TopazConfig) (request : Request)
    (identity_value policy_path decision : string)
    (resource_context : option Context_) (now : Z) : Ran :=
  match circuit_breaker t with
  | Some (bc, bs) =>
      let '(should_call, bs') := Breaker.should_allow_request bc now bs in
      let t1 := with_breaker_state bc bs' t in
      if should_call then
        call_authorizer env t1 request identity_value policy_path decision
          resource_context now
      else
        let ran := use_fallback t1 bc "circuit_open" open_error request identity_value
                     policy_path decision resource_context now in
        match outcome ran with
        | Returned _ => ran
        | Raised e =>
            after (events ran)
              (on_exception (engine ran) e request identity_value policy_path decision
                 resource_context now)
        end
  | None =>
      call_authorizer env t request identity_value policy_path decision
        resource_context now
  end.

(** "Check fresh cache first": the cached decision, if any, and the
    engine with the cache as the lookup leaves it. *)
Definition fresh_lookup (t : TopazConfig) (identity_value policy_path decision : string)
    (resource_context : option Context_) (now : Z) : option bool * TopazConfig :=
  match decision_cache t with
  | Some c =>
      let '(cached, c') :=
        Cache.get py_str sha256_hex32 c identity_value policy_path decision
          resource_context now in
      (cached, with_decision_cache c' t)
  | None => (None, t)
  end.

(** The handler when [identity] is [None]: [identity.value] raises before
    [identity_value] is bound, so the handler re-raises, or, when the breaker
    counts the error as a failure, records it and fails on the unbound name. *)
Definition on_missing_identity_value (t : TopazConfig) (now : Z) : Ran :=
  let e := {| exc_class := AttributeError_;
              exc_message := "'NoneType' object has no attribute 'value'" |} in
  let recorded := if metrics t then [EvRecordError AttributeError_] else [] in
  match circuit_breaker t with
  | Some (bc, bs) =>
      if Breaker.is_failure_exception bc e then
        {| outcome := Raised {| exc_class := UnboundLocalError_;
                                exc_message := "identity_value" |};
           engine := with_breaker_state bc (Breaker.record_failure bc now e bs) t;
           events := recorded; local_result := None; cached_result := false |}
      else
        {| outcome := Raised e; engine := t; events := recorded;
           local_result := None; cached_result := false |}
  | None =>
      {| outcome := Raised e; engine := t; events := recorded;
         local_result := None; cached_result := false |}
  end.

(** The [try] block with its handler. *)
Definition try_block (env : Env) (t : TopazConfig) (identity : option Identity)
    (request : Request) (policy_path decision : string)
    (resource_context : option Context_) (source : string) (now : Z) : Ran :=
  match identity with
  | None => on_missing_identity_value t now
  | Some identity =>
      let identity_value := value_or_empty identity in
      let '(cached, t1) :=
        fresh_lookup t identity_value policy_path decision resource_context now in
      let looked_up (ev : Event) : list Event :=
        match decision_cache t with
        | Some _ => if metrics t then [ev] else []
        | None => []
        end in
      match cached with
      | Some b =>
          {| outcome := Returned b; engine := t1;
             events := looked_up (EvCacheHit source);
             local_result := None; cached_result := true |}
      | None =>
          after (looked_up (EvCacheMiss source))
            (gate env t1 request identity_value policy_path decision
               resource_context now)
      end
  end.

(** [check_decision], when the clock reads [now]: the outcome, the engine
    afterwards and the events. *)
Definition check_decision (env : Env) (t : TopazConfig) (request : Request)
    (policy_path decision : string) (resource_context : option Context_)
    (source : string) (now : Z) : Outcome bool * TopazConfig * list Event :=
  match identity_provider env request with
  | Raised e => (Raised e, t, [])
  | Returned identity =>
      let ran := try_block env t identity request policy_path decision
                   resource_context source now in
      let result_decision :=
        decision_label (match local_result ran with Some b => b | None => false end) in
      let finally :=
        if metrics (engine ran)
        then [EvAuthRequest source result_decision;
              EvLatency source (cached_result ran)]
        else [] in
      (outcome ran, engine ran, events ran ++ finally)
  end.

(** [policy_path_for] *)
Definition policy_path_for (t : TopazConfig) (method route_path : string) : string :=
  PolicyPath._resolve_policy_path (policy_path_root t) method route_path.

(** [check_relation]; [str_value] makes a context value of a string. *)
Definition check_relation (str_value : string -> Value) (env : Env) (t : TopazConfig)
    (request : Request) (object_type object_id relation subject_type : string) (now : Z)
  : Outcome bool * TopazConfig * list Event :=
  let resource_ctx :=
    match resource_context_provider t with
    | Some provider => PyDict.update [] (provider request)
    | None => []
    end in
  let resource_ctx :=
    PyDict.update resource_ctx
      [("object_type", str_value object_type); ("object_id", str_value object_id);
       ("relation", str_value relation); ("subject_type", str_value subject_type)] in
  let policy_path := policy_path_root t +:+ ".check" in
  check_decision env t request policy_path "allowed" (Some resource_ctx) "dependency" now.

Definition is_network_event (ev : Event) : bool :=
  match ev with
  | EvCreateClient _ | EvDecisions _ _ _ _ => true
  | _ => false
  end.

End WithEnv.
End Engine.

(** ** check_hierarchy ([dependencies.py], lines 75-110 and 724-844) *)
Module Hierarchy.
Import PyExc.

(** A row of [HierarchyResult.checks]. *)
Record Row := {
  row_type : string;
  row_id : string;
  row_relation : string;
  row_allowed : bool
}.

Record HierarchyResult := {
  allowed : bool;
  checks : list Row;
  denied_at : option string;
  first_match : option string
}.

Section WithEngine.
(** The request is opaque but for the three lookups of
    [_resolve_id_source].  [check_relation] is the engine's: it answers or
    raises, and whatever it does to the engine, the authorizer and the
    clock is a change of the world [World]. *)
Context {Request World : Type}.
Variable path_param : Request -> string -> option string.
Variable header : Request -> string -> option string.
Variable query_param : Request -> string -> option string.
Variable check_relation :
  Request -> string -> string -> string -> string -> World -> Outcome bool * World.

Inductive IdSource :=
| IdSpec (id_source : string)
| IdCallable (f : Request -> string).

(** An input check: [(object_type, id_source, relation)]. *)
Record Check := {
  check_type : string;
  check_id_source : IdSource;
  check_relation_name : string
}.

(** [s[n:]] *)
Definition drop_prefix (n : nat) (s : string) : string :=
  String.substring n (String.length s - n) s.

Definition get_or_empty (v : option string) : string :=
  match v with Some x => x | None => "" end.

Definition _resolve_id_source (id_source : IdSource) (request : Request) : string :=
  match id_source with
  | IdCallable f => f request
  | IdSpec id_source =>
      if String.prefix "header:" id_source then
        get_or_empty (header request (drop_prefix 7 id_source))
      else if String.prefix "query:" id_source then
        get_or_empty (query_param request (drop_prefix 6 id_source))
      else if String.prefix "static:" id_source then drop_prefix 7 id_source
      else get_or_empty (path_param request id_source)
  end.

(** The [for] loop of [_check_hierarchy_sequential] and the result after
    it; [results] is the list built so far. *)
Fixpoint sequential_loop (request : Request) (todo : list Check) (mode subject_type : string)
    (results : list Row) (w : World) : Outcome HierarchyResult * World :=
  match todo with
  | [] =>
      if String.eqb mode "all"
      then (Returned {| allowed := true; checks := results;
                        denied_at := None; first_match := None |}, w)
      else (Returned {| allowed := false; checks := results;
                        denied_at := None; first_match := None |}, w)
  | check :: rest =>
      let object_type := check_type check in
      let relation := check_relation_name check in
      let object_id := _resolve_id_source (check_id_source check) request in
      match check_relation request object_type object_id relation subject_type w with
      | (Raised e, w') => (Raised e, w')
      | (Returned allowed_, w') =>
          let results :=
            results ++ [{| row_type := object_type; row_id := object_id;
                           row_relation := relation; row_allowed := allowed_ |}] in
          if String.eqb mode "all" && negb allowed_ then
            (Returned {| allowed := false; checks := results;
                         denied_at := Some object_type; first_match := None |}, w')
          else if String.eqb mode "any" && allowed_ then
            (Returned {| allowed := true; checks := results;
                         denied_at := None; first_match := None |}, w')
          else if String.eqb mode "first_match" && allowed_ then
            (Returned {| allowed := true; checks := results;
                         denied_at := None; first_match := Some relation |}, w')
          else sequential_loop request rest mode subject_type results w'
      end
  end.

Definition _check_hierarchy_sequential (request : Request) (checks_ : list Check)
    (mode subject_type : string) (w : World) : Outcome HierarchyResult * World :=
  sequential_loop request checks_ mode subject_type [] w.

(** [asyncio.gather] over the [check_one] tasks.  The tasks run one at a
    time in the order [schedule] lists their positions; each stores its row
    at its own position, and the first exception raised is the one that
    [gather] raises. *)
Fixpoint gather_run (schedule : list nat) (request : Request) (checks_ : list Check)
    (subject_type : string) (rows : gmap nat Row) (raised : option Exn) (w : World)
  : gmap nat Row * option Exn * World :=
  match schedule with
  | [] => (rows, raised, w)
  | i :: rest =>
      match checks_ !! i with
      | None => gather_run rest request checks_ subject_type rows raised w
      | Some check =>
          let object_type := check_type check in
          let relation := check_relation_name check in
          let object_id := _resolve_id_source (check_id_source check) request in
          match check_relation request object_type object_id relation subject_type w with
          | (Returned allowed_, w') =>
              gather_run rest request checks_ subject_type
                (<[i := {| row_type := object_type; row_id := object_id;
                           row_relation := relation; row_allowed := allowed_ |}]> rows)
                raised w'
          | (Raised e, w') =>
              gather_run rest request checks_ subject_type rows
                (match raised with Some _ => raised | None => Some e end) w'
          end
      end
  end.

(** The results of [gather], in the order of the input list. *)
Definition gathered (rows : gmap nat Row) (n : nat) : list Row :=
  omap (fun i => rows !! i) (seq 0 n).

Definition _check_hierarchy_concurrent (schedule : list nat) (request : Request)
    (checks_ : list Check) (mode subject_type : string) (w : World)
  : Outcome HierarchyResult * World :=
  match gather_run schedule request checks_ subject_type ∅ None w with
  | (_, Some e, w') => (Raised e, w')
  | (rows, None, w') =>
      let results_list := gathered rows (length checks_) in
      if String.eqb mode "all" then
        match List.find (fun row => negb (row_allowed row)) results_list with
        | Some row =>
            (Returned {| allowed := false; checks := results_list;
                         denied_at := Some (row_type row); first_match := None |}, w')
        | None =>
            (Returned {| allowed := true; checks := results_list;
                         denied_at := None; first_match := None |}, w')
        end
      else
        let any_allowed := existsb row_allowed results_list in
        (Returned {| allowed := any_allowed; checks := results_list;
                     denied_at := None; first_match := None |}, w')
  end.

Definition check_hierarchy (schedule : list nat) (request : Request)
    (checks_ : list Check) (mode subject_type : string) (optimize : bool) (w : World)
  : Outcome HierarchyResult * World :=
  if String.eqb mode "first_match" || negb optimize
  then _check_hierarchy_sequential request checks_ mode subject_type w
  else _check_hierarchy_concurrent schedule request checks_ mode subject_type w.

(** No call of [check_relation] raises. *)
Definition never_raises : Prop :=
  forall request object_type object_id relation subject_type w,
  exists b w1,
    check_relation request object_type object_id relation subject_type w
    = (Returned b, w1).

(** A schedule runs every task once. *)
Definition fair (schedule : list nat) (checks_ : list Check) : Prop :=
  Permutation schedule (seq 0 (length checks_)).

(** What ties a row to the check it answers. *)
Definition answers (request : Request) (row : Row) (check : Check) : Prop :=
  row_type row = check_type check
  /\ row_relation row = check_relation_name check
  /\ row_id row = _resolve_id_source (check_id_source check) request.

(** The rows answer the first checks of the input, one for one and in
    their order. *)
Definition in_input_order (request : Request) (rows : list Row) (checks_ : list Check) : Prop :=
  Forall2 (answers request) rows (firstn (length rows) checks_).

(** The checks at the positions that [schedule] lists were run one after
    the other in that order, from the world [w] to the world [w']: none
    raised, and the row at the position of each holds what [check_relation]
    answered at its turn. *)
Fixpoint ran (request : Request) (subject_type : string) (checks_ : list Check)
    (rows : list Row) (schedule : list nat) (w w' : World) : Prop :=
  match schedule with
  | [] => w' = w
  | i :: rest =>
      exists check row w1,
        checks_ !! i = Some check
        /\ rows !! i = Some row
        /\ answers request row check
        /\ check_relation request (check_type check) (row_id row)
             (check_relation_name check) subject_type w
           = (Returned (row_allowed row), w1)
        /\ ran request subject_type checks_ rows rest w1 w'
  end.

(** [row] is the first row that failed, and [check] the check of the
    input it answers: the rows before it passed. *)
Definition first_denied (request : Request) (rows : list Row) (checks_ : list Check)
    (row : Row) (check : Check) : Prop :=
  exists pre post,
    rows = pre ++ row :: post
    /\ Forall (fun x => row_allowed x = true) pre
    /\ row_allowed row = false
    /\ checks_ !! length pre = Some check
    /\ answers request row check.

(** [row] is the first row that passed, and [check] the check of the
    input it answers: the rows before it failed. *)
Definition first_allowed (request : Request) (rows : list Row) (checks_ : list Check)
    (row : Row) (check : Check) : Prop :=
  exists pre post,
    rows = pre ++ row :: post
    /\ Forall (fun x => row_allowed x = false) pre
    /\ row_allowed row = true
    /\ checks_ !! length pre = Some check
    /\ answers request row check.

End WithEngine.

(** The sequential loop leaves at the first row whose answer [stop]
    accepts: this says which answers those are for [mode]. *)
Definition stops (stop : bool -> bool) (mode : string) : Prop :=
  forall a,
    (if String.eqb mode "all" && negb a then true
     else if String.eqb mode "any" && a then true
     else if String.eqb mode "first_match" && a then true
     else false) = stop a.

(** [HierarchyResult.as_dict]: the dictionary comprehension stores the
    rows one after the other under their object type. *)
Definition as_dict (r : HierarchyResult) : list (string * bool) :=
  fold_left (fun d row => PyDict.set (row_type row) (row_allowed row) d) (checks r) [].

End Hierarchy.

(** ** asyncio.gather over a list of tasks

    As in [Hierarchy.gather_run]: the tasks run one at a time in the order
    [schedule] lists their positions, each stores its result at its own
    position, and the first exception raised is the one [gather] raises. *)
Module Gather.
Import PyExc.

Section Tasks.
Context {World A B : Type}.
Variable task : A -> World -> Outcome B * World.

Fixpoint run (schedule : list nat) (inputs : list A) (results : gmap nat B)
    (raised : option Exn) (w : World) : gmap nat B * option Exn * World :=
  match schedule with
  | [] => (results, raised, w)
  | i :: rest =>
      match inputs !! i with
      | None => run rest inputs results raised w
      | Some a =>
          match task a w with
          | (Returned b, w') => run rest inputs (<[i := b]> results) raised w'
          | (Raised e, w') =>
              run rest inputs results
                (match raised with Some _ => raised | None => Some e end) w'
          end
      end
  end.

(** The results, in the order of the inputs. *)
Definition collected (results : gmap nat B) (n : nat) : list B :=
  omap (fun i => results !! i) (seq 0 n).

Definition gather (schedule : list nat) (inputs : list A) (w : World)
  : Outcome (list B) * World :=
  match run schedule inputs ∅ None w with
  | (_, Some e, w') => (Raised e, w')
  | (results, None, w') => (Returned (collected results (length inputs)), w')
  end.

(** A schedule runs every task once. *)
Definition fair (schedule : list nat) (inputs : list A) : Prop :=
  Permutation schedule (seq 0 (length inputs)).

(** [b] is what the task of [a] returned, in some state of the world. *)
Definition result_of (a : A) (b : B) : Prop :=
  exists w w', task a w = (Returned b, w').

End Tasks.
End Gather.

(** ** The dependencies and the non-raising checks ([dependencies.py],
    lines 571-722 and 847-1282) *)
Module Dependencies.
Import PyExc Engine.

(** How a dependency ends: it returns, it raises [HTTPException], or an
    exception of the check passes through it. *)
Inductive Raising (A : Type) :=
| Done (a : A)
| HTTPException (status_code : Z) (detail : string)
| Error (e : Exn).
Arguments Done {A} a.
Arguments HTTPException {A} status_code detail.
Arguments Error {A} e.

(** The [object_id] argument: a callable, a fixed identifier, or [None]. *)
Inductive ObjectId (Request : Type) :=
| ObjectIdCallable (f : Request -> string)
| ObjectIdStatic (object_id : string)
| ObjectIdDefault.
Arguments ObjectIdCallable {Request} f.
Arguments ObjectIdStatic {Request} object_id.
Arguments ObjectIdDefault {Request}.

Section WithEnv.
(** [path_params], [route_path] and [method] read the request;
    [param_value] and [str_value] make a context value of a path parameter
    and of a string; [capitalize] is [str.capitalize]. *)
Context {Request Value : Type}.
Variable py_str : list (string * Value) -> string.
Variable sha256_hex32 : string -> string.
Variable fnmatch : string -> string -> bool.
Variable path_params : Request -> list (string * string).
Variable route_path : Request -> option string.
Variable method : Request -> string.
Variable param_value : string -> Value.
Variable str_value : string -> Value.
Variable capitalize : string -> string.

Local Abbreviation TopazConfig := (@Engine.TopazConfig Request Value).
Local Abbreviation Env := (@Engine.Env Request Value).
Local Abbreviation Context_ := (@Engine.Context_ Value).
Local Abbreviation Event := (@Engine.Event Value).
Local Abbreviation check_decision :=
  (@Engine.check_decision Request Value py_str sha256_hex32 fnmatch).

(** The context of a policy check: the static context, then what the
    provider adds, then the path parameters. *)
Definition merged_context (t : TopazConfig) (resource_context : option Context_)
    (request : Request) : Context_ :=
  let ctx := context_or_empty resource_context in
  let ctx :=
    match resource_context_provider t with
    | Some provider => PyDict.update ctx (provider request)
    | None => ctx
    end in
  PyDict.update ctx (map (fun kv => (fst kv, param_value (snd kv))) (path_params request)).

(** [TopazConfig.is_allowed] *)
Definition is_allowed (env : Env) (t : TopazConfig) (request : Request)
    (policy_path : string) (resource_context : option Context_) (decision : string)
    (now : Z) : Outcome bool * TopazConfig * list Event :=
  check_decision env t request policy_path decision
    (Some (merged_context t resource_context request)) "dependency" now.

(** The end of the policy dependencies, from the check on. *)
Definition deny_unless_allowed (checked : Outcome bool * TopazConfig * list Event)
    (detail : string) : Raising unit * TopazConfig * list Event :=
  match checked with
  | (Raised e, t', events) => (Error e, t', events)
  | (Returned allowed, t', events) =>
      if negb allowed then (HTTPException 403 detail, t', events)
      else (Done tt, t', events)
  end.

(** What the log line of the policy dependencies does to an identity that
    is [None]. *)
Definition no_identity_type : Exn :=
  {| exc_class := AttributeError_;
     exc_message := "'NoneType' object has no attribute 'type'" |}.

(** The dependency of [require_policy_allowed]. *)
Definition require_policy_allowed (env : Env) (t : TopazConfig) (policy_path decision : string)
    (resource_context : option Context_) (request : Request) (now : Z)
  : Raising unit * TopazConfig * list Event :=
  match identity_provider env request with
  | Raised e => (Error e, t, [])
  | Returned None => (Error no_identity_type, t, [])
  | Returned (Some identity) =>
      let ctx := merged_context t resource_context request in
      deny_unless_allowed
        (check_decision env t request policy_path decision (Some ctx) "dependency" now)
        ("Access denied: " +:+ policy_path)
  end.

(** The dependency of [require_policy_auto]. *)
Definition require_policy_auto (env : Env) (t : TopazConfig) (decision : string)
    (resource_context : option Context_) (request : Request) (now : Z)
  : Raising unit * TopazConfig * list Event :=
  match route_path request with
  | None =>
      (HTTPException 500 "Unable to determine route for policy path auto-resolution", t, [])
  | Some route_path =>
      let policy_path :=
        PolicyPath._resolve_policy_path (policy_path_root t) (method request) route_path in
      (* from here on the code repeats that of [require_policy_allowed] *)
      require_policy_allowed env t policy_path decision resource_context request now
  end.

(** "Resolve object_id" *)
Definition resolve_object_id (object_id : ObjectId Request) (request : Request) : string :=
  match object_id with
  | ObjectIdCallable f => f request
  | ObjectIdStatic object_id => object_id
  | ObjectIdDefault =>
      match PyDict.get "id" (path_params request) with
      | Some v => v
      | None => ""
      end
  end.

(** The four fields of a ReBAC check. *)
Definition rebac_fields (object_type obj_id relation subject_type : string) : Context_ :=
  [("object_type", str_value object_type); ("object_id", str_value obj_id);
   ("relation", str_value relation); ("subject_type", str_value subject_type)].

(** The dependency of [require_rebac_allowed]. *)
Definition require_rebac_allowed (env : Env) (t : TopazConfig) (object_type relation : string)
    (object_id : ObjectId Request) (subject_type : string) (request : Request) (now : Z)
  : Raising unit * TopazConfig * list Event :=
  let obj_id := resolve_object_id object_id request in
  let resource_ctx :=
    match resource_context_provider t with
    | Some provider => PyDict.update [] (provider request)
    | None => []
    end in
  let resource_ctx :=
    PyDict.update resource_ctx (rebac_fields object_type obj_id relation subject_type) in
  let policy_path := policy_path_root t +:+ ".check" in
  deny_unless_allowed
    (check_decision env t request policy_path "allowed" (Some resource_ctx) "dependency" now)
    ("Access denied: " +:+ relation +:+ " on " +:+ object_type +:+ ":" +:+ obj_id).

(** The dependency of [get_authorized_resource]. *)
Definition get_authorized_resource {T : Type} (env : Env) (t : TopazConfig)
    (resource_fetcher : Request -> option T) (object_type relation : string)
    (object_id : ObjectId Request) (subject_type : string) (request : Request) (now : Z)
  : Raising T * TopazConfig * list Event :=
  match resource_fetcher request with
  | None => (HTTPException 404 (capitalize object_type +:+ " not found"), t, [])
  | Some resource =>
      let obj_id := resolve_object_id object_id request in
      let resource_ctx := rebac_fields object_type obj_id relation subject_type in
      let policy_path := policy_path_root t +:+ ".check" in
      match check_decision env t request policy_path "allowed" (Some resource_ctx)
              "dependency" now with
      | (Raised e, t', events) => (Error e, t', events)
      | (Returned allowed, t', events) =>
          if negb allowed then
            (HTTPException 403
               ("Access denied: " +:+ relation +:+ " on " +:+ object_type +:+ ":" +:+ obj_id),
             t', events)
          else (Done resource, t', events)
      end
  end.

End WithEnv.

Section Bulk.
(** The checks that run under [asyncio.gather].  As in [Hierarchy], the
    check of the engine answers or raises, and what it does to the engine,
    the authorizer and the clock is a change of the world. *)
Context {Request Value World : Type}.
Variable str_value : string -> Value.
Variable check_relation :
  Request -> string -> string -> string -> string -> World -> Outcome bool * World.
Variable check_decision :
  Request -> string -> string -> list (string * Value) -> World -> Outcome bool * World.

(** [check_single_relation] of [check_relations] *)
Definition check_single_relation (request : Request)
    (object_type object_id subject_type : string) (rel : string) (w : World)
  : Outcome (string * bool) * World :=
  match check_relation request object_type object_id rel subject_type w with
  | (Returned result, w') => (Returned (rel, result), w')
  | (Raised e, w') => (Raised e, w')
  end.

(** [TopazConfig.check_relations]: [dict(results)] stores the pairs one
    after the other. *)
Definition check_relations (schedule : list nat) (request : Request)
    (object_type object_id : string) (relations : list string) (subject_type : string)
    (w : World) : Outcome (list (string * bool)) * World :=
  match Gather.gather (check_single_relation request object_type object_id subject_type)
          schedule relations w with
  | (Returned results, w') => (Returned (PyDict.update [] results), w')
  | (Raised e, w') => (Raised e, w')
  end.

(** [check_single] of [filter_authorized_resources] *)
Definition check_single {T : Type} (policy_path_root object_type relation : string)
    (id_extractor : T -> string) (subject_type : string) (request : Request)
    (resource : T) (w : World) : Outcome (T * bool) * World :=
  let obj_id := id_extractor resource in
  let resource_ctx :=
    [("object_type", str_value object_type); ("object_id", str_value obj_id);
     ("relation", str_value relation); ("subject_type", str_value subject_type)] in
  let policy_path := policy_path_root +:+ ".check" in
  match check_decision request policy_path "allowed" resource_ctx w with
  | (Returned allowed, w') => (Returned (resource, allowed), w')
  | (Raised e, w') => (Raised e, w')
  end.

(** [filter_fn] of [filter_authorized_resources] *)
Definition filter_fn {T : Type} (policy_path_root object_type relation : string)
    (id_extractor : T -> string) (subject_type : string) (request : Request)
    (schedule : list nat) (resources : list T) (w : World) : Outcome (list T) * World :=
  match resources with
  | [] => (Returned [], w)
  | _ =>
      match Gather.gather
              (check_single policy_path_root object_type relation id_extractor
                 subject_type request) schedule resources w with
      | (Returned results, w') =>
          (Returned (map fst (List.filter (fun ra => snd ra) results)), w')
      | (Raised e, w') => (Raised e, w')
      end
  end.

End Bulk.

Section OverHierarchy.
Context {Request World : Type}.
Variable path_param : Request -> string -> option string.
Variable header : Request -> string -> option string.
Variable query_param : Request -> string -> option string.
Variable check_relation :
  Request -> string -> string -> string -> string -> World -> Outcome bool * World.

(** The message of the refusal: [if result.denied_at] is false for [None]
    and for an empty object type. *)
Definition hierarchy_detail (r : Hierarchy.HierarchyResult) : string :=
  match Hierarchy.denied_at r with
  | Some denied_at =>
      if PyStr.is_empty denied_at then "Access denied: no matching permissions"
      else "Access denied at " +:+ denied_at
  | None => "Access denied: no matching permissions"
  end.

(** The dependency of [require_rebac_hierarchy]. *)
Definition require_rebac_hierarchy (schedule : list nat)
    (checks_ : list (@Hierarchy.Check Request)) (mode subject_type : string)
    (optimize : bool) (request : Request) (w : World) : Raising unit * World :=
  match Hierarchy.check_hierarchy path_param header query_param check_relation
          schedule request checks_ mode subject_type optimize w with
  | (Raised e, w') => (Error e, w')
  | (Returned result, w') =>
      if negb (Hierarchy.allowed result)
      then (HTTPException 403 (hierarchy_detail result), w')
      else (Done tt, w')
  end.

End OverHierarchy.
End Dependencies.


(** ** TopazMiddleware ([middleware.py]) *)
Module Middleware.
Import PyExc Engine.

(** What the middleware reads of a matched route: its path pattern, if it
    has one, whether its endpoint carries [__skip_topaz_middleware__], and
    whether one of its dependencies is [SkipMiddleware]. *)
Record Route := {
  route_path : option string;
  endpoint_skip : bool;
  depends_on_skip : bool
}.

(** What it reads of the ASGI scope. *)
Record Scope := {
  scope_type : string;
  scope_method : option string;
  scope_path : option string
}.

Record Response := {
  status_code : Z;
  content_detail : string
}.

(** How a request ends: handed to the application, with the path
    parameters the middleware stored in the scope if it did, answered by
    the middleware, or left by an exception that nothing in [__call__]
    catches (the server answers it with a 500). *)
Inductive Served :=
| Downstream (path_params : option (list (string * string)))
| Responded (response : Response)
| Failed (e : Exn).

(** [Identity(type=IdentityType.IDENTITY_TYPE_NONE, value="anonymous")] *)
Definition anonymous : Engine.Identity :=
  {| identity_type := IDENTITY_TYPE_NONE; identity_value := Some "anonymous" |}.

Section WithEnv.
Context {Request Value : Type}.
Variable py_str : list (string * Value) -> string.
Variable sha256_hex32 : string -> string.
Variable fnmatch : string -> string -> bool.
(** [re.compile(p).match(path)], the route matching of the framework, the
    request made of a scope, and a path parameter as a context value. *)
Variable re_match : string -> string -> bool.
Variable match_route : Scope -> option (Route * list (string * string)).
Variable request_of : Scope -> Request.
Variable param_value : string -> Value.

Local Abbreviation TopazConfig := (@Engine.TopazConfig Request Value).
Local Abbreviation Env := (@Engine.Env Request Value).
Local Abbreviation check_decision :=
  (@Engine.check_decision Request Value py_str sha256_hex32 fnmatch).

(** The audit logger, as the middleware calls it.  Each of the two calls
    returns or raises: [audit.py] hands the event to the handler the user
    configured, or serializes it with [json.dumps], and catches nothing.
    [log_decision] gets the request, the policy path, the decision, the
    identity and the resource context; the result is the exception raised,
    if one is. *)
Record AuditLogger := {
  log_decision :
    Request -> string -> bool -> Engine.Identity -> option (list (string * Value))
    -> option Exn;
  log_unauthenticated_event : Request -> string -> option Exn
}.

(** [on_denied] is the callback of the user: it returns a response or
    raises. *)
Record Config := {
  exclude_paths : list string;
  exclude_methods : list string;
  on_missing_identity : string;
  on_denied : option (Request -> string -> Outcome Response);
  audit_logger : option AuditLogger
}.

(** The events of a request: those of the check, and the two calls to the
    audit logger. *)
Inductive Event :=
| Check (ev : @Engine.Event Value)
| AuditUnauthenticated (reason : string)
| AuditDecision (policy_path : string) (allowed : bool).

Definition _is_excluded (mw : Config) (method path : string) (route : option Route) : bool :=
  if existsb (String.eqb method) (exclude_methods mw) then true
  else if existsb (fun pattern => re_match pattern path) (exclude_paths mw) then true
  else
    match route with
    | Some route => endpoint_skip route || depends_on_skip route
    | None => false
    end.

(** [identity is None or not identity.value] *)
Definition missing (identity : option Identity) : bool :=
  match identity with
  | None => true
  | Some i =>
      match identity_value i with
      | None => true
      | Some v => PyStr.is_empty v
      end
  end.

Definition unauthorized : Response := {| status_code := 401; content_detail := "Unauthorized" |}.
Definition forbidden : Response := {| status_code := 403; content_detail := "Forbidden" |}.

(** The request as the middleware has prepared it when it comes to the
    check, or how it was served before.  [identity] is the local variable
    of [__call__]: what the identity provider returned or, when that is
    missing, the anonymous identity. *)
Inductive Prepared :=
| Served_ (served : Served) (events : list Event)
| ToCheck (request : Request) (identity : Engine.Identity) (policy_path : string)
    (resource_context : list (string * Value)) (path_params : list (string * string)).

(** [__call__] down to "Check authorization".  The resource context
    provider is, as in the engine, a function of the request: it returns. *)
Definition prepare (mw : Config) (env : Env) (t : TopazConfig) (scope : Scope) : Prepared :=
  if negb (String.eqb (scope_type scope) "http") then Served_ (Downstream None) []
  else
    let method := match scope_method scope with Some m => m | None => "GET" end in
    let path := match scope_path scope with Some p => p | None => "/" end in
    let match_result := match_route scope in
    let route := option_map fst match_result in
    let path_params := match match_result with Some (_, ps) => ps | None => [] end in
    if _is_excluded mw method path route then Served_ (Downstream None) []
    else
      match route with
      | None => Served_ (Downstream None) []
      | Some route =>
          let route_path := match route_path route with Some p => p | None => path end in
          let policy_path :=
            PolicyPath._resolve_policy_path (policy_path_root t) method route_path in
          let request := request_of scope in
          let identity :=
            match identity_provider env request with
            | Returned i => i
            | Raised _ => None
            end in
          if missing identity && String.eqb (on_missing_identity mw) "deny" then
            match audit_logger mw with
            | Some logger =>
                match log_unauthenticated_event logger request "missing_identity" with
                | Some e => Served_ (Failed e) [AuditUnauthenticated "missing_identity"]
                | None =>
                    Served_ (Responded unauthorized)
                      [AuditUnauthenticated "missing_identity"]
                end
            | None => Served_ (Responded unauthorized) []
            end
          else
            let identity :=
              match identity with
              | Some i => if missing (Some i) then anonymous else i
              | None => anonymous
              end in
            let resource_context :=
              match resource_context_provider t with
              | Some provider => PyDict.update [] (provider request)
              | None => []
              end in
            let resource_context :=
              PyDict.update resource_context
                (map (fun kv => (fst kv, param_value (snd kv))) path_params) in
            ToCheck request identity policy_path resource_context path_params
      end.

(** [resource_context or None] *)
Definition or_none {A : Type} (d : list A) : option (list A) :=
  match d with [] => None | _ => Some d end.

(** The call of [audit_logger.log_decision] after the check, which is
    outside the [try]: the exception it raises, if there is a logger and it
    raises, and the event. *)
Definition audit_decision (mw : Config) (request : Request) (policy_path : string)
    (allowed : bool) (identity : Engine.Identity) (resource_context : list (string * Value))
  : option Exn * list Event :=
  match audit_logger mw with
  | Some logger =>
      (log_decision logger request policy_path allowed identity (or_none resource_context),
       [AuditDecision policy_path allowed])
  | None => (None, [])
  end.

(** The response to a denied request: what [on_denied] returns or raises,
    or the 403. *)
Definition denial (mw : Config) (request : Request) (policy_path : string)
  : Outcome Response :=
  match on_denied mw with
  | Some on_denied => on_denied request policy_path
  | None => Returned forbidden
  end.

Definition served_of (response : Outcome Response) : Served :=
  match response with
  | Returned response => Responded response
  | Raised e => Failed e
  end.

(** [__call__], when the clock reads [now]. *)
Definition call (mw : Config) (env : Env) (t : TopazConfig) (scope : Scope) (now : Z)
  : Served * TopazConfig * list Event :=
  match prepare mw env t scope with
  | Served_ served events => (served, t, events)
  | ToCheck request identity policy_path resource_context path_params =>
      let '(checked, t', events) :=
        check_decision env t request policy_path "allowed" (or_none resource_context)
          "dependency" now in
      let allowed :=
        match checked with
        | Returned b => b
        | Raised _ => false
        end in
      let '(audit_raised, audited) :=
        audit_decision mw request policy_path allowed identity resource_context in
      match audit_raised with
      | Some e => (Failed e, t', map Check events ++ audited)
      | None =>
          if negb allowed then
            (served_of (denial mw request policy_path), t', map Check events ++ audited)
          else
            (Downstream (Some path_params), t', map Check events ++ audited)
      end
  end.

End WithEnv.
End Middleware.

(** ** Stand-ins to run the model on concrete inputs

    An injective stand-in for the digest, and a rendering of a list of
    items with plain string values in the manner of Python's [str]. *)
Module Sample.

Definition plain_digest (s : string) : string := s.

Definition str_item (kv : string * string) : string :=
  "('" +:+ fst kv +:+ "', '" +:+ snd kv +:+ "')".

Definition str_items (items : list (string * string)) : string :=
  "[" +:+ PyStr.join ", " (map str_item items) +:+ "]".

(** A matcher for patterns made of literal characters, [*] and [?]. *)
Fixpoint glob (pattern : string) (s : string) : bool :=
  match pattern with
  | EmptyString => PyStr.is_empty s
  | String "*" pattern' =>
      (fix star (s : string) : bool :=
         glob pattern' s
         || match s with
            | EmptyString => false
            | String _ s' => star s'
            end) s
  | String "?" pattern' =>
      match s with
      | EmptyString => false
      | String _ s' => glob pattern' s'
      end
  | String c pattern' =>
      match s with
      | EmptyString => false
      | String a s' => Ascii.eqb a c && glob pattern' s'
      end
  end.

Definition fnmatch (name pattern : string) : bool := glob pattern name.

End Sample.

(* ===================================================================== *)
(** * Part II. Properties                                                 *)
(* ===================================================================== *)

Module PolicyPathFacts.
Import PyStr PolicyPath.

Example heuristic_docstring_examples :
  _policy_path_heuristic "/" = ""
  /\ _policy_path_heuristic "/documents" = ".documents"
  /\ _policy_path_heuristic "/documents/{id}" = ".documents.__id"
  /\ _policy_path_heuristic "/users/{user_id}/docs/{doc_id}"
     = ".users.__user_id.docs.__doc_id".
Proof. repeat split; reflexivity. Qed.

(** *** String lemmas behind the placeholder test *)

Lemma endswith_snoc (c : ascii) (s : string) :
  endswith c (s +:+ String c "") = true.
Proof.
  induction s as [|a s IH]; simpl.
  - apply Ascii.eqb_refl.
  - destruct (s +:+ String c "") eqn:E; [destruct s; discriminate | exact IH].
Qed.

Lemma drop_last_snoc (c : ascii) (s : string) :
  drop_last (s +:+ String c "") = s.
Proof.
  induction s as [|a s IH]; simpl; [reflexivity|].
  destruct (s +:+ String c "") eqn:E; [destruct s; discriminate|].
  now rewrite IH.
Qed.

Lemma endswith_inv (c : ascii) (s : string) :
  endswith c s = true -> s = drop_last s +:+ String c "".
Proof.
  induction s as [|a s IH]; [discriminate|].
  destruct s as [|b s'].
  - simpl. intros H. apply Ascii.eqb_eq in H. now subst.
  - intros H.
    change (drop_last (String a (String b s')))
      with (String a (drop_last (String b s'))).
    change (String a (String b s') = String a (drop_last (String b s') +:+ String c "")).
    f_equal. apply IH, H.
Qed.

Lemma placeholder_name_intro (name : string) :
  placeholder_name ("{" +:+ name +:+ "}") = Some name.
Proof.
  change ("{" +:+ name +:+ "}") with (String "{" (name +:+ String "}" "")).
  unfold placeholder_name. now rewrite endswith_snoc, drop_last_snoc.
Qed.

Lemma placeholder_name_inv (segment name : string) :
  placeholder_name segment = Some name -> segment = "{" +:+ name +:+ "}".
Proof.
  unfold placeholder_name.
  destruct segment as [|a rest]; [discriminate|].
  destruct (Ascii.eqb a "{") eqn:Ea.
  - apply Ascii.eqb_eq in Ea. subst a.
    destruct (endswith "}" rest) eqn:Ee; [|discriminate].
    intros [= <-]. simpl. f_equal. now apply endswith_inv.
  - intros H. exfalso. revert H. apply Ascii.eqb_neq in Ea.
    destruct a as [[] [] [] [] [] [] [] []]; try discriminate. now destruct Ea.
Qed.

(** The test of the loop, [startswith("{") and endswith("}")], recognises
    exactly the segments of the shape [{name}], and [segment[1:-1]] is the name. *)
Lemma loop_test_placeholder (segment : string) :
  placeholder_name segment =
    if startswith "{" segment && endswith "}" segment
    then Some (slice_1_m1 segment) else None.
Proof.
  destruct segment as [|a rest]; [reflexivity|].
  unfold placeholder_name, startswith, slice_1_m1.
  destruct (Ascii.eqb a "{") eqn:Ea.
  - apply Ascii.eqb_eq in Ea. subst a. simpl.
    destruct rest; reflexivity.
  - simpl. destruct a as [[] [] [] [] [] [] [] []]; try reflexivity. discriminate.
Qed.

Lemma loop_body_emit (acc : list string) (segment : string) :
  loop_body acc segment =
    if is_empty segment then acc else acc ++ [emit segment].
Proof.
  unfold loop_body, emit. rewrite loop_test_placeholder.
  destruct (is_empty segment); [reflexivity|].
  now destruct (startswith "{" segment && endswith "}" segment).
Qed.

Lemma loop_emits_nonempty (segments acc : list string) :
  fold_left loop_body segments acc =
    acc ++ map emit (List.filter nonempty segments).
Proof.
  revert acc. induction segments as [|seg segs IH]; intros acc; simpl.
  - now rewrite app_nil_r.
  - rewrite IH, loop_body_emit. unfold nonempty at 2.
    destruct (is_empty seg) eqn:E; simpl; [reflexivity|].
    now rewrite <- app_assoc.
Qed.

Lemma emit_nonempty (segment : string) :
  is_empty segment = false -> is_empty (emit segment) = false.
Proof.
  unfold emit. now destruct (placeholder_name segment).
Qed.

Lemma join_nonempty (p : string) (ps : list string) :
  is_empty p = false -> is_empty (join "." (p :: ps)) = false.
Proof.
  destruct p; [discriminate|]. intros _. simpl. now destruct ps.
Qed.

Lemma strip_root (path : string) :
  is_empty path || String.eqb path "/" = true ->
  split "/" (strip "/" path) = [""].
Proof.
  destruct path as [|a p]; [reflexivity|].
  change (is_empty (String a p)) with false. rewrite orb_false_l.
  intros H. apply String.eqb_eq in H. now rewrite H.
Qed.

Lemma emitted_nonempty (segments : list string) :
  Forall (fun p => is_empty p = false) (map emit (List.filter nonempty segments)).
Proof.
  induction segments as [|seg segs IH]; simpl; [constructor|].
  unfold nonempty at 1. destruct (is_empty seg) eqn:Es; simpl; [exact IH|].
  constructor; [now apply emit_nonempty | exact IH].
Qed.

Lemma dot_prefixed_parts (parts : list string) :
  Forall (fun p => is_empty p = false) parts ->
  match parts with [] => "" | _ => "." +:+ join "." parts end
  = dot_prefixed (join "." parts).
Proof.
  intros H. destruct H as [|p ps Hp _]; [reflexivity|].
  unfold dot_prefixed. now rewrite (join_nonempty _ _ Hp).
Qed.

Lemma resolve_policy_path_nonempty (root method pattern : string) :
  _resolve_policy_path root method pattern
  = spec_resolvePolicyPath_nonempty root method pattern.
Proof.
  unfold _resolve_policy_path, spec_resolvePolicyPath_nonempty, _policy_path_heuristic.
  do 3 f_equal.
  destruct (is_empty pattern || String.eqb pattern "/") eqn:E.
  - now rewrite (strip_root _ E).
  - cbv zeta. rewrite loop_emits_nonempty. rewrite app_nil_l.
    apply dot_prefixed_parts, emitted_nonempty.
Qed.

(** C5, as the code has it: the resolver strips the slashes around the
    pattern, splits on '/', leaves out the empty segments, emits [__name]
    for a segment [{name}] and any other segment unchanged, joins with '.',
    prefixes a '.' when something was emitted, and returns
    [root.METHOD] followed by that suffix; a root pattern ('/' or empty)
    gives exactly [root.METHOD]; the two examples of the specification hold. *)
Theorem resolve_policy_path_algorithm :
  (forall root method pattern,
      _resolve_policy_path root method pattern
      = spec_resolvePolicyPath_nonempty root method pattern)
  /\ (forall name, emit ("{" +:+ name +:+ "}") = "__" +:+ name)
  /\ (forall segment,
        emit segment = segment
        \/ exists name, segment = "{" +:+ name +:+ "}" /\ emit segment = "__" +:+ name)
  /\ (forall root method,
        _resolve_policy_path root method "/" = root +:+ "." +:+ method
        /\ _resolve_policy_path root method "" = root +:+ "." +:+ method)
  /\ _resolve_policy_path "myapp" "GET" "/documents/{id}" = "myapp.GET.documents.__id"
  /\ _resolve_policy_path "myapp" "GET" "/" = "myapp.GET".
Proof.
  split; [exact resolve_policy_path_nonempty|].
  split; [intros name; unfold emit; now rewrite placeholder_name_intro|].
  split.
  { intros segment. unfold emit.
    destruct (placeholder_name segment) as [name|] eqn:E; [right | now left].
    exists name. split; [now apply placeholder_name_inv | reflexivity]. }
  split.
  { intros root method. unfold _resolve_policy_path.
    change (_policy_path_heuristic "/") with "".
    change (_policy_path_heuristic "") with "".
    assert (H : forall s : string, s +:+ "" = s).
    { intros s. induction s as [|a s IH]; [reflexivity|].
      change (String a s +:+ "") with (String a (s +:+ "")). now rewrite IH. }
    now rewrite H. }
  split; reflexivity.
Qed.

(** C5 as written fails on a pattern with two consecutive slashes: emitting
    every segment of the split gives [a..b], the code skips the empty one. *)
Lemma resolve_policy_path_double_slash :
  _resolve_policy_path "myapp" "GET" "/a//b" = "myapp.GET.a.b"
  /\ spec_resolvePolicyPath "myapp" "GET" "/a//b" = "myapp.GET.a..b"
  /\ _resolve_policy_path "myapp" "GET" "/a//b"
     <> spec_resolvePolicyPath "myapp" "GET" "/a//b".
Proof. repeat split; try reflexivity. discriminate. Qed.

(** *** Slashes around and inside a pattern *)

Lemma split_not_nil (c : ascii) (s : string) : split c s <> [].
Proof.
  induction s as [|a s IH]; simpl; [discriminate|].
  destruct (Ascii.eqb a c); [discriminate|].
  destruct (split c s); [now destruct IH | discriminate].
Qed.

Lemma filter_nonempty_blanks (l : list string) (k : nat) :
  List.filter nonempty (l ++ repeat "" k) = List.filter nonempty l.
Proof.
  rewrite List.filter_app.
  assert (H : List.filter nonempty (repeat "" k) = []) by (induction k; simpl; auto).
  rewrite H. apply app_nil_r.
Qed.

Lemma split_lstrip (c : ascii) (s : string) :
  List.filter nonempty (split c (lstrip c s)) = List.filter nonempty (split c s).
Proof.
  induction s as [|a s IH]; [reflexivity|]. simpl.
  destruct (Ascii.eqb a c) eqn:E; [exact IH|].
  simpl. now rewrite E.
Qed.

(** Stripping on the right removes trailing empty pieces only. *)
Lemma split_rstrip (c : ascii) (s : string) :
  exists k, split c s = split c (rstrip c s) ++ repeat "" k.
Proof.
  induction s as [|a s [k IH]]; [exists 0%nat; reflexivity|]. simpl.
  destruct (Ascii.eqb a c) eqn:E; simpl.
  - destruct (is_empty (rstrip c s)) eqn:Er.
    + exists (S k). rewrite IH.
      destruct (rstrip c s); [reflexivity | discriminate].
    + exists k. simpl. now rewrite E, IH.
  - exists k. simpl. rewrite E, IH.
    destruct (split c (rstrip c s)) as [|w ws] eqn:Es; [|reflexivity].
    now destruct (split_not_nil c (rstrip c s)).
Qed.

Lemma split_strip (c : ascii) (s : string) :
  List.filter nonempty (split c (strip c s)) = List.filter nonempty (split c s).
Proof.
  unfold strip. destruct (split_rstrip c (lstrip c s)) as [k Hk].
  rewrite <- (split_lstrip c s), Hk. now rewrite filter_nonempty_blanks.
Qed.

Lemma split_snoc (c : ascii) (s : string) :
  split c (s +:+ String c "") = split c s ++ [""].
Proof.
  induction s as [|a s IH].
  - simpl. now rewrite Ascii.eqb_refl.
  - change (String a s +:+ String c "") with (String a (s +:+ String c "")).
    simpl. rewrite IH. destruct (Ascii.eqb a c); [reflexivity|].
    destruct (split c s) as [|w ws] eqn:Es; [|reflexivity].
    now destruct (split_not_nil c s).
Qed.

(** The policy path depends on the segments of the pattern that are not
    empty, and on nothing else: stripping the pattern before the split is
    redundant, and a slash added in front of a pattern or after it changes
    nothing ([/documents] and [/documents/] are one policy). *)
Theorem policy_path_ignores_outer_slashes (root method : string) :
  (forall path,
      _resolve_policy_path root method path
      = root +:+ "." +:+ method
          +:+ dot_prefixed
                (join "." (map emit (List.filter nonempty (split "/" path)))))
  /\ (forall path,
        _resolve_policy_path root method ("/" +:+ path)
        = _resolve_policy_path root method path)
  /\ (forall path,
        _resolve_policy_path root method (path +:+ "/")
        = _resolve_policy_path root method path).
Proof.
  assert (Hseg : forall path,
             _resolve_policy_path root method path
             = root +:+ "." +:+ method
                 +:+ dot_prefixed
                       (join "." (map emit (List.filter nonempty (split "/" path))))).
  { intros path. rewrite resolve_policy_path_nonempty.
    unfold spec_resolvePolicyPath_nonempty. cbv zeta. now rewrite split_strip. }
  split_and!; [exact Hseg | |]; intros path; rewrite !Hseg.
  - reflexivity.
  - rewrite split_snoc, List.filter_app. simpl. now rewrite app_nil_r.
Qed.

End PolicyPathFacts.

Module PyDictFacts.
Import PyDict.
Section Dict.
Context {V : Type}.
Implicit Types (d : list (string * V)) (k : string) (v : V).

Lemma get_set_same k v d : get k (set k v d) = Some v.
Proof.
  induction d as [|[k' v'] d IH]; simpl.
  - now rewrite String.eqb_refl.
  - destruct (String.eqb k' k) eqn:E; simpl; now rewrite E.
Qed.

Lemma get_set_other k k' v d : k <> k' -> get k' (set k v d) = get k' d.
Proof.
  intros Hne. induction d as [|[k0 v0] d IH]; simpl.
  - apply String.eqb_neq in Hne. now rewrite Hne.
  - destruct (String.eqb k0 k) eqn:E; simpl.
    + apply String.eqb_eq in E. subst k0.
      apply String.eqb_neq in Hne. now rewrite Hne.
    + now rewrite IH.
Qed.

Lemma get_del_same k d : get k (del k d) = None.
Proof.
  unfold del. induction d as [|[k' v'] d IH]; simpl; [reflexivity|].
  destruct (String.eqb k' k) eqn:E; simpl; [exact IH | now rewrite E].
Qed.

Lemma get_del_other k k' d : k <> k' -> get k' (del k d) = get k' d.
Proof.
  intros Hne. unfold del. induction d as [|[k0 v0] d IH]; simpl; [reflexivity|].
  destruct (String.eqb k0 k) eqn:E; simpl.
  - apply String.eqb_eq in E. subst k0.
    apply String.eqb_neq in Hne. now rewrite Hne.
  - now rewrite IH.
Qed.

Lemma get_del_none k k' d : get k' d = None -> get k' (del k d) = None.
Proof.
  unfold del. induction d as [|[k0 v0] d IH]; simpl; [reflexivity|].
  destruct (String.eqb k0 k') eqn:E; [discriminate|].
  intros H. destruct (String.eqb k0 k); simpl; [now apply IH|].
  rewrite E. now apply IH.
Qed.

Lemma get_del_all_none ks k' d : get k' d = None -> get k' (del_all ks d) = None.
Proof.
  unfold del_all. revert d. induction ks as [|k ks IH]; intros d H; simpl; [exact H|].
  apply IH. now apply get_del_none.
Qed.

Lemma length_del_le k d : (length (del k d) <= length d)%nat.
Proof. unfold del. apply List.filter_length_le. Qed.

Lemma length_del_all_le ks d : (length (del_all ks d) <= length d)%nat.
Proof.
  unfold del_all. revert d. induction ks as [|k ks IH]; intros d; simpl; [lia|].
  etransitivity; [apply IH | apply length_del_le].
Qed.

Lemma length_del_head k v d : (length (del k ((k, v) :: d)) <= length d)%nat.
Proof.
  unfold del. simpl. rewrite String.eqb_refl. simpl. apply List.filter_length_le.
Qed.

Lemma In_get k v d : NoDup (keys d) -> In (k, v) d -> get k d = Some v.
Proof.
  induction d as [|[k' v'] d IH]; simpl; [tauto|].
  intros Hnd. apply NoDup_cons in Hnd as [Hk' Hnd].
  intros [[= -> ->]|Hin]; [now rewrite String.eqb_refl|].
  destruct (String.eqb k' k) eqn:E; [|now apply IH].
  apply String.eqb_eq in E. subst k'. destruct Hk'.
  apply list_elem_of_In. unfold keys. apply List.in_map_iff. now exists (k, v).
Qed.

Lemma length_del_lt k d : In k (keys d) -> (length (del k d) < length d)%nat.
Proof.
  unfold del. induction d as [|[k' v'] d IH]; simpl; [tauto|].
  destruct (String.eqb k' k) eqn:E; simpl.
  - intros _. pose proof (List.filter_length_le
                            (fun kv : string * V => negb (String.eqb (fst kv) k)) d). lia.
  - apply String.eqb_neq in E. intros [Hk|Hin]; [congruence|].
    specialize (IH Hin). lia.
Qed.

Lemma get_del_all_in ks k d : In k ks -> get k (del_all ks d) = None.
Proof.
  unfold del_all. revert d. induction ks as [|k0 ks IH]; intros d; simpl; [tauto|].
  intros [->|Hin]; [|now apply IH].
  apply (get_del_all_none ks k (del k d)), get_del_same.
Qed.

Lemma get_del_all_other ks k d : ~ In k ks -> get k (del_all ks d) = get k d.
Proof.
  unfold del_all. revert d. induction ks as [|k0 ks IH]; intros d Hk; simpl; [reflexivity|].
  simpl in Hk. rewrite IH by tauto. apply get_del_other. tauto.
Qed.

Lemma length_set_le k v d : (length (set k v d) <= S (length d))%nat.
Proof.
  induction d as [|[k' v'] d IH]; simpl; [lia|].
  destruct (String.eqb k' k); simpl; lia.
Qed.

Lemma length_set_present k v d :
  get k d <> None -> length (set k v d) = length d.
Proof.
  induction d as [|[k' v'] d IH]; simpl; [congruence|].
  destruct (String.eqb k' k); simpl; [reflexivity|].
  intros H. now rewrite IH.
Qed.

Lemma length_set_absent k v d :
  get k d = None -> length (set k v d) = S (length d).
Proof.
  induction d as [|[k' v'] d IH]; simpl; [reflexivity|].
  destruct (String.eqb k' k); simpl; [discriminate|].
  intros H. now rewrite IH.
Qed.

(** *** Keys *)

Lemma get_none_keys k d : get k d = None <-> ~ In k (keys d).
Proof.
  induction d as [|[k' v'] d IH]; simpl; [tauto|].
  destruct (String.eqb k' k) eqn:E.
  - apply String.eqb_eq in E. split; [discriminate | intros H; destruct H; now left].
  - apply String.eqb_neq in E. rewrite IH. tauto.
Qed.

Lemma get_some_keys k d : (exists v, get k d = Some v) <-> In k (keys d).
Proof.
  induction d as [|[k' v'] d IH]; simpl.
  - split; [intros [v H]; discriminate | tauto].
  - destruct (String.eqb k' k) eqn:E.
    + apply String.eqb_eq in E. split; [now left | intros _; now exists v'].
    + apply String.eqb_neq in E. rewrite IH. tauto.
Qed.

Lemma keys_set k v d :
  keys (set k v d) = match get k d with Some _ => keys d | None => keys d ++ [k] end.
Proof.
  induction d as [|[k' v'] d IH]; simpl; [reflexivity|].
  destruct (String.eqb k' k); simpl; [reflexivity|].
  rewrite IH. now destruct (get k d).
Qed.

Lemma NoDup_keys_set k v d : NoDup (keys d) -> NoDup (keys (set k v d)).
Proof.
  intros H. rewrite keys_set. destruct (get k d) eqn:E; [exact H|].
  apply get_none_keys in E.
  apply NoDup_app. split_and!; [exact H | | apply NoDup_singleton].
  intros x Hx Hk. apply list_elem_of_singleton in Hk. subst x.
  now apply list_elem_of_In in Hx.
Qed.

Lemma NoDup_keys_del k d : NoDup (keys d) -> NoDup (keys (del k d)).
Proof.
  unfold del, keys. induction d as [|[k' v'] d IH]; simpl; [auto|].
  intros H. apply NoDup_cons in H as [Hk' H].
  destruct (String.eqb k' k); simpl; [now apply IH|].
  apply NoDup_cons. split; [|now apply IH].
  intros Hin. apply Hk'.
  apply list_elem_of_In in Hin. apply list_elem_of_In.
  apply List.in_map_iff in Hin as [[k0 v0] [E Hin]].
  apply List.filter_In in Hin as [Hin _].
  apply List.in_map_iff. now exists (k0, v0).
Qed.

Lemma NoDup_keys_del_all ks d : NoDup (keys d) -> NoDup (keys (del_all ks d)).
Proof.
  unfold del_all. revert d. induction ks as [|k ks IH]; intros d H; simpl; [exact H|].
  apply IH. now apply NoDup_keys_del.
Qed.

(** *** [update] *)

Lemma get_app k d1 d2 :
  get k (d1 ++ d2) = match get k d1 with Some v => Some v | None => get k d2 end.
Proof.
  induction d1 as [|[k' v'] d1 IH]; simpl; [reflexivity|].
  now destruct (String.eqb k' k).
Qed.

(** The last item stored under a key wins, and a key that no item has
    keeps what the dictionary had. *)
Lemma get_update k d items :
  get k (update d items)
  = match get k (rev items) with Some v => Some v | None => get k d end.
Proof.
  unfold update. revert d. induction items as [|[k1 v1] items IH]; intros d; simpl.
  - reflexivity.
  - rewrite IH, get_app. destruct (get k (rev items)); [reflexivity|]. simpl.
    destruct (String.eqb k1 k) eqn:E.
    + apply String.eqb_eq in E. subst k1. apply get_set_same.
    + apply String.eqb_neq in E. now apply get_set_other.
Qed.

Lemma NoDup_keys_update d items : NoDup (keys d) -> NoDup (keys (update d items)).
Proof.
  unfold update. revert d. induction items as [|[k1 v1] items IH]; intros d H; simpl.
  - exact H.
  - apply IH. now apply NoDup_keys_set.
Qed.

Lemma get_In k v d : get k d = Some v -> In (k, v) d.
Proof.
  induction d as [|[k' v'] d IH]; simpl; [discriminate|].
  destruct (String.eqb k' k) eqn:E.
  - apply String.eqb_eq in E. intros [= ->]. left. now subst.
  - intros H. right. now apply IH.
Qed.

Lemma in_keys_update k d items :
  In k (keys (update d items)) <-> In k (keys d) \/ In k (map fst items).
Proof.
  rewrite <- !get_some_keys.
  assert (Hitems : In k (map fst items) <-> exists v, get k (rev items) = Some v).
  { rewrite get_some_keys. unfold keys. rewrite map_rev, <- List.in_rev. tauto. }
  rewrite Hitems. setoid_rewrite get_update.
  destruct (get k (rev items)) as [v|].
  - split; [intros _; right; now exists v | intros _; now exists v].
  - split; [intros H; now left | intros [H|[v H]]; [exact H | discriminate]].
Qed.

Lemma keys_update_fresh d items :
  NoDup (keys d ++ map fst items) -> keys (update d items) = keys d ++ map fst items.
Proof.
  unfold update. revert d. induction items as [|[k1 v1] items IH]; intros d H; simpl.
  - now rewrite app_nil_r.
  - assert (Hk1 : get k1 d = None).
    { apply get_none_keys. intros Hin. apply NoDup_app in H as (_ & Hdisj & _).
      apply (Hdisj k1); [now apply list_elem_of_In | apply list_elem_of_here]. }
    simpl in H. rewrite IH; rewrite keys_set, Hk1.
    + now rewrite <- app_assoc.
    + now rewrite <- app_assoc.
Qed.

Lemma length_update_le d items :
  (length (update d items) <= length d + length items)%nat.
Proof.
  unfold update. revert d. induction items as [|[k1 v1] items IH]; intros d; simpl; [lia|].
  specialize (IH (set k1 v1 d)). pose proof (length_set_le k1 v1 d). lia.
Qed.

End Dict.
End PyDictFacts.

Module CacheFacts.
Import Cache.

(** *** Cancellation for string concatenation *)

Lemma length_append (a b : string) :
  String.length (a +:+ b) = (String.length a + String.length b)%nat.
Proof. induction a as [|x a IH]; simpl; [reflexivity | now rewrite IH]. Qed.

Lemma append_inv_head (p a b : string) : p +:+ a = p +:+ b -> a = b.
Proof.
  induction p as [|x p IH]; simpl; [tauto|]. intros [= H]. now apply IH.
Qed.

Lemma append_inv_tail (t a b : string) : a +:+ t = b +:+ t -> a = b.
Proof.
  revert b. induction a as [|x a IH]; intros [|y b] H.
  - reflexivity.
  - change (t = String y (b +:+ t)) in H.
    apply (f_equal String.length) in H. simpl in H.
    rewrite (length_append b t) in H. lia.
  - change (String x (a +:+ t) = t) in H.
    apply (f_equal String.length) in H. simpl in H.
    rewrite (length_append a t) in H. lia.
  - change (String x (a +:+ t) = String y (b +:+ t)) in H.
    injection H as -> H. f_equal. now apply IH.
Qed.

Section Keys.
Context {Value : Type}.
Variable py_str : list (string * Value) -> string.
Variable sha256_hex32 : string -> string.

Local Abbreviation ctx_str := (Cache.ctx_str py_str).
Local Abbreviation key_data := (Cache.key_data py_str).
Local Abbreviation _make_key := (Cache._make_key py_str sha256_hex32).
Local Abbreviation get := (Cache.get py_str sha256_hex32).
Local Abbreviation set := (Cache.set py_str sha256_hex32).
Local Abbreviation do_set := (Cache.do_set py_str sha256_hex32).
Local Abbreviation run_sets := (Cache.run_sets py_str sha256_hex32).

Implicit Types (c : DecisionCache) (ctx : option (list (string * Value))).

(** Changing one field of the key changes the string that is hashed. *)
Lemma key_data_identity i i' p d ctx :
  key_data i' p d ctx = key_data i p d ctx -> i' = i.
Proof. unfold Cache.key_data. apply append_inv_tail. Qed.

Lemma key_data_policy_path i p p' d ctx :
  key_data i p' d ctx = key_data i p d ctx -> p' = p.
Proof.
  unfold Cache.key_data. intros H.
  apply append_inv_head, append_inv_head in H. now apply append_inv_tail in H.
Qed.

Lemma key_data_decision i p d d' ctx :
  key_data i p d' ctx = key_data i p d ctx -> d' = d.
Proof.
  unfold Cache.key_data. intros H.
  do 4 apply append_inv_head in H. now apply append_inv_tail in H.
Qed.

Lemma key_data_context i p d ctx ctx' :
  key_data i p d ctx' = key_data i p d ctx -> ctx_str ctx' = ctx_str ctx.
Proof.
  unfold Cache.key_data. intros H. now do 6 apply append_inv_head in H.
Qed.

(** *** What [set] and its eviction do to the table *)

Lemma evict_keeps_absent c now k :
  PyDict.get k (_cache c) = None -> PyDict.get k (evict c now) = None.
Proof.
  intros H. unfold evict.
  destruct (PyDict.len (_cache c) >=? max_size c)%Z; [|exact H].
  match goal with |- context [PyDict.del_all ?ks (_cache c)] =>
    assert (H1 : PyDict.get k (PyDict.del_all ks (_cache c)) = None)
      by now apply PyDictFacts.get_del_all_none end.
  destruct (PyDict.len _ >=? max_size c)%Z; [|exact H1].
  now apply PyDictFacts.get_del_all_none.
Qed.

Lemma set_lookup_same c i p d ctx v now now' :
  PyDict.get (_make_key i p d ctx) (_cache (set c i p d ctx v now now'))
  = Some {| value := v; expires_at := (now' + ttl_seconds c)%Z |}.
Proof. unfold Cache.set. simpl. apply PyDictFacts.get_set_same. Qed.

Lemma set_lookup_other c i p d ctx v now now' k :
  _make_key i p d ctx <> k ->
  PyDict.get k (_cache c) = None ->
  PyDict.get k (_cache (set c i p d ctx v now now')) = None.
Proof.
  intros Hne H. unfold Cache.set. simpl.
  rewrite PyDictFacts.get_set_other by exact Hne. now apply evict_keeps_absent.
Qed.

Lemma get_after_set_fresh c i p d ctx v now now' t :
  (t <= now' + ttl_seconds c)%Z ->
  get (set c i p d ctx v now now') i p d ctx t
  = (Some v, set c i p d ctx v now now').
Proof.
  intros Ht. unfold Cache.get. rewrite set_lookup_same. simpl.
  destruct (Z.gtb_spec t (now' + ttl_seconds c)); [lia | reflexivity].
Qed.

Lemma get_after_set_expired c i p d ctx v now now' t :
  (now' + ttl_seconds c < t)%Z ->
  exists c', get (set c i p d ctx v now now') i p d ctx t = (None, c')
             /\ PyDict.get (_make_key i p d ctx) (_cache c') = None.
Proof.
  intros Ht. unfold Cache.get. rewrite set_lookup_same. simpl.
  destruct (Z.gtb_spec t (now' + ttl_seconds c)); [|lia].
  eexists. split; [reflexivity|]. simpl. apply PyDictFacts.get_del_same.
Qed.

Lemma get_after_set_other c i p d ctx v now now' i' p' d' ctx' t :
  _make_key i p d ctx <> _make_key i' p' d' ctx' ->
  PyDict.get (_make_key i' p' d' ctx') (_cache c) = None ->
  fst (get (set c i p d ctx v now now') i' p' d' ctx' t) = None.
Proof.
  intros Hne H. unfold Cache.get.
  now rewrite (set_lookup_other _ _ _ _ _ _ _ _ _ Hne H).
Qed.

(** C8, as the code has it.  For every cache, key and value: a [get] with
    the same key fields that follows the [set] within the time-to-live
    returns the value; a [get] that differs in the identity, the policy path
    or the decision name alone, or in a context that renders differently,
    returns absent when the cache held nothing under that other key and the
    two key strings do not collide under the digest; with [ttl = 60] the
    value is returned at [t+59], and at [t+61] the [get] returns absent and
    removes the entry. *)
Theorem decision_cache_roundtrip c i p d ctx v now now' :
  (forall t, (t <= now' + ttl_seconds c)%Z ->
     fst (get (set c i p d ctx v now now') i p d ctx t) = Some v)
  /\ (forall i' p' d' ctx' t,
        (i' <> i /\ p' = p /\ d' = d /\ ctx' = ctx)
        \/ (i' = i /\ p' <> p /\ d' = d /\ ctx' = ctx)
        \/ (i' = i /\ p' = p /\ d' <> d /\ ctx' = ctx)
        \/ (i' = i /\ p' = p /\ d' = d /\ ctx_str ctx' <> ctx_str ctx) ->
        (sha256_hex32 (key_data i' p' d' ctx') = sha256_hex32 (key_data i p d ctx) ->
         key_data i' p' d' ctx' = key_data i p d ctx) ->
        PyDict.get (_make_key i' p' d' ctx') (_cache c) = None ->
        fst (get (set c i p d ctx v now now') i' p' d' ctx' t) = None)
  /\ (ttl_seconds c = 60%Z ->
        fst (get (set c i p d ctx v now now') i p d ctx (now' + 59)) = Some v
        /\ exists c',
            get (set c i p d ctx v now now') i p d ctx (now' + 61) = (None, c')
            /\ PyDict.get (_make_key i p d ctx) (_cache c') = None).
Proof.
  split; [|split].
  - intros t Ht. now rewrite get_after_set_fresh.
  - intros i' p' d' ctx' t Hdiff Hcoll Habsent.
    apply get_after_set_other; [|exact Habsent].
    unfold Cache._make_key. intros Heq. symmetry in Heq. apply Hcoll in Heq.
    destruct Hdiff as [(Hn & -> & -> & ->) | [(-> & Hn & -> & ->)
                      | [(-> & -> & Hn & ->) | (-> & -> & -> & Hn)]]].
    + now apply key_data_identity in Heq.
    + now apply key_data_policy_path in Heq.
    + now apply key_data_decision in Heq.
    + now apply key_data_context in Heq.
  - intros Httl. split.
    + rewrite get_after_set_fresh by lia. reflexivity.
    + apply get_after_set_expired. lia.
Qed.

(** *** The size of the table *)

Lemma evict_makes_room c now :
  (10 <= max_size c)%Z ->
  (PyDict.len (_cache c) <= max_size c)%Z ->
  (PyDict.len (evict c now) < max_size c)%Z.
Proof.
  intros Hten Hlen. unfold evict.
  destruct (Z.geb_spec (PyDict.len (_cache c)) (max_size c)) as [Hfull|]; [|lia].
  set (cache1 := PyDict.del_all _ (_cache c)).
  assert (H1 : (PyDict.len cache1 <= PyDict.len (_cache c))%Z).
  { unfold PyDict.len. apply inj_le, PyDictFacts.length_del_all_le. }
  destruct (Z.geb_spec (PyDict.len cache1) (max_size c)) as [Hfull1|]; [|lia].
  unfold PyDict.slice_to.
  assert (Hq : (1 <= max_size c / 10)%Z) by (apply Z.div_le_lower_bound; lia).
  destruct (Z.leb_spec 0 (max_size c / 10)); [|lia].
  destruct cache1 as [|[k e] rest] eqn:E; [unfold PyDict.len in Hfull1; simpl in Hfull1; lia|].
  destruct (Z.to_nat (max_size c / 10)) as [|n] eqn:En; [lia|].
  change (PyDict.del_all (firstn (S n) (PyDict.keys ((k, e) :: rest))) ((k, e) :: rest))
    with (PyDict.del_all (firstn n (PyDict.keys rest)) (PyDict.del k ((k, e) :: rest))).
  pose proof (PyDictFacts.length_del_all_le (firstn n (PyDict.keys rest))
                (PyDict.del k ((k, e) :: rest))) as H2.
  pose proof (PyDictFacts.length_del_head k e rest) as H3.
  unfold PyDict.len in *. simpl length in H1, Hfull1. lia.
Qed.

Lemma set_keeps_bound c i p d ctx v now now' :
  (10 <= max_size c)%Z ->
  (PyDict.len (_cache c) <= max_size c)%Z ->
  (PyDict.len (_cache (set c i p d ctx v now now')) <= max_size c)%Z.
Proof.
  intros Hten Hlen. unfold Cache.set. simpl.
  pose proof (evict_makes_room c now Hten Hlen) as H.
  match goal with |- context [PyDict.set ?k ?e ?t] =>
    pose proof (PyDictFacts.length_set_le k e t) as H' end.
  unfold PyDict.len in *. lia.
Qed.

(** From ten entries up the bound holds for every run of [set] calls. *)
Lemma run_sets_bounded calls c :
  (10 <= max_size c)%Z ->
  (PyDict.len (_cache c) <= max_size c)%Z ->
  max_size (run_sets calls c) = max_size c
  /\ (PyDict.len (_cache (run_sets calls c)) <= max_size c)%Z.
Proof.
  revert c. unfold Cache.run_sets.
  induction calls as [|call calls IH]; intros c Hten Hlen; simpl; [now split|].
  assert (Hstep : (PyDict.len (_cache (do_set c call)) <= max_size (do_set c call))%Z).
  { change (max_size (do_set c call)) with (max_size c).
    unfold Cache.do_set. now apply set_keeps_bound. }
  destruct (IH (do_set c call) Hten Hstep) as [Hm Hl].
  split; [exact Hm | exact Hl].
Qed.

(** *** The cache under runs of all its operations *)

Local Abbreviation step := (Cache.step py_str sha256_hex32).
Local Abbreviation run := (Cache.run py_str sha256_hex32).

Lemma get_keeps_settings c i p d ctx now :
  max_size (snd (get c i p d ctx now)) = max_size c
  /\ ttl_seconds (snd (get c i p d ctx now)) = ttl_seconds c
  /\ (PyDict.len (_cache (snd (get c i p d ctx now))) <= PyDict.len (_cache c))%Z.
Proof.
  unfold Cache.get.
  destruct (PyDict.get (_make_key i p d ctx) (_cache c)) as [entry|]; simpl; [|lia].
  destruct (now >? expires_at entry)%Z; simpl; [|lia].
  split_and!; try reflexivity. unfold PyDict.len.
  pose proof (PyDictFacts.length_del_le (_make_key i p d ctx) (_cache c)). lia.
Qed.

Lemma step_keeps_bound c op :
  (10 <= max_size c)%Z ->
  (PyDict.len (_cache c) <= max_size c)%Z ->
  max_size (step c op) = max_size c
  /\ (PyDict.len (_cache (step c op)) <= max_size c)%Z.
Proof.
  intros Hten Hlen. destruct op as [i p d ctx now|call|]; simpl.
  - destruct (get_keeps_settings c i p d ctx now) as (Hm & _ & Hl). split; [exact Hm | lia].
  - split; [reflexivity|]. now apply set_keeps_bound.
  - split; [reflexivity|]. unfold PyDict.len. simpl. lia.
Qed.

(** The bound of the cache, where it holds: with [max_size] at least ten,
    a cache that starts empty never holds more than [max_size] entries,
    whatever [get], [set] and [clear] calls are made and whenever. *)
Theorem decision_cache_bounded_from_ten (ttl size : Z) (ops : list (@Cache.Op Value)) :
  (10 <= size)%Z ->
  (PyDict.len (_cache (run ops (empty ttl size))) <= size)%Z
  /\ max_size (run ops (empty ttl size)) = size.
Proof.
  intros Hten.
  assert (H : forall c,
             max_size c = size -> (PyDict.len (_cache c) <= size)%Z ->
             (PyDict.len (_cache (run ops c)) <= size)%Z /\ max_size (run ops c) = size).
  { unfold Cache.run. induction ops as [|op ops IH]; intros c Hm Hl; simpl; [now split|].
    destruct (step_keeps_bound c op) as [Hm' Hl']; [lia | lia |].
    apply IH; [congruence | now rewrite Hm in Hl']. }
  apply H; [reflexivity|]. unfold PyDict.len. simpl. lia.
Qed.

(** What a lookup does to the table: a hit leaves it as it is; a miss
    leaves no entry under the key looked up; the entries under all other keys
    stay.  An entry is served up to and including the moment it expires. *)
Theorem get_removes_only_its_expired_entry c i p d ctx now :
  let key := _make_key i p d ctx in
  let c' := snd (get c i p d ctx now) in
  (forall v, fst (get c i p d ctx now) = Some v -> c' = c)
  /\ (fst (get c i p d ctx now) = None -> PyDict.get key (_cache c') = None)
  /\ (forall k, k <> key -> PyDict.get k (_cache c') = PyDict.get k (_cache c))
  /\ (forall entry,
        PyDict.get key (_cache c) = Some entry ->
        fst (get c i p d ctx now)
        = if (now <=? expires_at entry)%Z then Some (value entry) else None).
Proof.
  cbv zeta. unfold Cache.get.
  destruct (PyDict.get (_make_key i p d ctx) (_cache c)) as [entry|] eqn:E.
  - destruct (now >? expires_at entry)%Z eqn:Hexp; simpl; split_and!.
    + discriminate.
    + intros _. apply PyDictFacts.get_del_same.
    + intros k Hk. apply PyDictFacts.get_del_other. congruence.
    + intros entry' [= <-].
      destruct (now <=? expires_at entry)%Z eqn:Hle; [lia | reflexivity].
    + reflexivity.
    + discriminate.
    + reflexivity.
    + intros entry' [= <-].
      destruct (now <=? expires_at entry)%Z eqn:Hle; [reflexivity | lia].
  - simpl. split_and!; [discriminate | intros _; exact E | reflexivity | discriminate].
Qed.

End Keys.

(** C8 as written fails for the context field: an absent context and an
    empty one are different arguments and give the same key. *)
Lemma decision_cache_absent_and_empty_context :
  (forall (py_str : list (string * string) -> string) (sha256_hex32 : string -> string),
      fst (get py_str sha256_hex32
             (set py_str sha256_hex32 (empty 60 1000)
                "user-1" "policy.path" "allowed" None true 1000 1000)
             "user-1" "policy.path" "allowed" (Some []) 1000)
      = Some true)
  /\ @None (list (string * string)) <> Some [].
Proof.
  split; [|discriminate].
  intros py_str sha. unfold get, set, _make_key, key_data, ctx_str. simpl.
  now rewrite String.eqb_refl.
Qed.

Lemma decision_cache_roundtrip_witness :
  fst (get Sample.str_items Sample.plain_digest
         (set Sample.str_items Sample.plain_digest (empty 60 1000)
            "user-1" "policy.path" "allowed" None true 1000 1000)
         "user-1" "policy.path" "allowed" None 1000) = Some true
  /\ fst (get Sample.str_items Sample.plain_digest
         (set Sample.str_items Sample.plain_digest (empty 60 1000)
            "user-1" "policy.path" "allowed" None true 1000 1000)
         "user-1" "policy.path" "allowed" (Some [("extra", "data")]) 1000) = None
  /\ fst (get Sample.str_items Sample.plain_digest
         (set Sample.str_items Sample.plain_digest (empty 60 1000)
            "user-1" "policy.path" "allowed" None true 1000 1000)
         "user-1" "policy.path" "allowed" None 1059) = Some true.
Proof.
  pose proof (decision_cache_roundtrip Sample.str_items Sample.plain_digest
                (empty 60 1000) "user-1" "policy.path" "allowed" None true 1000 1000)
    as (Hsame & Hother & Httl).
  split; [apply Hsame; simpl; lia|].
  split; [|apply Httl; reflexivity].
  apply Hother.
  - right. right. right. repeat split. discriminate.
  - unfold Sample.plain_digest. tauto.
  - reflexivity.
Defined.

(** C10 at a small [max_size]: the tenth of the table that [set] removes
    when it is full is [max_size // 10], which is no entry at all below ten,
    so seven calls with distinct keys leave seven entries in a cache of
    five. *)
Lemma decision_cache_exceeds_small_max_size :
  let call (identity : string) : SetCall :=
    {| sc_identity := identity; sc_policy_path := "policy.path";
       sc_decision := "allowed"; sc_context := @None (list (string * string));
       sc_value := true; sc_now := 1000; sc_now' := 1000 |} in
  let calls := map call ["user-0"; "user-1"; "user-2"; "user-3"; "user-4";
                          "user-5"; "user-6"] in
  PyDict.len (_cache (run_sets Sample.str_items Sample.plain_digest calls (empty 60 5)))
  = 7%Z
  /\ max_size (run_sets Sample.str_items Sample.plain_digest calls (empty 60 5)) = 5%Z.
Proof. split; vm_compute; reflexivity. Qed.

(** Twelve entries set in a cache of ten. *)
Lemma decision_cache_bounded_from_ten_witness :
  let call (identity : string) : @Op string :=
    OpSet {| sc_identity := identity; sc_policy_path := "policy.path";
             sc_decision := "allowed"; sc_context := None;
             sc_value := true; sc_now := 1000; sc_now' := 1000 |} in
  let ops := map call ["user-0"; "user-1"; "user-2"; "user-3"; "user-4"; "user-5";
                        "user-6"; "user-7"; "user-8"; "user-9"; "user-10"; "user-11"] in
  (PyDict.len (_cache (run Sample.str_items Sample.plain_digest ops (empty 60 10))) <= 10)%Z
  /\ max_size (run Sample.str_items Sample.plain_digest ops (empty 60 10)) = 10%Z.
Proof.
  intros call ops.
  apply (decision_cache_bounded_from_ten Sample.str_items Sample.plain_digest 60 10 ops).
  lia.
Defined.

End CacheFacts.

Module BreakerFacts.
Import PyExc Breaker.

Section StateMachine.
Context {Request Value : Type}.
Variable cfg : @Config Request Value.

Local Abbreviation reachable := (Breaker.reachable cfg).

Lemma run_app ops1 ops2 s :
  run cfg (ops1 ++ ops2) s = run cfg ops2 (run cfg ops1 s).
Proof. revert s. induction ops1 as [|op ops1 IH]; intros s; simpl; [reflexivity | apply IH]. Qed.

(** *** Closed: the failure streak *)

Lemma record_failure_below now e s :
  _state s = CLOSED ->
  (_failure_count s + 1 < failure_threshold cfg)%Z ->
  _state (record_failure cfg now e s) = CLOSED
  /\ _failure_count (record_failure cfg now e s) = (_failure_count s + 1)%Z.
Proof.
  intros Hs Hlt. unfold record_failure. simpl. rewrite Hs.
  destruct (Z.geb_spec (_failure_count s + 1) (failure_threshold cfg)); [lia|].
  simpl. now split.
Qed.

Lemma record_failure_trips now e s :
  _state s = CLOSED ->
  (failure_threshold cfg <= _failure_count s + 1)%Z ->
  _state (record_failure cfg now e s) = OPEN
  /\ _open_since (record_failure cfg now e s) = Some now
  /\ _half_open_requests (record_failure cfg now e s) = 0%Z.
Proof.
  intros Hs Hge. unfold record_failure. simpl. rewrite Hs.
  destruct (Z.geb_spec (_failure_count s + 1) (failure_threshold cfg)); [|lia].
  unfold _transition_to. simpl. rewrite ?Hs. simpl. now repeat split.
Qed.

Lemma failures_below fs s :
  _state s = CLOSED ->
  (_failure_count s + Z.of_nat (length fs) < failure_threshold cfg)%Z ->
  _state (run cfg (failures fs) s) = CLOSED
  /\ _failure_count (run cfg (failures fs) s)
     = (_failure_count s + Z.of_nat (length fs))%Z.
Proof.
  revert s. induction fs as [|[now e] fs IH]; intros s Hs Hlt.
  - simpl. split; [exact Hs | lia].
  - simpl length in Hlt. simpl.
    destruct (record_failure_below now e s Hs) as [Hs' Hc']; [lia|].
    destruct (IH (record_failure cfg now e s) Hs') as [H1 H2]; [lia|].
    split; [exact H1|]. rewrite H2, Hc'. simpl length. lia.
Qed.

Lemma failures_trip fs s :
  _state s = CLOSED ->
  (_failure_count s < failure_threshold cfg)%Z ->
  (_failure_count s + Z.of_nat (length fs) = failure_threshold cfg)%Z ->
  _state (run cfg (failures fs) s) = OPEN.
Proof.
  intros Hs Hlt Hlen.
  destruct (exists_last (l := fs)) as (fs' & [now e] & ->).
  { intros ->. simpl in Hlen. lia. }
  rewrite length_app in Hlen. simpl in Hlen.
  unfold failures. rewrite map_app, run_app. fold (failures fs'). simpl.
  destruct (failures_below fs' s Hs) as [H1 H2]; [lia|].
  apply record_failure_trips; [exact H1 | lia].
Qed.

Lemma record_success_resets_streak now s :
  _failure_count (record_success cfg now s) = 0%Z.
Proof.
  unfold record_success. simpl.
  destruct (_state s); simpl; try reflexivity.
  destruct (_ >=? _)%Z; reflexivity.
Qed.

Lemma record_success_closed now s :
  _state s = CLOSED -> _state (record_success cfg now s) = CLOSED.
Proof. intros Hs. unfold record_success. simpl. now rewrite Hs. Qed.

(** *** Open: the recovery timeout *)

Lemma should_allow_open_early now t0 s :
  _state s = OPEN -> _open_since s = Some t0 ->
  (now - t0 < recovery_timeout cfg)%Z ->
  should_allow_request cfg now s = (false, s).
Proof.
  intros Hs Ho Hlt. unfold should_allow_request. rewrite Hs, Ho.
  destruct (Z.geb_spec (now - t0) (recovery_timeout cfg)); [lia | reflexivity].
Qed.

Lemma should_allow_open_elapsed now t0 s :
  _state s = OPEN -> _open_since s = Some t0 ->
  (recovery_timeout cfg <= now - t0)%Z ->
  fst (should_allow_request cfg now s) = true
  /\ _state (snd (should_allow_request cfg now s)) = HALF_OPEN
  /\ _half_open_requests (snd (should_allow_request cfg now s)) = 1%Z
  /\ _success_count (snd (should_allow_request cfg now s)) = _success_count s.
Proof.
  intros Hs Ho Hge. unfold should_allow_request. rewrite Hs, Ho.
  destruct (Z.geb_spec (now - t0) (recovery_timeout cfg)); [|lia].
  unfold _transition_to. rewrite Hs. simpl. now repeat split.
Qed.

(** *** Half-open: the success streak, a failure, the admissions *)

Lemma record_success_half_open_below now s :
  _state s = HALF_OPEN ->
  (_success_count s + 1 < success_threshold cfg)%Z ->
  _state (record_success cfg now s) = HALF_OPEN
  /\ _success_count (record_success cfg now s) = (_success_count s + 1)%Z
  /\ _half_open_requests (record_success cfg now s) = _half_open_requests s.
Proof.
  intros Hs Hlt. unfold record_success. simpl. rewrite Hs.
  destruct (Z.geb_spec (_success_count s + 1) (success_threshold cfg)); [lia|].
  simpl. now repeat split.
Qed.

Lemma record_success_half_open_closes now s :
  _state s = HALF_OPEN ->
  (success_threshold cfg <= _success_count s + 1)%Z ->
  _state (record_success cfg now s) = CLOSED
  /\ _failure_count (record_success cfg now s) = 0%Z
  /\ _success_count (record_success cfg now s) = 0%Z.
Proof.
  intros Hs Hge. unfold record_success. simpl. rewrite Hs.
  destruct (Z.geb_spec (_success_count s + 1) (success_threshold cfg)); [|lia].
  unfold _transition_to. simpl. rewrite ?Hs. simpl. now repeat split.
Qed.

Lemma successes_below ts s :
  _state s = HALF_OPEN ->
  (_success_count s + Z.of_nat (length ts) < success_threshold cfg)%Z ->
  _state (run cfg (successes ts) s) = HALF_OPEN
  /\ _success_count (run cfg (successes ts) s)
     = (_success_count s + Z.of_nat (length ts))%Z.
Proof.
  revert s. induction ts as [|now ts IH]; intros s Hs Hlt.
  - simpl. split; [exact Hs | lia].
  - simpl length in Hlt. simpl.
    destruct (record_success_half_open_below now s Hs) as (Hs' & Hc' & _); [lia|].
    destruct (IH (record_success cfg now s) Hs') as [H1 H2]; [lia|].
    split; [exact H1|]. rewrite H2, Hc'. simpl length. lia.
Qed.

Lemma successes_close ts s :
  _state s = HALF_OPEN ->
  (_success_count s < success_threshold cfg)%Z ->
  (_success_count s + Z.of_nat (length ts) = success_threshold cfg)%Z ->
  _state (run cfg (successes ts) s) = CLOSED.
Proof.
  intros Hs Hlt Hlen.
  destruct (exists_last (l := ts)) as (ts' & now & ->).
  { intros ->. simpl in Hlen. lia. }
  rewrite length_app in Hlen. simpl in Hlen.
  unfold successes. rewrite map_app, run_app. fold (successes ts'). simpl.
  destruct (successes_below ts' s Hs) as [H1 H2]; [lia|].
  apply record_success_half_open_closes; [exact H1 | lia].
Qed.

Lemma record_failure_half_open now e s :
  _state s = HALF_OPEN ->
  _state (record_failure cfg now e s) = OPEN
  /\ _open_since (record_failure cfg now e s) = Some now.
Proof.
  intros Hs. unfold record_failure. simpl. rewrite Hs.
  unfold _transition_to. simpl. rewrite ?Hs. simpl. now split.
Qed.

Lemma half_open_admissions_bound ops s :
  _state s = HALF_OPEN ->
  (Z.of_nat (half_open_admissions cfg ops s)
   <= Z.max 0 (half_open_max_requests cfg - _half_open_requests s))%Z.
Proof.
  revert s. induction ops as [|op ops IH]; intros s Hs.
  - simpl. rewrite Hs. lia.
  - simpl. rewrite Hs. destruct op as [now | now e | now]; simpl.
    + destruct (Z.ltb_spec (_success_count s + 1) (success_threshold cfg)) as [Hlt|Hge].
      * destruct (record_success_half_open_below now s Hs Hlt) as (Hs' & _ & Hh).
        specialize (IH _ Hs'). rewrite Hh in IH. exact IH.
      * destruct (record_success_half_open_closes now s Hs Hge) as (Hs' & _).
        destruct ops; simpl; rewrite Hs'; lia.
    + destruct (record_failure_half_open now e s Hs) as (Hs' & _).
      destruct ops; simpl; rewrite Hs'; lia.
    + unfold should_allow_request. rewrite Hs.
      destruct (Z.ltb_spec (_half_open_requests s) (half_open_max_requests cfg)).
      * specialize (IH (with_half_open_requests (_half_open_requests s + 1) s) Hs).
        simpl in IH. lia.
      * specialize (IH s Hs). lia.
Qed.

(** *** What holds in every state the breaker can reach *)

Lemma step_well_formed op s : well_formed s -> well_formed (snd (step cfg op s)).
Proof.
  intros [Ho Hc]. unfold well_formed.
  destruct op as [now | now e | now]; simpl;
    unfold record_success, record_failure, should_allow_request, _transition_to; simpl;
    destruct (_state s) eqn:Hs; simpl;
    repeat match goal with
      | |- context [match _open_since s with _ => _ end] =>
          destruct (_open_since s) eqn:?; simpl
      | |- context [if ?b then _ else _] => destruct b eqn:?; simpl
      end;
    rewrite ?Hs; simpl;
    (split; intros; try discriminate; try congruence;
     try (apply Ho; congruence); try (apply Hc; congruence);
     try (destruct (Ho eq_refl) as [? ?]; congruence); eauto).
Qed.

Lemma reachable_well_formed s : reachable s -> well_formed s.
Proof.
  intros [ops ->].
  assert (H : forall s0, well_formed s0 -> well_formed (run cfg ops s0)).
  { induction ops as [|op ops IH]; intros s0 H0; simpl; [exact H0|].
    apply IH, step_well_formed, H0. }
  apply H. split; simpl; [discriminate | reflexivity].
Qed.

(** C2.  With thresholds of at least one: from CLOSED with no failure
    counted, fewer than [failure_threshold] consecutive failures leave the
    breaker CLOSED and exactly [failure_threshold] open it; a success resets
    the failure streak to zero and leaves a closed breaker closed; from OPEN,
    [should_allow_request] answers false and changes nothing before
    [recovery_timeout] has elapsed since [_open_since], and from then on
    answers true, moves to HALF_OPEN and counts that request as the first
    half-open one; from HALF_OPEN with no success counted, fewer than
    [success_threshold] consecutive successes stay HALF_OPEN and exactly
    [success_threshold] close the breaker; one failure reopens it; and the
    requests admitted while half-open, the one that left OPEN included, are
    at most [half_open_max_requests].  In every reachable state an open
    breaker has its [_open_since] and the success streak is zero outside
    HALF_OPEN. *)
Theorem circuit_breaker_state_machine :
  (1 <= failure_threshold cfg)%Z ->
  (1 <= success_threshold cfg)%Z ->
  (1 <= half_open_max_requests cfg)%Z ->
  (forall s fs,
      _state s = CLOSED -> _failure_count s = 0%Z ->
      ((Z.of_nat (length fs) < failure_threshold cfg)%Z ->
       _state (run cfg (failures fs) s) = CLOSED)
      /\ (Z.of_nat (length fs) = failure_threshold cfg ->
          _state (run cfg (failures fs) s) = OPEN))
  /\ (forall s now,
        _failure_count (record_success cfg now s) = 0%Z
        /\ (_state s = CLOSED -> _state (record_success cfg now s) = CLOSED))
  /\ (forall s now t0,
        _state s = OPEN -> _open_since s = Some t0 ->
        ((now - t0 < recovery_timeout cfg)%Z ->
         should_allow_request cfg now s = (false, s))
        /\ ((recovery_timeout cfg <= now - t0)%Z ->
            fst (should_allow_request cfg now s) = true
            /\ _state (snd (should_allow_request cfg now s)) = HALF_OPEN
            /\ _half_open_requests (snd (should_allow_request cfg now s)) = 1%Z))
  /\ (forall s ts,
        _state s = HALF_OPEN -> _success_count s = 0%Z ->
        ((Z.of_nat (length ts) < success_threshold cfg)%Z ->
         _state (run cfg (successes ts) s) = HALF_OPEN)
        /\ (Z.of_nat (length ts) = success_threshold cfg ->
            _state (run cfg (successes ts) s) = CLOSED))
  /\ (forall s now e,
        _state s = HALF_OPEN -> _state (record_failure cfg now e s) = OPEN)
  /\ (forall s ops,
        _state s = HALF_OPEN ->
        (Z.of_nat (half_open_admissions cfg ops s)
         <= Z.max 0 (half_open_max_requests cfg - _half_open_requests s))%Z)
  /\ (forall s now t0 ops,
        _state s = OPEN -> _open_since s = Some t0 ->
        (recovery_timeout cfg <= now - t0)%Z ->
        (1 + Z.of_nat (half_open_admissions cfg ops (snd (should_allow_request cfg now s)))
         <= half_open_max_requests cfg)%Z)
  /\ (forall s, reachable s -> well_formed s).
Proof.
  intros Hf Hsu Hh.
  split.
  { intros s fs Hs Hc. split; intros Hlen.
    - apply failures_below; [exact Hs | lia].
    - apply failures_trip; [exact Hs | lia | lia]. }
  split.
  { intros s now. split; [apply record_success_resets_streak | apply record_success_closed]. }
  split.
  { intros s now t0 Hs Ho. split; intros Ht.
    - now apply (should_allow_open_early now t0).
    - destruct (should_allow_open_elapsed now t0 s Hs Ho Ht) as (H1 & H2 & H3 & _).
      now repeat split. }
  split.
  { intros s ts Hs Hc. split; intros Hlen.
    - apply successes_below; [exact Hs | lia].
    - apply successes_close; [exact Hs | lia | lia]. }
  split.
  { intros s now e Hs. now apply record_failure_half_open. }
  split.
  { intros s ops Hs. now apply half_open_admissions_bound. }
  split.
  { intros s now t0 ops Hs Ho Ht.
    destruct (should_allow_open_elapsed now t0 s Hs Ho Ht) as (_ & H2 & H3 & _).
    pose proof (half_open_admissions_bound ops _ H2) as Hb.
    rewrite H3 in Hb. lia. }
  exact reachable_well_formed.
Qed.

(** *** Invariants of the counters and of the log *)

Lemma step_counters_ok op s :
  (1 <= failure_threshold cfg)%Z ->
  (1 <= success_threshold cfg)%Z ->
  well_formed s -> counters_ok cfg s -> counters_ok cfg (snd (step cfg op s)).
Proof.
  intros Hf Hs [_ Hwf] (H1 & H2 & H3 & H4).
  destruct s as [st fc sc lf ls os hr log]. simpl in *.
  unfold counters_ok.
  destruct op as [now|now e|now]; simpl.
  - unfold record_success. simpl. destruct st; simpl.
    + split_and!; [lia | lia | intros _; lia | discriminate].
    + split_and!; [lia | lia | discriminate | discriminate].
    + destruct (H4 eq_refl) as [H5 H6].
      destruct (sc + 1 >=? success_threshold cfg)%Z eqn:E; unfold _transition_to; simpl.
      * split_and!; [lia | lia | intros _; lia | discriminate].
      * split_and!; [lia | lia | discriminate | intros _; lia].
  - unfold record_failure. simpl. destruct st; simpl.
    + destruct (fc + 1 >=? failure_threshold cfg)%Z eqn:E; unfold _transition_to; simpl.
      * split_and!; [lia | lia | discriminate | discriminate].
      * split_and!; [lia | lia | intros _; lia | discriminate].
    + split_and!; [lia | lia | discriminate | discriminate].
    + unfold _transition_to; simpl.
      split_and!; [lia | lia | discriminate | discriminate].
  - unfold should_allow_request. simpl. destruct st; simpl.
    + split_and!; [lia | lia | exact H3 | discriminate].
    + assert (Hsc : sc = 0%Z) by (apply Hwf; discriminate).
      destruct os as [t0|]; simpl.
      * destruct (now - t0 >=? recovery_timeout cfg)%Z; unfold _transition_to; simpl.
        -- split_and!; [lia | lia | discriminate | intros _; lia].
        -- split_and!; [lia | lia | discriminate | discriminate].
      * split_and!; [lia | lia | discriminate | discriminate].
    + destruct (H4 eq_refl) as [H5 H6].
      destruct (hr <? half_open_max_requests cfg)%Z eqn:E; simpl.
      * split_and!; [lia | lia | discriminate | intros _; lia].
      * split_and!; [lia | lia | discriminate | intros _; lia].
Qed.

(** The counters of a breaker, after any run of its operations: neither
    streak is negative; while the breaker is closed the failure streak is
    below [failure_threshold]; while it is half-open the success streak is
    below [success_threshold], and the requests let through are at least one
    and at most [half_open_max_requests] (one, when that is less). *)
Theorem circuit_breaker_counters (ops : list Op) :
  (1 <= failure_threshold cfg)%Z ->
  (1 <= success_threshold cfg)%Z ->
  counters_ok cfg (run cfg ops initial).
Proof.
  intros Hf Hs.
  assert (H : forall s, well_formed s -> counters_ok cfg s ->
                        counters_ok cfg (run cfg ops s)).
  { induction ops as [|op ops IH]; intros s Hwf Hok; simpl; [exact Hok|].
    apply IH; [now apply step_well_formed | now apply step_counters_ok]. }
  apply H.
  - split; [discriminate | reflexivity].
  - unfold counters_ok. simpl. split_and!; [lia | lia | intros _; lia | discriminate].
Qed.

Lemma chained_snoc from log a b reason :
  chained from log a -> chained from (log ++ [(a, b, reason)]) b.
Proof.
  revert from. induction log as [|[[x y] r] log IH]; intros from; simpl.
  - intros ->. now split.
  - intros [-> H]. split; [reflexivity | now apply IH].
Qed.

Lemma step_log op s :
  Forall legal_transition (transitions s) -> chained CLOSED (transitions s) (_state s) ->
  Forall legal_transition (transitions (snd (step cfg op s)))
  /\ chained CLOSED (transitions (snd (step cfg op s))) (_state (snd (step cfg op s))).
Proof.
  intros Hlegal Hchain.
  assert (Hadd : forall b reason,
             legal_transition (_state s, b, reason) ->
             Forall legal_transition (transitions s ++ [(_state s, b, reason)])
             /\ chained CLOSED (transitions s ++ [(_state s, b, reason)]) b).
  { intros b reason Hl. split; [|now apply chained_snoc].
    apply Forall_app. split; [exact Hlegal | now constructor]. }
  destruct s as [st fc sc lf ls os hr log]. simpl in *.
  destruct op as [now|now e|now]; simpl.
  - unfold record_success. simpl. destruct st; simpl; try now split.
    destruct (sc + 1 >=? success_threshold cfg)%Z; simpl; [|now split].
    apply Hadd. unfold legal_transition. tauto.
  - unfold record_failure. simpl. destruct st; simpl; try now split.
    + destruct (fc + 1 >=? failure_threshold cfg)%Z; simpl; [|now split].
      apply Hadd. unfold legal_transition. tauto.
    + apply Hadd. unfold legal_transition. tauto.
  - unfold should_allow_request. simpl. destruct st; simpl; try now split.
    + destruct os as [t0|]; simpl; [|now split].
      destruct (now - t0 >=? recovery_timeout cfg)%Z; simpl; [|now split].
      apply Hadd. unfold legal_transition. tauto.
    + destruct (hr <? half_open_max_requests cfg)%Z; simpl; now split.
Qed.

(** The state changes a breaker reports, over any run of [record_success],
    [record_failure] and [should_allow_request]: each is one of closed to
    open (threshold exceeded), open to half-open (timeout expired), half-open
    to open (test failed) and half-open to closed (test succeeded), so an open
    breaker never closes without passing through half-open and a closed one
    never becomes half-open; each starts in the state the one before it ended
    in, the first in closed and the last ends in the current state. *)
Theorem circuit_breaker_transitions (ops : list Op) :
  Forall legal_transition (transitions (run cfg ops initial))
  /\ chained CLOSED (transitions (run cfg ops initial)) (_state (run cfg ops initial)).
Proof.
  assert (H : forall s,
             Forall legal_transition (transitions s) ->
             chained CLOSED (transitions s) (_state s) ->
             Forall legal_transition (transitions (run cfg ops s))
             /\ chained CLOSED (transitions (run cfg ops s)) (_state (run cfg ops s))).
  { induction ops as [|op ops IH]; intros s Hl Hc; simpl; [now split|].
    destruct (step_log op s Hl Hc) as [Hl' Hc']. now apply IH. }
  apply H; [constructor | reflexivity].
Qed.

(** A half-open breaker whose test requests are used up refuses every
    further request, at every later moment: being half-open does not time
    out, and only [record_success], [record_failure] or [reset] end it. *)
Theorem half_open_does_not_time_out (s : State) (nows : list Z) :
  _state s = HALF_OPEN ->
  (half_open_max_requests cfg <= _half_open_requests s)%Z ->
  run cfg (map ShouldAllowRequest nows) s = s
  /\ Forall (fun now => should_allow_request cfg now s = (false, s)) nows.
Proof.
  intros Hst Hfull.
  assert (Hone : forall now, should_allow_request cfg now s = (false, s)).
  { intros now. unfold should_allow_request. rewrite Hst.
    destruct (_half_open_requests s <? half_open_max_requests cfg)%Z eqn:E; [lia | reflexivity]. }
  split.
  - induction nows as [|now nows IH]; simpl; [reflexivity|]. now rewrite Hone.
  - apply List.Forall_forall. intros now _. apply Hone.
Qed.

(** *** [reset] *)

Lemma step_forget_log op s1 s2 :
  forget_log s1 = forget_log s2 ->
  fst (step cfg op s1) = fst (step cfg op s2)
  /\ forget_log (snd (step cfg op s1)) = forget_log (snd (step cfg op s2)).
Proof.
  destruct s1 as [st fc sc lf ls os hr log1], s2 as [st2 fc2 sc2 lf2 ls2 os2 hr2 log2].
  unfold forget_log. simpl. intros [= <- <- <- <- <- <- <-].
  destruct op as [now|now e|now]; simpl.
  - split; [reflexivity|]. unfold record_success. simpl.
    destruct st; simpl; try reflexivity.
    now destruct (sc + 1 >=? success_threshold cfg)%Z.
  - split; [reflexivity|]. unfold record_failure. simpl.
    destruct st; simpl; try reflexivity.
    now destruct (fc + 1 >=? failure_threshold cfg)%Z.
  - unfold should_allow_request. simpl. destruct st; simpl.
    + now split.
    + destruct os as [t0|]; simpl; [|now split].
      destruct (now - t0 >=? recovery_timeout cfg)%Z; simpl; now split.
    + destruct (hr <? half_open_max_requests cfg)%Z; simpl; now split.
Qed.

Lemma run_forget_log ops s1 s2 :
  forget_log s1 = forget_log s2 ->
  answers cfg ops s1 = answers cfg ops s2
  /\ forget_log (run cfg ops s1) = forget_log (run cfg ops s2).
Proof.
  revert s1 s2. induction ops as [|op ops IH]; intros s1 s2 H; simpl; [now split|].
  destruct (step_forget_log op s1 s2 H) as [Hans Hnext].
  destruct (step cfg op s1) as [a1 s1'], (step cfg op s2) as [a2 s2'].
  simpl in Hans, Hnext. subst a2. destruct (IH s1' s2' Hnext) as [IH1 IH2].
  split; [|exact IH2]. destruct a1; [now rewrite IH1 | exact IH1].
Qed.

(** After [reset] a breaker is as good as new, whatever state it was in:
    over any run of operations it gives the answers a new breaker gives and
    goes through the same states and counters; only the log of its earlier
    state changes stays. *)
Theorem reset_behaves_as_new (now : Z) (s : State) (ops : list Op) :
  answers cfg ops (reset now s) = answers cfg ops initial
  /\ forget_log (run cfg ops (reset now s)) = forget_log (run cfg ops initial).
Proof.
  apply run_forget_log. unfold reset, _transition_to, forget_log.
  destruct (_state s) eqn:E; simpl; rewrite ?E; reflexivity.
Qed.

End StateMachine.

(** Five failures open a breaker with the default thresholds, four do not. *)
Lemma circuit_breaker_state_machine_witness :
  let e := {| exc_class := ConnectionError_; exc_message := "refused" |} in
  let cfg := @default_config unit string in
  _state (run cfg (failures [(1, e); (2, e); (3, e); (4, e)]%Z) initial) = CLOSED
  /\ _state (run cfg (failures [(1, e); (2, e); (3, e); (4, e); (5, e)]%Z) initial) = OPEN.
Proof.
  intros e cfg.
  destruct (circuit_breaker_state_machine cfg) as (Hclosed & _);
    [simpl; lia | simpl; lia | simpl; lia |].
  split.
  - apply (Hclosed initial); [reflexivity | reflexivity | simpl; lia].
  - apply (Hclosed initial); reflexivity.
Defined.

(** *** The fallback decision *)
Section Fallback.
Context {Request Value : Type}.
Variable fnmatch : string -> string -> bool.

Local Abbreviation get_fallback_decision := (@Breaker.get_fallback_decision Request Value fnmatch).
Local Abbreviation stale_seen := (@Breaker.stale_seen Request Value fnmatch).

Lemma discard_stale_existsb patterns policy_path cached :
  discard_stale fnmatch patterns policy_path cached
  = if existsb (fnmatch policy_path) patterns then None else cached.
Proof.
  induction patterns as [|pattern rest IH]; simpl; [reflexivity|].
  now destruct (fnmatch policy_path pattern).
Qed.

Lemma no_stale_for_filter (cfg : @Config Request Value) policy_path cached :
  match cached, no_stale_for cfg with
  | Some _, Some (pattern :: rest) =>
      discard_stale fnmatch (pattern :: rest) policy_path cached
  | _, _ => cached
  end = stale_seen cfg policy_path cached.
Proof.
  unfold Breaker.stale_seen.
  destruct cached as [b|].
  - destruct (no_stale_for cfg) as [[|pattern rest]|]; try reflexivity.
    apply discard_stale_existsb.
  - now destruct (existsb _ _).
Qed.

(** A strategy given by name always decides. *)
Lemma get_fallback_decision_named (cfg : @Config Request Value) strategy
    (request : Request) (policy_path : string)
    (resource_context : list (string * Value)) (cached : option bool) (error : Exn) :
  fallback cfg = StrategyName strategy ->
  exists b,
    get_fallback_decision cfg request policy_path resource_context cached error
    = Returned b.
Proof.
  intros Hs. unfold Breaker.get_fallback_decision. rewrite Hs.
  destruct (String.eqb strategy "cache_then_deny");
    [destruct (match cached with Some _ => _ | None => _ end); eauto|].
  destruct (String.eqb strategy "cache_then_allow");
    [destruct (match cached with Some _ => _ | None => _ end); eauto|].
  destruct (String.eqb strategy "deny"); [eauto|].
  destruct (String.eqb strategy "allow"); eauto.
Qed.

(** C3.  With [seen] the stale value after the [no_stale_for] patterns
    (absent as soon as one of them matches the policy path, the cached value
    otherwise): "cache_then_deny" returns [seen] or else false,
    "cache_then_allow" returns [seen] or else true, "deny" returns false and
    "allow" returns true whatever the stale value, and any other strategy
    string returns false. *)
Theorem fallback_decision_dispatch (cfg : @Config Request Value)
    (request : Request) (policy_path : string)
    (resource_context : list (string * Value)) (cached : option bool) (error : Exn) :
  let decide strategy :=
    get_fallback_decision (with_fallback cfg (StrategyName strategy))
      request policy_path resource_context cached error in
  let seen := stale_seen cfg policy_path cached in
  decide "cache_then_deny" = Returned (or_default false seen)
  /\ decide "cache_then_allow" = Returned (or_default true seen)
  /\ decide "deny" = Returned false
  /\ decide "allow" = Returned true
  /\ (forall strategy,
        In strategy ["cache_then_deny"; "cache_then_allow"; "deny"; "allow"]
        \/ decide strategy = Returned false)
  /\ (seen = None \/ seen = cached)
  /\ (forall patterns pattern,
        no_stale_for cfg = Some patterns -> In pattern patterns ->
        fnmatch policy_path pattern = true -> seen = None)
  /\ ((forall patterns pattern,
         no_stale_for cfg = Some patterns -> In pattern patterns ->
         fnmatch policy_path pattern = false) -> seen = cached).
Proof.
  intros decide seen. subst decide. unfold Breaker.get_fallback_decision.
  change (no_stale_for (with_fallback cfg _)) with (no_stale_for cfg).
  rewrite no_stale_for_filter. fold seen. simpl.
  split; [now destruct seen|].
  split; [now destruct seen|].
  split; [reflexivity|].
  split; [reflexivity|].
  split.
  { intros strategy.
    destruct (String.eqb strategy "cache_then_deny") eqn:E1;
      [apply String.eqb_eq in E1; subst; left; simpl; tauto|].
    destruct (String.eqb strategy "cache_then_allow") eqn:E2;
      [apply String.eqb_eq in E2; subst; left; simpl; tauto|].
    destruct (String.eqb strategy "deny") eqn:E3;
      [apply String.eqb_eq in E3; subst; left; simpl; tauto|].
    destruct (String.eqb strategy "allow") eqn:E4;
      [apply String.eqb_eq in E4; subst; left; simpl; tauto|].
    now right. }
  subst seen. unfold Breaker.stale_seen.
  split; [destruct (existsb _ _); tauto|].
  split.
  { intros patterns pattern -> Hin Hm.
    assert (H : existsb (fnmatch policy_path) patterns = true)
      by (apply existsb_exists; eauto).
    now rewrite H. }
  { intros Hnone. destruct (no_stale_for cfg) as [patterns|]; [|reflexivity].
    destruct (existsb (fnmatch policy_path) patterns) eqn:E; [|reflexivity].
    apply existsb_exists in E. destruct E as (pattern & Hin & Hm).
    rewrite (Hnone patterns pattern eq_refl Hin) in Hm. discriminate. }
Qed.

End Fallback.

(** A stale "allow" is served on an ordinary path and not on one that a
    [no_stale_for] pattern covers. *)
Example fallback_no_stale_for_admin :
  let cfg : @Config unit string :=
    {| failure_threshold := 5; success_threshold := 2; recovery_timeout := 30;
       fallback := StrategyName "cache_then_deny";
       serve_stale_cache := true; stale_cache_ttl := 300;
       no_stale_for := Some ["*.admin.*"];
       failure_exceptions := [ConnectionError_; TimeoutError_; OSError_];
       on_fallback := None; half_open_max_requests := 1 |} in
  let e := {| exc_class := ConnectionError_; exc_message := "Circuit breaker open" |} in
  get_fallback_decision Sample.fnmatch cfg tt "myapp.GET.documents" [] (Some true) e
  = Returned true
  /\ get_fallback_decision Sample.fnmatch cfg tt "myapp.admin.users" [] (Some true) e
     = Returned false.
Proof. split; reflexivity. Qed.

(** The defaults, after four failures and a success. *)
Lemma circuit_breaker_counters_witness :
  let e := {| exc_class := ConnectionError_; exc_message := "refused" |} in
  let cfg := @default_config unit string in
  counters_ok cfg
    (run cfg (failures [(1, e); (2, e); (3, e); (4, e)]%Z ++ [RecordSuccess 5]) initial).
Proof.
  intros e cfg.
  apply (circuit_breaker_counters cfg
           (failures [(1, e); (2, e); (3, e); (4, e)]%Z ++ [RecordSuccess 5]));
    simpl; lia.
Defined.

(** The defaults: the breaker opens, lets one test request through after
    the timeout, and refuses from then on, a second and an hour later. *)
Lemma half_open_does_not_time_out_witness :
  let e := {| exc_class := ConnectionError_; exc_message := "refused" |} in
  let cfg := @default_config unit string in
  let opened := run cfg (failures (repeat (0%Z, e) 5)) initial in
  let half_open := snd (should_allow_request cfg 30 opened) in
  _state half_open = HALF_OPEN
  /\ run cfg (map ShouldAllowRequest [31; 3600]%Z) half_open = half_open.
Proof.
  intros e cfg opened half_open. split; [reflexivity|].
  apply (half_open_does_not_time_out cfg half_open [31; 3600]%Z); [reflexivity|].
  now vm_compute.
Defined.

End BreakerFacts.

Module PoolFacts.
Import PyExc Pool.

Section Invariant.
Variable cfg : Config.
Hypothesis Hcfg : config_ok cfg.

Lemma size_add (c : nat) (X : gset nat) :
  c ∉ X -> size ({[c]} ∪ X) = S (size X).
Proof. intros H. rewrite size_union by set_solver. now rewrite size_singleton. Qed.

Lemma size_remove (c : nat) (X : gset nat) :
  c ∈ X -> S (size (X ∖ {[c]})) = size X.
Proof.
  intros H. rewrite size_difference by set_solver. rewrite size_singleton.
  assert (size X ≠ 0); [|lia].
  intros H0. apply size_empty_inv in H0. set_solver.
Qed.

Lemma invariant_new : invariant cfg new /\ invariant cfg (configured cfg).
Proof.
  destruct Hcfg as [Hmax _].
  split; unfold invariant; simpl; rewrite ?size_empty;
    (repeat split; try set_solver; try apply NoDup_nil_2; try lia; try discriminate; eauto).
Qed.

Lemma create_initial_spec n now ctor p :
  let p' := create_initial n now ctor p in
  _busy p' = _busy p /\ _semaphore p' = _semaphore p /\ _closed p' = _closed p
  /\ _initialized p' = _initialized p
  /\ (next_id p <= next_id p')%nat
  /\ exists fresh,
      _idle p' = _idle p ++ fresh /\ NoDup fresh
      /\ (forall c, c ∈ fresh -> (next_id p <= c < next_id p')%nat)
      /\ (length fresh <= n)%nat
      /\ _connections p' = list_to_set fresh ∪ _connections p.
Proof.
  revert p. induction n as [|n IH]; intros p; simpl.
  - split_and!; try reflexivity; try lia. exists []. rewrite app_nil_r.
    split_and!; try reflexivity; try apply NoDup_nil_2; try set_solver; simpl; lia.
  - unfold _create_connection.
    destruct (_authorizer_options p) eqn:Hopt; simpl.
    + destruct ctor as [e|].
      * destruct (IH p) as (H1 & H2 & H3 & H4 & H5 & fresh & H6 & H7 & H8 & H9 & H10).
        split_and!; try assumption.
        exists fresh. split_and!; try assumption; try (now apply H8). lia.
      * match goal with |- context [create_initial n now None ?q] =>
          destruct (IH q) as (H1 & H2 & H3 & H4 & H5 & fresh & H6 & H7 & H8 & H9 & H10) end.
        simpl in *.
        split_and!; try assumption; try lia.
        exists (next_id p :: fresh). rewrite H6, <- app_assoc. simpl.
        split_and!.
        -- reflexivity.
        -- apply NoDup_cons. split; [|exact H7].
           intros Hin. apply H8 in Hin. lia.
        -- intros c Hc.
           apply elem_of_cons in Hc as [->|Hin]; [lia | apply H8 in Hin; lia].
        -- lia.
        -- rewrite H10. set_solver.
    + destruct (IH p) as (H1 & H2 & H3 & H4 & H5 & fresh & H6 & H7 & H8 & H9 & H10).
      split_and!; try assumption.
      exists fresh. split_and!; try assumption; try (now apply H8). lia.
Qed.

Lemma initialize_spec now ctor p :
  invariant cfg p ->
  let p' := initialize cfg now ctor p in
  invariant cfg p' /\ _busy p' = _busy p /\ _closed p' = _closed p
  /\ _initialized p' = true
  /\ (next_id p <= next_id p')%nat
  /\ (forall c, c ∈ _idle p' -> c ∈ _idle p \/ (next_id p <= c)%nat).
Proof.
  intros Hinv. unfold initialize.
  destruct (_initialized p) eqn:Hini.
  { split_and!; try done; try lia. intros c Hc. now left. }
  destruct Hinv as (I1 & I2 & I3 & I4 & I5 & I6 & I7 & I8).
  destruct (I7 Hini) as (Hidle & Hbusy & Hsem).
  destruct Hcfg as [Hmax Hmin].
  set (p1 := match _semaphore p with
             | Some _ => p
             | None => with_semaphore (Some (max_connections cfg)) p
             end).
  assert (Hp1 : _semaphore p1 = Some (max_connections cfg) /\ _idle p1 = [] /\ _busy p1 = ∅
                /\ _connections p1 = ∅ /\ _closed p1 = _closed p /\ next_id p1 = next_id p).
  { assert (Hconn : _connections p = ∅) by (rewrite I5, Hidle, Hbusy; set_solver).
    subst p1. destruct Hsem as [Hs | Hs]; rewrite Hs; simpl; split_and!; done. }
  destruct Hp1 as (S1 & S2 & S3 & S4 & S5 & S6).
  set (p2 := if eager_init cfg && _authorizer_options p1
             then create_initial (Z.to_nat (min_connections cfg)) now ctor p1 else p1).
  assert (Hp2 : _busy p2 = ∅ /\ _semaphore p2 = Some (max_connections cfg)
                /\ _closed p2 = _closed p /\ (next_id p <= next_id p2)%nat
                /\ NoDup (_idle p2)
                /\ (forall c, c ∈ _idle p2 -> (next_id p <= c < next_id p2)%nat)
                /\ (Z.of_nat (length (_idle p2)) <= max_connections cfg)%Z
                /\ _connections p2 = list_to_set (_idle p2)).
  { subst p2. destruct (eager_init cfg && _authorizer_options p1) eqn:E.
    - apply andb_prop in E as [Heager _]. specialize (Hmin Heager).
      destruct (create_initial_spec (Z.to_nat (min_connections cfg)) now ctor p1)
        as (H1 & H2 & H3 & H4 & H5 & fresh & H6 & H7 & H8 & H9 & H10).
      rewrite S2 in H6. simpl in H6. rewrite H6, H1, H2, H3, H10, S3, S1, S4, S5.
      rewrite S6 in *.
      split_and!; try assumption; try (now apply H8); try lia; try set_solver.
    - rewrite S1, S2, S3, S4, S5, S6. simpl.
      split_and!; try apply NoDup_nil_2; try lia; try set_solver. }
  destruct Hp2 as (B1 & B2 & B3 & B4 & B5 & B6 & B7 & B8).
  unfold invariant. simpl. rewrite B1, B8, size_empty.
  split_and!; try done; try lia.
  - intros c Hc. apply B6 in Hc. lia.
  - set_solver.
  - intros _ _. exists (max_connections cfg). split; [assumption | lia].
  - intros c Hc. right. apply B6 in Hc. lia.
Qed.

Local Abbreviation acquire_post := (Pool.acquire_post cfg).

Lemma acquire_unfold now ctor p :
  acquire cfg now ctor p =
    if _closed p then (Raised closed_error, p)
    else acquire_ready now ctor (if _initialized p then p else initialize cfg now ctor p).
Proof. reflexivity. Qed.

Lemma acquire_ready_spec now ctor p1 :
  invariant cfg p1 -> _closed p1 = false -> _initialized p1 = true ->
  acquire_post p1 (fst (acquire_ready now ctor p1)) (snd (acquire_ready now ctor p1)).
Proof.
  intros (I1 & I2 & I3 & I4 & I5 & I6 & I7 & I8) Hopen Hini.
  destruct (I8 Hopen Hini) as (permits & Hsem & Hperm).
  unfold acquire_ready. rewrite Hsem.
  destruct (Z.leb_spec permits 0) as [Hnone|Hsome].
  { simpl. unfold Pool.acquire_post, invariant. split_and!; try done; try lia.
    intros c' Hc'. now left. }
  simpl. destruct (_idle p1) as [|conn rest] eqn:Hidle.
  - unfold _create_connection. simpl.
    destruct (_authorizer_options p1) eqn:Hopt; simpl;
      [destruct ctor as [e|]; simpl|].
    + unfold Pool.acquire_post, invariant, semaphore_release. simpl. rewrite Hidle.
      split_and!; try done; try lia.
      * intros Hc. congruence.
      * intros _ _. exists permits. split; [f_equal; lia | lia].
      * intros c' Hc'. now left.
    + assert (Hfresh : next_id p1 ∉ _busy p1).
      { intros Hin. apply I2 in Hin. lia. }
      unfold Pool.acquire_post, invariant. simpl. rewrite Hidle. simpl.
      rewrite size_add by exact Hfresh.
      split_and!; try done; try lia.
      * intros c Hc. now apply elem_of_nil in Hc.
      * intros c Hc. apply elem_of_union in Hc as [Hc|Hc];
          [apply elem_of_singleton in Hc; lia | apply I2 in Hc; lia].
      * intros c Hc. now apply elem_of_nil in Hc.
      * rewrite I5. simpl. set_solver.
      * intros Hc. congruence.
      * intros _ _. exists (permits - 1)%Z. split; [reflexivity | lia].
      * intros c Hc. now apply elem_of_nil in Hc.
      * apply not_elem_of_nil.
    + unfold Pool.acquire_post, invariant, semaphore_release. simpl. rewrite Hidle.
      split_and!; try done; try lia.
      * intros Hc. congruence.
      * intros _ _. exists permits. split; [f_equal; lia | lia].
      * intros c' Hc'. now left.
  - apply NoDup_cons in I3 as [Hnotin Hnd].
    assert (Hconn : conn ∉ _busy p1) by (apply I4, list_elem_of_here).
    unfold Pool.acquire_post, invariant. simpl. rewrite size_add by exact Hconn.
    rewrite ?Hidle.
    split_and!; try done; try lia.
    + intros c Hc. apply I1. now apply list_elem_of_further.
    + intros c Hc. apply elem_of_union in Hc as [Hc|Hc]; [|now apply I2].
      apply elem_of_singleton in Hc. subst. apply I1, list_elem_of_here.
    + intros c Hc Hin. apply elem_of_union in Hin as [Hin|Hin].
      * apply elem_of_singleton in Hin. now subst.
      * apply (I4 c); [|exact Hin]. now apply list_elem_of_further.
    + rewrite I5. simpl. set_solver.
    + simpl in I6. lia.
    + intros Hc. congruence.
    + intros _ _. exists (permits - 1)%Z. split; [reflexivity | lia].
    + intros c' Hc'. left. now apply list_elem_of_further.
    + left. apply list_elem_of_here.
Qed.

Lemma acquire_spec now ctor p :
  invariant cfg p ->
  acquire_post p (fst (acquire cfg now ctor p)) (snd (acquire cfg now ctor p)).
Proof.
  intros Hinv. rewrite acquire_unfold.
  destruct (_closed p) eqn:Hclosed.
  { simpl. unfold Pool.acquire_post. split_and!; try done. intros c' Hc'. now left. }
  destruct (_initialized p) eqn:Hini.
  { exact (acquire_ready_spec now ctor p Hinv Hclosed Hini). }
  destruct (initialize_spec now ctor p Hinv) as (J & Hb & Hc & Hi & Hn & Hidle).
  rewrite Hclosed in Hc.
  pose proof (acquire_ready_spec now ctor _ J Hc Hi) as (A1 & A2 & A3 & A4 & A5).
  destruct Hinv as (I1 & I2 & I3 & I4 & I5 & I6 & I7 & I8).
  destruct (I7 Hini) as (Hidle0 & Hbusy0 & _).
  unfold Pool.acquire_post. split_and!; try done; try lia.
  - congruence.
  - intros c' Hc'. right. destruct (A4 c' Hc') as [Hin|Hge]; [|lia].
    destruct (Hidle c' Hin) as [Hin0|Hge]; [|lia]. rewrite Hidle0 in Hin0. set_solver.
  - destruct (fst (acquire_ready now ctor (initialize cfg now ctor p))) as [c|e].
    + destruct A5 as (B1 & B2 & B3 & B4 & B5). rewrite Hb in *.
      split_and!; try done.
      right. destruct B3 as [Hin|Hge]; [|lia].
      destruct (Hidle c Hin) as [Hin0|Hge]; [|lia]. rewrite Hidle0 in Hin0. set_solver.
    + congruence.
Qed.

Lemma release_spec now c p :
  invariant cfg p ->
  let p' := release now c p in
  invariant cfg p' /\ _closed p' = _closed p /\ next_id p' = next_id p
  /\ _busy p' = _busy p ∖ {[c]}
  /\ (forall c', c' ∈ _idle p' ->
        c' ∈ _idle p \/ (c' = c /\ c ∈ _busy p /\ is_healthy p c = true)).
Proof.
  intros (I1 & I2 & I3 & I4 & I5 & I6 & I7 & I8). unfold release.
  destruct (decide (c ∈ _busy p)) as [Hin|Hnotin]; cycle 1.
  { simpl. unfold invariant. split_and!; try done; try set_solver. }
  assert (Hidle : c ∉ _idle p) by (intros H; now apply I4 in H).
  pose proof (size_remove c (_busy p) Hin) as Hsize.
  assert (Hini : _initialized p = true).
  { destruct (_initialized p) eqn:E; [reflexivity|].
    destruct (I7 eq_refl) as (_ & Hb & _). set_solver. }
  change (is_healthy (with_busy (_busy p ∖ {[c]}) p) c) with (is_healthy p c).
  change (_closed (with_busy (_busy p ∖ {[c]}) p)) with (_closed p).
  destruct (is_healthy p c && negb (_closed p)) eqn:Hh.
  - apply andb_prop in Hh as [Hhealthy Hopen]. apply negb_true_iff in Hopen.
    destruct (I8 Hopen Hini) as (permits & Hsem & Hperm).
    unfold semaphore_release. simpl. rewrite Hsem. simpl.
    unfold invariant. simpl. rewrite length_app. simpl.
    split_and!; try done; try lia.
    + intros c' Hc'. apply elem_of_app in Hc' as [Hc'|Hc']; [now apply I1|].
      apply list_elem_of_singleton in Hc'. subst. now apply I2.
    + intros c' Hc'. apply I2. set_solver.
    + apply NoDup_app. split_and!; [done | | apply NoDup_singleton].
      intros x Hx Hx'. apply list_elem_of_singleton in Hx'. now subst.
    + intros c' Hc'. apply elem_of_app in Hc' as [Hc'|Hc'].
      * apply I4 in Hc'. set_solver.
      * apply list_elem_of_singleton in Hc'. subst. set_solver.
    + rewrite I5, list_to_set_app_L. simpl.
      apply set_eq. intros x. destruct (decide (x = c)); set_solver.
    + intros Hc. congruence.
    + intros _ _. exists (permits + 1)%Z. split; [reflexivity | lia].
    + intros c' Hc'. apply elem_of_app in Hc' as [Hc'|Hc']; [now left|].
      apply list_elem_of_singleton in Hc'. subst. now right.
  - unfold semaphore_release. simpl.
    assert (Hinv' : forall sem,
      (_closed p = false -> exists permits, sem = Some permits
         /\ (permits + Z.of_nat (size (_busy p ∖ {[c]})) = max_connections cfg)%Z) ->
      invariant cfg
        (with_semaphore sem
           (with_connections (_connections p ∖ {[c]}) (with_busy (_busy p ∖ {[c]}) p)))).
    { intros sem Hsem'. unfold invariant. simpl.
      split_and!; try done; try lia.
      - intros c' Hc'. apply I2. set_solver.
      - intros c' Hc'. apply I4 in Hc'. set_solver.
      - rewrite I5. set_solver.
      - intros Hc. congruence.
      - intros Hopen _. now apply Hsem'. }
    destruct (_semaphore p) as [permits|] eqn:Hsem; simpl.
    + split_and!; try done.
      * apply Hinv'. intros Hopen.
        destruct (I8 Hopen Hini) as (permits' & Hsem' & Hperm).
        exists (permits + 1)%Z. split; [reflexivity|].
        assert (permits' = permits) by congruence. lia.
      * intros c' Hc'. now left.
    + split_and!; try done.
      * unfold invariant. simpl. split_and!; try done; try lia.
        -- intros c' Hc'. apply I2. set_solver.
        -- intros c' Hc'. apply I4 in Hc'. set_solver.
        -- rewrite I5. set_solver.
        -- intros Hc. congruence.
        -- intros Hopen _. destruct (I8 Hopen Hini) as (permits' & Hsem' & _). congruence.
      * intros c' Hc'. now left.
Qed.

Lemma set_healthy_spec c h p :
  invariant cfg p -> invariant cfg (set_healthy c h p).
Proof. intros H. exact H. Qed.

Lemma close_spec p : invariant cfg p -> invariant cfg (close p).
Proof.
  intros (I1 & I2 & I3 & I4 & I5 & I6 & I7 & I8). destruct Hcfg as [Hmax _].
  unfold invariant.
  change (_idle (close p)) with (@nil nat).
  change (_busy (close p)) with (∅ : gset nat).
  change (_connections (close p)) with (∅ : gset nat).
  change (_closed (close p)) with true.
  change (_initialized (close p)) with (_initialized p).
  change (_semaphore (close p)) with (_semaphore p).
  rewrite size_empty.
  split_and!.
  - intros c Hc. now apply elem_of_nil in Hc.
  - intros c Hc. now apply elem_of_empty in Hc.
  - apply NoDup_nil_2.
  - intros c Hc. now apply elem_of_nil in Hc.
  - simpl. set_solver.
  - simpl. lia.
  - intros Hini. destruct (I7 Hini) as (_ & _ & Hsem). done.
  - discriminate.
Qed.

Lemma step_invariant op p :
  invariant cfg p -> invariant cfg (snd (step cfg op p)).
Proof.
  intros Hinv. destruct op as [now ctor | now c | c h |]; simpl.
  - pose proof (acquire_spec now ctor p Hinv) as [H _].
    now destruct (acquire cfg now ctor p).
  - now apply release_spec.
  - exact Hinv.
  - now apply close_spec.
Qed.

Lemma run_invariant ops p : invariant cfg p -> invariant cfg (run cfg ops p).
Proof.
  revert p. induction ops as [|op ops IH]; intros p Hinv; simpl; [exact Hinv|].
  apply IH, step_invariant, Hinv.
Qed.

Lemma reachable_invariant p : reachable cfg p -> invariant cfg p.
Proof. intros [ops ->]. apply run_invariant, invariant_new. Qed.

Lemma invariant_total p :
  invariant cfg p -> (Z.of_nat (size (_connections p)) <= max_connections cfg)%Z.
Proof.
  intros (I1 & I2 & I3 & I4 & I5 & I6 & I7 & I8).
  rewrite I5, size_union.
  - rewrite size_list_to_set by exact I3. lia.
  - intros c Hc Hc'. apply elem_of_list_to_set in Hc. now apply I4 in Hc.
Qed.

(** *** Exclusive use *)

Lemma exclusive_from ops p held :
  invariant cfg p -> (_closed p = false -> held = _busy p) ->
  exclusive cfg ops p held.
Proof.
  revert p held. induction ops as [|op ops IH]; intros p held Hinv Hheld; simpl; [exact I|].
  pose proof (step_invariant op p Hinv) as Hinv'.
  destruct op as [now ctor | now c | c h |]; simpl in *.
  - pose proof (acquire_spec now ctor p Hinv) as (_ & Hc & _ & _ & Hr).
    destruct (acquire cfg now ctor p) as [[conn|e] p']; simpl in *.
    + destruct Hr as (Hopen & Hnotin & _ & Hbusy & _).
      split; [now rewrite (Hheld Hopen)|].
      apply IH; [exact Hinv'|]. intros _. rewrite Hbusy, (Hheld Hopen). reflexivity.
    + split; [exact I|]. apply IH; [exact Hinv'|].
      intros Hopen. rewrite Hr. apply Hheld. congruence.
  - split; [exact I|]. apply IH; [exact Hinv'|].
    destruct (release_spec now c p Hinv) as (_ & Hc & _ & Hbusy & _).
    intros Hopen. rewrite Hbusy, Hheld; [reflexivity | congruence].
  - split; [exact I|]. apply IH; [exact Hinv'|]. exact Hheld.
  - split; [exact I|]. apply IH; [exact Hinv'|]. discriminate.
Qed.

(** *** Discarded connections *)

Lemma release_unhealthy_discards now c p :
  invariant cfg p -> c ∈ _busy p -> is_healthy p c = false ->
  discarded (release now c p) c.
Proof.
  intros Hinv Hin Hh.
  destruct (release_spec now c p Hinv) as (_ & _ & Hn & Hbusy & Hidle).
  destruct Hinv as (I1 & I2 & I3 & I4 & I5 & I6 & I7 & I8).
  unfold discarded. rewrite Hbusy, Hn. split_and!.
  - intros Hc. destruct (Hidle c Hc) as [Hc'|(_ & _ & Hh')]; [|congruence].
    now apply I4 in Hc'.
  - set_solver.
  - now apply I2.
Qed.

Lemma step_discarded op p c :
  invariant cfg p -> discarded p c ->
  discarded (snd (step cfg op p)) c /\ fst (step cfg op p) <> Some (Returned c).
Proof.
  intros Hinv (D1 & D2 & D3). destruct op as [now ctor | now c0 | c0 h |]; simpl.
  - pose proof (acquire_spec now ctor p Hinv) as (_ & _ & Hn & Hidle & Hr).
    destruct (acquire cfg now ctor p) as [[conn|e] p']; simpl in *.
    + destruct Hr as (_ & _ & Hfrom & Hbusy & _).
      assert (Hne : conn <> c) by (intros ->; destruct Hfrom; [done | lia]).
      split; [|congruence]. unfold discarded. rewrite Hbusy. split_and!.
      * intros Hc. destruct (Hidle c Hc); [done | lia].
      * set_solver.
      * lia.
    + split; [|discriminate]. unfold discarded. rewrite Hr. split_and!; try done; try lia.
      intros Hc. destruct (Hidle c Hc); [done | lia].
  - destruct (release_spec now c0 p Hinv) as (_ & _ & Hn & Hbusy & Hidle).
    split; [|discriminate]. unfold discarded. rewrite Hbusy, Hn. split_and!; try done.
    + intros Hc. destruct (Hidle c Hc) as [Hc'|(-> & Hb & _)]; done.
    + set_solver.
  - split; [|discriminate]. done.
  - split; [|discriminate]. unfold discarded. simpl. split_and!; try done; set_solver.
Qed.

Lemma discarded_never_acquired ops p c :
  invariant cfg p -> discarded p c ->
  Forall (fun r => r <> Returned c) (acquire_outcomes cfg ops p).
Proof.
  revert p. induction ops as [|op ops IH]; intros p Hinv Hd; simpl; [constructor|].
  pose proof (step_invariant op p Hinv) as Hinv'.
  destruct (step_discarded op p c Hinv Hd) as [Hd' Hne].
  destruct (step cfg op p) as [[r|] p']; simpl in *.
  - constructor; [congruence | now apply IH].
  - now apply IH.
Qed.

(** *** A closed pool *)

Lemma step_closed op p :
  _closed p = true ->
  _closed (snd (step cfg op p)) = true
  /\ (forall r, fst (step cfg op p) = Some r -> r = Raised closed_error).
Proof.
  intros Hc. destruct op as [now ctor | now c | c h |]; simpl.
  - rewrite acquire_unfold, Hc. simpl. split; [exact Hc|]. now intros r [= <-].
  - split; [|discriminate]. unfold release.
    destruct (decide (c ∈ _busy p)); [|exact Hc].
    change (_closed (with_busy (_busy p ∖ {[c]}) p)) with (_closed p).
    rewrite Hc, andb_false_r. unfold semaphore_release. simpl.
    now destruct (_semaphore p).
  - split; [exact Hc | discriminate].
  - split; [reflexivity | discriminate].
Qed.

Lemma closed_acquire_fails ops p :
  _closed p = true ->
  Forall (fun r => r = Raised closed_error) (acquire_outcomes cfg ops p).
Proof.
  revert p. induction ops as [|op ops IH]; intros p Hc; simpl; [constructor|].
  destruct (step_closed op p Hc) as [Hc' Hr].
  destruct (step cfg op p) as [[r|] p']; simpl in *.
  - constructor; [now apply Hr | now apply IH].
  - now apply IH.
Qed.


(** *** The idle sweep *)

Lemma sweep_spec now p queue :
  forall to_close temp_idle to_close' temp_idle',
    sweep cfg now p queue to_close temp_idle = (to_close', temp_idle') ->
    exists closed kept,
      to_close' = to_close ++ closed /\ temp_idle' = temp_idle ++ kept
      /\ Permutation (closed ++ kept) queue
      /\ sublist kept queue
      /\ (forall c, c ∈ closed -> (max_idle_time cfg < idle_time now p c)%Z)
      /\ (forall c, c ∈ queue -> (idle_time now p c <= max_idle_time cfg)%Z -> c ∈ kept)
      /\ (closed = []
          \/ (min_connections cfg
               <= Z.of_nat (size (_connections p)) - Z.of_nat (length to_close'))%Z).
Proof.
  induction queue as [|conn rest IH]; intros to_close temp_idle to_close' temp_idle' H;
    simpl in H.
  - injection H as <- <-. exists [], []. rewrite !app_nil_r.
    split_and!;
      [reflexivity | reflexivity | reflexivity | constructor
       | intros c Hc; now apply elem_of_nil in Hc
       | intros c Hc; now apply elem_of_nil in Hc | now left].
  - destruct (idle_time now p conn >? max_idle_time cfg)%Z eqn:Hold;
      [destruct (Z.of_nat (size (_connections p)) - Z.of_nat (length to_close)
                 >? min_connections cfg)%Z eqn:Hroom|].
    + apply IH in H as (closed & kept & -> & -> & Hperm & Hsub & Hclosed & Hkept & Hmin).
      exists (conn :: closed), kept. split_and!.
      * now rewrite <- app_assoc.
      * reflexivity.
      * simpl. now apply perm_skip.
      * now apply sublist_cons.
      * intros c Hc. apply elem_of_cons in Hc as [->|Hc]; [lia | now apply Hclosed].
      * intros c Hc Hfresh. apply elem_of_cons in Hc as [->|Hc]; [lia | now apply Hkept].
      * right. destruct Hmin as [->|Hmin]; [|exact Hmin].
        rewrite app_nil_r, length_app. simpl. lia.
    + apply IH in H as (closed & kept & -> & -> & Hperm & Hsub & Hclosed & Hkept & Hmin).
      exists closed, (conn :: kept). split_and!.
      * reflexivity.
      * now rewrite <- app_assoc.
      * rewrite <- Permutation_middle. now apply perm_skip.
      * now apply sublist_skip.
      * exact Hclosed.
      * intros c Hc Hfresh. apply elem_of_cons in Hc as [->|Hc];
          [apply list_elem_of_here | apply list_elem_of_further; now apply Hkept].
      * exact Hmin.
    + apply IH in H as (closed & kept & -> & -> & Hperm & Hsub & Hclosed & Hkept & Hmin).
      exists closed, (conn :: kept). split_and!.
      * reflexivity.
      * now rewrite <- app_assoc.
      * rewrite <- Permutation_middle. now apply perm_skip.
      * now apply sublist_skip.
      * exact Hclosed.
      * intros c Hc Hfresh. apply elem_of_cons in Hc as [->|Hc];
          [apply list_elem_of_here | apply list_elem_of_further; now apply Hkept].
      * exact Hmin.
Qed.

(** The idle sweep keeps the pool sound: the bookkeeping still adds up,
    the connections in use and the permits are not touched, the idle
    connections that stay keep their order, a connection is closed only when
    it has been idle for longer than [max_idle_time], and the sweep does not
    take the pool below [min_connections]. *)
Theorem idle_cleanup_keeps_pool_sound now p :
  invariant cfg p ->
  let p' := _cleanup_idle_connections cfg now p in
  invariant cfg p'
  /\ _busy p' = _busy p /\ _semaphore p' = _semaphore p
  /\ sublist (_idle p') (_idle p)
  /\ (forall c, c ∈ _idle p -> (c ∉ _idle p') ->
        (max_idle_time cfg < idle_time now p c)%Z)
  /\ (forall c, c ∈ _idle p -> (idle_time now p c <= max_idle_time cfg)%Z -> c ∈ _idle p')
  /\ (Z.min (Z.of_nat (size (_connections p))) (min_connections cfg)
      <= Z.of_nat (size (_connections p')))%Z.
Proof.
  intros (I1 & I2 & I3 & I4 & I5 & I6 & I7 & I8). cbv zeta.
  unfold _cleanup_idle_connections.
  destruct (sweep cfg now p (_idle p) [] []) as [to_close temp_idle] eqn:Hsweep.
  apply sweep_spec in Hsweep
    as (closed & kept & -> & -> & Hperm & Hsub & Hclosed & Hkept & Hmin).
  simpl app in *.
  assert (Hnd : NoDup (closed ++ kept)) by now rewrite Hperm.
  apply NoDup_app in Hnd as (Hndc & Hdisj & Hndk).
  assert (Hin : forall c, c ∈ _idle p <-> c ∈ closed \/ c ∈ kept).
  { intros c. rewrite <- Hperm. apply elem_of_app. }
  assert (Hconn : _connections p ∖ list_to_set closed = list_to_set kept ∪ _busy p).
  { rewrite I5. apply set_eq. intros c.
    rewrite elem_of_difference, !elem_of_union, !elem_of_list_to_set, Hin.
    split.
    - intros [[[Hc|Hk]|Hb] Hnot]; tauto.
    - intros [Hk|Hb]; split; try tauto.
      + intros Hc. now apply (Hdisj c).
      + intros Hc. apply (I4 c); [apply Hin; now left | exact Hb]. }
  unfold invariant. simpl.
  split_and!.
  - intros c Hc. apply I1, Hin. now right.
  - exact I2.
  - exact Hndk.
  - intros c Hc. apply I4, Hin. now right.
  - exact Hconn.
  - apply sublist_length in Hsub. lia.
  - intros Hini. destruct (I7 Hini) as (Hidle & Hbusy & Hsem).
    rewrite Hidle in Hsub. apply sublist_nil_r in Hsub. now split_and!.
  - exact I8.
  - reflexivity.
  - reflexivity.
  - exact Hsub.
  - intros c Hc Hgone. apply Hclosed. apply Hin in Hc as [Hc|Hc]; [exact Hc | contradiction].
  - exact Hkept.
  - destruct Hmin as [->|Hmin].
    + simpl. rewrite difference_empty_L. lia.
    + rewrite size_difference.
      * rewrite size_list_to_set by exact Hndc. simpl in Hmin.
        assert (Hle : (length closed <= size (_connections p))%nat).
        { rewrite <- (size_list_to_set (C := gset nat) closed) by exact Hndc.
          apply subseteq_size. rewrite I5. intros c Hc.
          apply elem_of_list_to_set in Hc. apply elem_of_union. left.
          apply elem_of_list_to_set, Hin. now left. }
        lia.
      * rewrite I5. intros c Hc. apply elem_of_list_to_set in Hc.
        apply elem_of_union. left. apply elem_of_list_to_set, Hin. now left.
Qed.

(** *** At capacity, and below it *)

(** [acquire] on an open, initialized pool: with all [max_connections]
    in use it raises the timeout and changes nothing; below that, it hands
    out the connection that has been idle the longest and creates none, or,
    when none is idle, a connection it creates. *)
Theorem acquire_at_capacity now ctor p :
  invariant cfg p -> _closed p = false -> _initialized p = true ->
  (Z.of_nat (size (_busy p)) = max_connections cfg ->
   acquire cfg now ctor p
   = (Raised {| exc_class := TimeoutError_; exc_message := "" |}, p))
  /\ ((Z.of_nat (size (_busy p)) < max_connections cfg)%Z ->
      (forall conn rest,
          _idle p = conn :: rest ->
          fst (acquire cfg now ctor p) = Returned conn
          /\ _idle (snd (acquire cfg now ctor p)) = rest
          /\ next_id (snd (acquire cfg now ctor p)) = next_id p)
      /\ (_idle p = [] -> _authorizer_options p = true -> ctor = None ->
          fst (acquire cfg now ctor p) = Returned (next_id p)
          /\ next_id (snd (acquire cfg now ctor p)) = S (next_id p))).
Proof.
  intros Hinv Hopen Hini. destruct Hinv as (_ & _ & _ & _ & _ & _ & _ & I8).
  destruct (I8 Hopen Hini) as (permits & Hsem & Hperm).
  rewrite acquire_unfold, Hopen, Hini. unfold acquire_ready. rewrite Hsem.
  split.
  - intros Hfull. destruct (permits <=? 0)%Z eqn:E; [reflexivity | lia].
  - intros Hroom. destruct (permits <=? 0)%Z eqn:E; [lia|]. split.
    + intros conn rest Hidle. simpl. rewrite Hidle. now split_and!.
    + intros Hidle Hopt ->. simpl. rewrite Hidle.
      unfold _create_connection. simpl. rewrite Hopt. simpl. now split.
Qed.

(** The status adds up: the total is the idle and the busy connections
    together and is at most [max_connections]; the healthy connections are
    among them; and the pool reports itself unhealthy exactly when it has
    connections and none of them is healthy. *)
Theorem status_adds_up p :
  invariant cfg p ->
  let st := status cfg p in
  total st = (idle st + busy st)%Z
  /\ (total st <= max_connections cfg)%Z
  /\ (0 <= healthy_connections st <= total st)%Z
  /\ (status_healthy st = false <-> (0 < total st)%Z /\ healthy_connections st = 0%Z).
Proof.
  intros Hinv. pose proof (invariant_total p Hinv) as Htotal.
  destruct Hinv as (_ & _ & I3 & I4 & I5 & _). cbv zeta. unfold status, status_healthy.
  simpl.
  assert (Hsum : size (_connections p) = (length (_idle p) + size (_busy p))%nat).
  { rewrite I5, size_union.
    - now rewrite size_list_to_set.
    - intros c Hc Hc'. apply elem_of_list_to_set in Hc. now apply I4 in Hc. }
  assert (Hhealthy : (length (List.filter (is_healthy p) (elements (_connections p)))
                      <= size (_connections p))%nat).
  { unfold size, set_size. simpl. apply List.filter_length_le. }
  split_and!; lia.
Qed.

(** [async with pool.connection()], for a configuration as [config_ok]
    has it ([max_connections] not negative and, with [eager_init],
    [min_connections] at most [max_connections]): when the block is left,
    normally or by an exception, the connection is in use no longer and the
    pool is sound, and so is it when no connection could be had. *)
Theorem connection_gives_back {A : Type} now now' ctor
    (body : nat -> State -> Outcome A * State) p :
  invariant cfg p ->
  (forall conn p1,
      invariant cfg p1 ->
      invariant cfg (snd (body conn p1)) /\ _busy (snd (body conn p1)) = _busy p1) ->
  invariant cfg (snd (connection cfg now now' ctor body p))
  /\ _busy (snd (connection cfg now now' ctor body p)) = _busy p.
Proof.
  intros Hinv Hbody. unfold connection.
  pose proof (acquire_spec now ctor p Hinv) as Hpost.
  destruct (acquire cfg now ctor p) as [[conn|e] p1]; simpl in Hpost.
  - destruct Hpost as (Hinv1 & _ & _ & _ & _ & Hfresh & _ & Hbusy1 & _).
    destruct (Hbody conn p1 Hinv1) as [Hinv2 Hbusy2].
    destruct (body conn p1) as [result p2]. simpl in *.
    destruct (release_spec now' conn p2 Hinv2) as (Hinv3 & _ & _ & Hbusy3 & _).
    split; [exact Hinv3|]. rewrite Hbusy3, Hbusy2, Hbusy1. set_solver.
  - destruct Hpost as (Hinv1 & _ & _ & _ & Hbusy1). now split.
Qed.

End Invariant.

Lemma busy_semaphore_release (p : State) : _busy (semaphore_release p) = _busy p.
Proof. unfold semaphore_release. now destruct (_semaphore p). Qed.

(** Releasing a connection a second time does nothing: the connection is
    not put back twice and no second permit is given out. *)
Theorem release_twice_is_release_once now now' conn (p : State) :
  release now' conn (release now conn p) = release now conn p.
Proof.
  assert (Hgone : conn ∉ _busy (release now conn p)).
  { unfold release. destruct (decide (conn ∈ _busy p)) as [Hin|Hout]; [|exact Hout].
    rewrite busy_semaphore_release.
    change (is_healthy (with_busy (_busy p ∖ {[conn]}) p) conn) with (is_healthy p conn).
    change (_closed (with_busy (_busy p ∖ {[conn]}) p)) with (_closed p).
    destruct (is_healthy p conn && negb (_closed p)); simpl; set_solver. }
  unfold release at 1. now destruct (decide (conn ∈ _busy (release now conn p))).
Qed.



(** A pool of three with two idle connections, both idle for longer than
    [max_idle_time]: the sweep closes the older one and stops at
    [min_connections]. *)
Lemma idle_cleanup_keeps_pool_sound_witness :
  let cfg := {| min_connections := 1; max_connections := 3; max_idle_time := 300;
                idle_check_interval := 60; eager_init := false |} in
  let p := run cfg [Acquire 1 None; Acquire 2 None; Release 3 0; Release 4 1]
             (configured cfg) in
  let p' := _cleanup_idle_connections cfg 400 p in
  _idle p = [0; 1]%nat /\ _idle p' = [1]%nat
  /\ invariant cfg p' /\ _busy p' = _busy p /\ _semaphore p' = _semaphore p
  /\ sublist (_idle p') (_idle p)
  /\ (Z.min (Z.of_nat (size (_connections p))) (min_connections cfg)
      <= Z.of_nat (size (_connections p')))%Z.
Proof.
  intros cfg p p'.
  assert (Hcfg : config_ok cfg) by (split; simpl; [lia | discriminate]).
  assert (Hinv : invariant cfg p) by (apply run_invariant, invariant_new; exact Hcfg).
  destruct (idle_cleanup_keeps_pool_sound cfg 400 p Hinv)
    as (H1 & H2 & H3 & H4 & _ & _ & H7).
  split_and!.
  - vm_compute. reflexivity.
  - vm_compute. reflexivity.
  - exact H1.
  - exact H2.
  - exact H3.
  - exact H4.
  - exact H7.
Defined.

(** A pool of three with its three connections in use: the fourth
    [acquire] raises the timeout and changes nothing. *)
Lemma acquire_at_capacity_witness :
  let cfg := {| min_connections := 1; max_connections := 3; max_idle_time := 300;
                idle_check_interval := 60; eager_init := false |} in
  let p := run cfg [Acquire 1 None; Acquire 2 None; Acquire 3 None] (configured cfg) in
  acquire cfg 4 None p
  = (Raised {| exc_class := TimeoutError_; exc_message := "" |}, p).
Proof.
  intros cfg p.
  assert (Hcfg : config_ok cfg) by (split; simpl; [lia | discriminate]).
  assert (Hinv : invariant cfg p) by (apply run_invariant, invariant_new; exact Hcfg).
  assert (Hopen : _closed p = false) by (vm_compute; reflexivity).
  assert (Hini : _initialized p = true) by (vm_compute; reflexivity).
  destruct (acquire_at_capacity cfg 4 None p Hinv Hopen Hini) as [Hfull _].
  apply Hfull. vm_compute. reflexivity.
Defined.

(** One connection idle and one in use. *)
Lemma status_adds_up_witness :
  let cfg := {| min_connections := 1; max_connections := 3; max_idle_time := 300;
                idle_check_interval := 60; eager_init := false |} in
  let p := run cfg [Acquire 1 None; Acquire 2 None; Release 3 0] (configured cfg) in
  let st := status cfg p in
  (idle st = 1 /\ busy st = 1)%Z
  /\ total st = (idle st + busy st)%Z
  /\ (total st <= max_connections cfg)%Z
  /\ (0 <= healthy_connections st <= total st)%Z
  /\ (status_healthy st = false <-> (0 < total st)%Z /\ healthy_connections st = 0%Z).
Proof.
  intros cfg p st.
  assert (Hcfg : config_ok cfg) by (split; simpl; [lia | discriminate]).
  assert (Hinv : invariant cfg p) by (apply run_invariant, invariant_new; exact Hcfg).
  split.
  - split; vm_compute; reflexivity.
  - exact (status_adds_up cfg p Hinv).
Defined.

(** A block that marks its connection unhealthy and raises: the
    connection is given back all the same. *)
Lemma connection_gives_back_witness :
  let cfg := {| min_connections := 1; max_connections := 3; max_idle_time := 300;
                idle_check_interval := 60; eager_init := false |} in
  let p := run cfg [Acquire 1 None] (configured cfg) in
  let body := fun (conn : nat) (p1 : State) =>
                (@Raised bool {| exc_class := ValueError_; exc_message := "boom" |},
                 set_healthy conn false p1) in
  invariant cfg (snd (connection cfg 2 3 None body p))
  /\ _busy (snd (connection cfg 2 3 None body p)) = _busy p.
Proof.
  intros cfg p body.
  assert (Hcfg : config_ok cfg) by (split; simpl; [lia | discriminate]).
  assert (Hinv : invariant cfg p) by (apply run_invariant, invariant_new; exact Hcfg).
  apply (connection_gives_back cfg Hcfg 2 3 None body p Hinv).
  intros conn p1 Hinv1. split.
  - exact (run_invariant cfg Hcfg [SetHealthy conn false] p1 Hinv1).
  - reflexivity.
Defined.

End PoolFacts.

Module HierarchyFacts.
Import PyExc Hierarchy.

Section WithEngine.
Context {Request World : Type}.
Variable path_param : Request -> string -> option string.
Variable header : Request -> string -> option string.
Variable query_param : Request -> string -> option string.
Variable check_relation :
  Request -> string -> string -> string -> string -> World -> Outcome bool * World.

Local Abbreviation _resolve_id_source :=
  (@Hierarchy._resolve_id_source Request path_param header query_param).
Local Abbreviation sequential_loop :=
  (@Hierarchy.sequential_loop Request World path_param header query_param check_relation).
Local Abbreviation _check_hierarchy_sequential :=
  (@Hierarchy._check_hierarchy_sequential Request World path_param header query_param
     check_relation).
Local Abbreviation gather_run :=
  (@Hierarchy.gather_run Request World path_param header query_param check_relation).
Local Abbreviation _check_hierarchy_concurrent :=
  (@Hierarchy._check_hierarchy_concurrent Request World path_param header query_param
     check_relation).
Local Abbreviation check_hierarchy :=
  (@Hierarchy.check_hierarchy Request World path_param header query_param check_relation).
Local Abbreviation answers := (@Hierarchy.answers Request path_param header query_param).
Local Abbreviation in_input_order :=
  (@Hierarchy.in_input_order Request path_param header query_param).
Local Abbreviation never_raises := (@Hierarchy.never_raises Request World check_relation).
Local Abbreviation ran :=
  (@Hierarchy.ran Request World path_param header query_param check_relation).
Local Abbreviation first_denied :=
  (@Hierarchy.first_denied Request path_param header query_param).
Local Abbreviation first_allowed :=
  (@Hierarchy.first_allowed Request path_param header query_param).

Implicit Types (request : Request) (w : World) (r : HierarchyResult)
  (results : list Row) (todo : list (@Check Request)).

(** *** The sequential loop *)

Lemma sequential_loop_shape (stop : bool -> bool) request mode subject_type :
  stops stop mode ->
  forall todo results w r w',
    sequential_loop request todo mode subject_type results w = (Returned r, w') ->
    exists new,
      checks r = results ++ new
      /\ Forall2 (answers request) new (firstn (length new) todo)
      /\ ((Forall (fun row => stop (row_allowed row) = false) new
           /\ length new = length todo
           /\ allowed r = String.eqb mode "all"
           /\ denied_at r = None /\ first_match r = None)
          \/ (exists pre row,
                new = pre ++ [row]
                /\ Forall (fun row => stop (row_allowed row) = false) pre
                /\ stop (row_allowed row) = true
                /\ allowed r = row_allowed row
                /\ denied_at r =
                     (if String.eqb mode "all" then Some (row_type row) else None)
                /\ first_match r =
                     (if String.eqb mode "all" then None
                      else if String.eqb mode "any" then None
                      else Some (row_relation row)))).
Proof.
  intros Hstop. induction todo as [|check rest IH]; intros results w r w' H; simpl in H.
  - exists []. rewrite app_nil_r.
    destruct (String.eqb mode "all") eqn:Em; injection H as <- <-; simpl;
      (split_and!; [reflexivity | constructor |]); left; split_and!; try done.
  - destruct (check_relation request (check_type check)
                (_resolve_id_source (check_id_source check) request)
                (check_relation_name check) subject_type w) as [[a|e] w1] eqn:Hcall;
      [|discriminate].
    set (row := {| row_type := check_type check;
                   row_id := _resolve_id_source (check_id_source check) request;
                   row_relation := check_relation_name check; row_allowed := a |}) in *.
    assert (Hrow : answers request row check) by (split_and!; reflexivity).
    pose proof (Hstop a) as Hs.
    destruct (String.eqb mode "all" && negb a) eqn:E1;
      [|destruct (String.eqb mode "any" && a) eqn:E2;
        [|destruct (String.eqb mode "first_match" && a) eqn:E3]].
    + injection H as <- <-. simpl. exists [row]. split_and!; [reflexivity | now constructor |].
      right. exists [], row. apply andb_prop in E1 as [E1 Ea]. rewrite E1.
      apply negb_true_iff in Ea.
      split_and!; try done; simpl; now rewrite Ea.
    + injection H as <- <-. simpl. exists [row]. split_and!; [reflexivity | now constructor |].
      right. exists [], row. apply andb_prop in E2 as [E2 Ea]. rewrite E2.
      apply String.eqb_eq in E2. subst mode. simpl in *.
      split_and!; try done.
    + injection H as <- <-. simpl. exists [row]. split_and!; [reflexivity | now constructor |].
      right. exists [], row. apply andb_prop in E3 as [E3 Ea].
      apply String.eqb_eq in E3. subst mode. simpl in *.
      split_and!; try done.
    + apply IH in H as (new & Hchecks & Halign & Hcases).
      exists (row :: new). rewrite Hchecks, <- app_assoc. simpl.
      split_and!; [reflexivity | now constructor |].
      destruct Hcases as [(Hall & Hlen & Ha & Hd & Hf) | (pre & last & -> & Hpre & Hlast & Ha & Hd & Hf)].
      * left. split_and!; try done; [constructor; [simpl; congruence | done] | simpl; lia].
      * right. exists (row :: pre), last.
        split_and!; try done. constructor; [simpl; congruence | done].
Qed.

Lemma sequential_loop_short_circuit request mode subject_type todo1 todo2 :
  forall results w r w' relation,
    sequential_loop request todo1 mode subject_type results w = (Returned r, w') ->
    first_match r = Some relation ->
    sequential_loop request (todo1 ++ todo2) mode subject_type results w = (Returned r, w').
Proof.
  induction todo1 as [|check rest IH]; intros results w r w' relation H Hf; simpl in H.
  - destruct (String.eqb mode "all"); injection H as <- <-; discriminate.
  - simpl.
    destruct (check_relation request (check_type check)
                (_resolve_id_source (check_id_source check) request)
                (check_relation_name check) subject_type w) as [[a|e] w1];
      [|discriminate].
    destruct (String.eqb mode "all" && negb a); [exact H|].
    destruct (String.eqb mode "any" && a); [exact H|].
    destruct (String.eqb mode "first_match" && a); [exact H|].
    now apply (IH _ _ _ _ relation).
Qed.

(** *** The concurrent run *)

Lemma gather_run_spec request checks_ subject_type schedule :
  forall rows raised w rows' raised' w',
    gather_run schedule request checks_ subject_type rows raised w = (rows', raised', w') ->
    (forall i row, rows' !! i = Some row ->
       rows !! i = Some row
       \/ exists check, checks_ !! i = Some check /\ answers request row check)
    /\ (forall i, is_Some (rows !! i) -> is_Some (rows' !! i))
    /\ (raised' = None ->
        raised = None
        /\ forall i, i ∈ schedule -> (i < length checks_)%nat -> is_Some (rows' !! i)).
Proof.
  induction schedule as [|i rest IH]; intros rows raised w rows' raised' w' H; simpl in H.
  - injection H as <- <- <-. split_and!; [now left | done |].
    intros ->. split; [reflexivity|]. intros i Hi. now apply elem_of_nil in Hi.
  - destruct (checks_ !! i) as [check|] eqn:Hcheck.
    + destruct (check_relation request (check_type check)
                  (Hierarchy._resolve_id_source path_param header query_param
                     (check_id_source check) request)
                  (check_relation_name check) subject_type w) as [[a|e] w1].
      * apply IH in H as (H1 & H2 & H3). split_and!.
        -- intros j row Hj. destruct (H1 j row Hj) as [Hin|Hex]; [|now right].
           destruct (decide (i = j)) as [->|Hne].
           ++ rewrite lookup_insert_eq in Hin. injection Hin as <-.
              right. exists check. split; [exact Hcheck | split_and!; reflexivity].
           ++ rewrite lookup_insert_ne in Hin by exact Hne. now left.
        -- intros j Hj. apply H2. destruct (decide (i = j)) as [->|Hne].
           ++ rewrite lookup_insert_eq. eauto.
           ++ now rewrite lookup_insert_ne.
        -- intros Hnone. destruct (H3 Hnone) as [Hr Hall]. split; [exact Hr|].
           intros j Hj Hlt. apply elem_of_cons in Hj as [->|Hj]; [|now apply Hall].
           apply H2. rewrite lookup_insert_eq. eauto.
      * apply IH in H as (H1 & H2 & H3). split_and!; [exact H1 | exact H2 |].
        intros Hnone. destruct (H3 Hnone) as [Hr _]. now destruct raised.
    + apply IH in H as (H1 & H2 & H3). split_and!; [exact H1 | exact H2 |].
      intros Hnone. destruct (H3 Hnone) as [Hr Hall]. split; [exact Hr|].
      intros j Hj Hlt. apply elem_of_cons in Hj as [->|Hj]; [|now apply Hall].
      apply lookup_lt_is_Some_2 in Hlt. rewrite Hcheck in Hlt. now destruct Hlt.
Qed.

Lemma gathered_in_order request checks_ (rows : gmap nat Row) :
  (forall i, (i < length checks_)%nat ->
     exists row check,
       rows !! i = Some row /\ checks_ !! i = Some check /\ answers request row check) ->
  forall k, (k <= length checks_)%nat ->
    Forall2 (answers request) (gathered rows k) (firstn k checks_).
Proof.
  intros Hrows. induction k as [|k IH]; intros Hk.
  - constructor.
  - destruct (Hrows k) as (row & check & Hrow & Hcheck & Hans); [lia|].
    unfold gathered. rewrite seq_S, omap_app. simpl. rewrite Hrow.
    rewrite (take_S_r _ _ _ Hcheck).
    apply Forall2_app; [apply IH; lia | constructor; [exact Hans | constructor]].
Qed.

Lemma concurrent_rows request checks_ subject_type schedule w rows w' :
  fair schedule checks_ ->
  gather_run schedule request checks_ subject_type ∅ None w = (rows, None, w') ->
  Forall2 (answers request) (gathered rows (length checks_)) checks_.
Proof.
  intros Hfair H. apply gather_run_spec in H as (H1 & _ & H3).
  destruct (H3 eq_refl) as [_ Hall].
  rewrite <- (firstn_all checks_) at 2.
  apply gathered_in_order; [|lia].
  intros i Hi.
  assert (Hin : i ∈ schedule).
  { unfold fair in Hfair. rewrite Hfair. apply elem_of_seq. lia. }
  destruct (Hall i Hin Hi) as [row Hrow].
  destruct (H1 i row Hrow) as [Hempty | (check & Hcheck & Hans)].
  - now rewrite lookup_empty in Hempty.
  - now exists row, check.
Qed.

(** *** A result is returned when no check raises *)

Lemma sequential_loop_returns request mode subject_type :
  never_raises ->
  forall todo results w,
  exists r w', sequential_loop request todo mode subject_type results w = (Returned r, w').
Proof.
  intros Hnr. induction todo as [|check rest IH]; intros results w; simpl.
  - destruct (String.eqb mode "all"); eauto.
  - destruct (Hnr request (check_type check)
                (_resolve_id_source (check_id_source check) request)
                (check_relation_name check) subject_type w) as (a & w1 & ->).
    destruct (String.eqb mode "all" && negb a); [eauto|].
    destruct (String.eqb mode "any" && a); [eauto|].
    destruct (String.eqb mode "first_match" && a); [eauto|].
    apply IH.
Qed.

Lemma gather_run_returns request checks_ subject_type :
  never_raises ->
  forall schedule rows w,
  exists rows' w',
    gather_run schedule request checks_ subject_type rows None w = (rows', None, w').
Proof.
  intros Hnr. induction schedule as [|i rest IH]; intros rows w; simpl; [eauto|].
  destruct (checks_ !! i) as [check|]; [|apply IH].
  destruct (Hnr request (check_type check)
              (_resolve_id_source (check_id_source check) request)
              (check_relation_name check) subject_type w) as (a & w1 & ->).
  apply IH.
Qed.

Lemma check_hierarchy_returns schedule request checks_ mode subject_type optimize w :
  never_raises ->
  exists r w',
    check_hierarchy schedule request checks_ mode subject_type optimize w = (Returned r, w').
Proof.
  intros Hnr. unfold Hierarchy.check_hierarchy.
  destruct (String.eqb mode "first_match" || negb optimize).
  - now apply sequential_loop_returns.
  - unfold Hierarchy._check_hierarchy_concurrent.
    destruct (gather_run_returns request checks_ subject_type Hnr schedule ∅ w)
      as (rows & w' & ->).
    destruct (String.eqb mode "all"); [|eauto].
    destruct (List.find _ _); eauto.
Qed.

(** *** Lists of rows *)

Lemma find_skip (P : Row -> bool) (pre l : list Row) :
  Forall (fun row => P row = false) pre -> List.find P (pre ++ l) = List.find P l.
Proof.
  induction 1 as [|row pre Hrow _ IH]; simpl; [reflexivity|]. now rewrite Hrow.
Qed.

Lemma find_none_all (P : Row -> bool) (l : list Row) :
  Forall (fun row => P row = false) l -> List.find P l = None.
Proof.
  intros H. rewrite <- (app_nil_r l). now rewrite find_skip.
Qed.

Lemma existsb_none (P : Row -> bool) (l : list Row) :
  Forall (fun row => P row = false) l -> existsb P l = false.
Proof. induction 1 as [|row l Hrow _ IH]; simpl; [reflexivity|]. now rewrite Hrow. Qed.

Lemma existsb_last (P : Row -> bool) (pre : list Row) (row : Row) :
  P row = true -> existsb P (pre ++ [row]) = true.
Proof. intros H. rewrite existsb_app. simpl. rewrite H. apply orb_true_iff. right. reflexivity. Qed.

Lemma forallb_negb_none (l : list Row) :
  Forall (fun row => negb (row_allowed row) = false) l -> forallb row_allowed l = true.
Proof.
  induction 1 as [|row l Hrow _ IH]; simpl; [reflexivity|].
  apply negb_false_iff in Hrow. now rewrite Hrow.
Qed.

Lemma forallb_denied_last (pre : list Row) (row : Row) :
  negb (row_allowed row) = true -> forallb row_allowed (pre ++ [row]) = false.
Proof.
  intros H. apply negb_true_iff in H. rewrite forallb_app. simpl. rewrite H.
  now rewrite andb_false_r.
Qed.

Lemma forallb_find_denied (l : list Row) :
  forallb row_allowed l
  = match List.find (fun row => negb (row_allowed row)) l with
    | Some _ => false
    | None => true
    end.
Proof.
  induction l as [|row l IH]; simpl; [reflexivity|].
  destruct (row_allowed row); simpl; [exact IH | reflexivity].
Qed.

Lemma in_input_order_full request results (checks_ : list (@Check Request)) :
  Forall2 (answers request) results checks_ -> in_input_order request results checks_.
Proof.
  intros H. unfold Hierarchy.in_input_order.
  rewrite (Forall2_length _ _ _ H), firstn_all. exact H.
Qed.

(** *** What was run, and in which world *)

Lemma sequential_loop_ran request mode subject_type :
  forall todo done results w r w',
    length done = length results ->
    sequential_loop request todo mode subject_type results w = (Returned r, w') ->
    exists new,
      checks r = results ++ new
      /\ ran request subject_type (done ++ todo) (checks r)
           (seq (length results) (length new)) w w'.
Proof.
  induction todo as [|check rest IH]; intros done results w r w' Hlen H; simpl in H.
  - exists []. rewrite app_nil_r.
    destruct (String.eqb mode "all"); injection H as <- <-; now split.
  - destruct (check_relation request (check_type check)
                (_resolve_id_source (check_id_source check) request)
                (check_relation_name check) subject_type w) as [[a|e] w1] eqn:Hcall;
      [|discriminate].
    set (row := {| row_type := check_type check;
                   row_id := _resolve_id_source (check_id_source check) request;
                   row_relation := check_relation_name check; row_allowed := a |}) in *.
    assert (Hrow : answers request row check) by (split_and!; reflexivity).
    assert (Hstop : forall r0 : HierarchyResult,
               checks r0 = results ++ [row] ->
               ran request subject_type (done ++ check :: rest) (checks r0)
                 (seq (length results) 1) w w1).
    { intros r0 Hchecks. simpl. exists check, row, w1. split_and!.
      - now apply list_lookup_middle.
      - rewrite Hchecks. now apply list_lookup_middle.
      - exact Hrow.
      - exact Hcall.
      - reflexivity. }
    destruct (String.eqb mode "all" && negb a);
      [|destruct (String.eqb mode "any" && a);
        [|destruct (String.eqb mode "first_match" && a)]];
      try (injection H as <- <-; exists [row]; split; [reflexivity | now apply Hstop]).
    apply (IH (done ++ [check])) in H as (new & Hchecks & Hran);
      [|rewrite !length_app; simpl; lia].
    exists (row :: new). rewrite Hchecks in Hran |- *.
    rewrite <- !app_assoc in Hran. rewrite <- app_assoc.
    rewrite length_app, Nat.add_1_r in Hran. simpl in Hran.
    split; [reflexivity|].
    simpl. exists check, row, w1. split_and!.
    + now apply list_lookup_middle.
    + now apply list_lookup_middle.
    + exact Hrow.
    + exact Hcall.
    + exact Hran.
Qed.

Lemma gather_run_frame request checks_ subject_type schedule :
  forall rows raised w rows' raised' w' j,
    gather_run schedule request checks_ subject_type rows raised w = (rows', raised', w') ->
    j ∉ schedule -> rows' !! j = rows !! j.
Proof.
  induction schedule as [|i rest IH]; intros rows raised w rows' raised' w' j H Hj;
    simpl in H.
  - now injection H as <- <- <-.
  - apply not_elem_of_cons in Hj as [Hne Hj].
    destruct (checks_ !! i) as [check|]; [|exact (IH _ _ _ _ _ _ _ H Hj)].
    destruct (check_relation request (check_type check)
                (Hierarchy._resolve_id_source path_param header query_param
                   (check_id_source check) request)
                (check_relation_name check) subject_type w) as [[a|e] w1].
    + rewrite (IH _ _ _ _ _ _ _ H Hj). now apply lookup_insert_ne.
    + exact (IH _ _ _ _ _ _ _ H Hj).
Qed.

Lemma gather_run_ran request checks_ subject_type (final : list Row) :
  forall schedule rows raised w rows' w',
    NoDup schedule ->
    (forall i, i ∈ schedule -> (i < length checks_)%nat) ->
    gather_run schedule request checks_ subject_type rows raised w = (rows', None, w') ->
    (forall i, i ∈ schedule -> final !! i = rows' !! i) ->
    ran request subject_type checks_ final schedule w w'.
Proof.
  induction schedule as [|i rest IH]; intros rows raised w rows' w' Hnd Hlt H Hfinal;
    simpl in H.
  - injection H as _ _ <-. reflexivity.
  - apply NoDup_cons in Hnd as [Hi Hnd].
    destruct (checks_ !! i) as [check|] eqn:Hcheck.
    + destruct (check_relation request (check_type check)
                  (Hierarchy._resolve_id_source path_param header query_param
                     (check_id_source check) request)
                  (check_relation_name check) subject_type w) as [[a|e] w1] eqn:Hcall.
      * set (row := {| row_type := check_type check;
                       row_id := Hierarchy._resolve_id_source path_param header query_param
                                   (check_id_source check) request;
                       row_relation := check_relation_name check;
                       row_allowed := a |}) in *.
        simpl. exists check, row, w1. split_and!.
        -- exact Hcheck.
        -- rewrite Hfinal by apply list_elem_of_here.
           rewrite (gather_run_frame _ _ _ _ _ _ _ _ _ _ _ H Hi).
           apply lookup_insert_eq.
        -- split_and!; reflexivity.
        -- exact Hcall.
        -- apply (IH (<[i := row]> rows) raised w1 rows' w' Hnd).
           ++ intros j Hj. apply Hlt. now apply list_elem_of_further.
           ++ exact H.
           ++ intros j Hj. apply Hfinal. now apply list_elem_of_further.
      * apply gather_run_spec in H as (_ & _ & H3).
        destruct (H3 eq_refl) as [Hnone _]. now destruct raised.
    + assert (Hbound : (i < length checks_)%nat) by apply Hlt, list_elem_of_here.
      apply lookup_lt_is_Some_2 in Hbound. rewrite Hcheck in Hbound. now destruct Hbound.
Qed.

Lemma gathered_full (rows : gmap nat Row) (n : nat) :
  (forall i, (i < n)%nat -> is_Some (rows !! i)) ->
  length (gathered rows n) = n
  /\ forall i, (i < n)%nat -> gathered rows n !! i = rows !! i.
Proof.
  induction n as [|n IH]; intros Hrows.
  - split; [reflexivity | intros i Hi; lia].
  - destruct IH as [Hlen Hlookup]; [intros i Hi; apply Hrows; lia|].
    destruct (Hrows n) as [row Hrow]; [lia|].
    unfold gathered in *. rewrite seq_S, omap_app. simpl. rewrite Hrow.
    split.
    + rewrite length_app, Hlen. simpl. lia.
    + intros i Hi. destruct (decide (i = n)) as [->|Hne].
      * rewrite Hrow. now apply list_lookup_middle.
      * rewrite lookup_app_l by lia. apply Hlookup. lia.
Qed.

Lemma concurrent_ran request checks_ subject_type schedule w rows w' :
  fair schedule checks_ ->
  gather_run schedule request checks_ subject_type ∅ None w = (rows, None, w') ->
  ran request subject_type checks_ (gathered rows (length checks_)) schedule w w'.
Proof.
  intros Hfair H.
  assert (Hin : forall i, i ∈ schedule <-> (i < length checks_)%nat).
  { intros i. unfold fair in Hfair. rewrite Hfair, elem_of_seq. lia. }
  assert (Hnd : NoDup schedule).
  { unfold fair in Hfair. rewrite Hfair. apply NoDup_seq. }
  pose proof (gather_run_spec _ _ _ _ _ _ _ _ _ _ H) as (_ & _ & H3).
  destruct (H3 eq_refl) as [_ Hall].
  destruct (gathered_full rows (length checks_)) as [_ Hlookup].
  { intros i Hi. apply Hall; [now apply Hin | exact Hi]. }
  apply gather_run_ran with (rows := ∅) (raised := None) (rows' := rows).
  - exact Hnd.
  - intros i Hi. now apply Hin.
  - exact H.
  - intros i Hi. apply Hlookup. now apply Hin.
Qed.

(** *** The first row that failed, and the first that passed *)

Lemma find_split (P : Row -> bool) (l : list Row) (row : Row) :
  List.find P l = Some row ->
  exists pre post,
    l = pre ++ row :: post /\ Forall (fun x => P x = false) pre /\ P row = true.
Proof.
  induction l as [|x l IH]; simpl; [discriminate|].
  destruct (P x) eqn:Hx.
  - intros [= ->]. exists [], l. now split_and!.
  - intros H. destruct (IH H) as (pre & post & -> & Hpre & Hrow).
    exists (x :: pre), post. split_and!; [reflexivity | now constructor | exact Hrow].
Qed.

Lemma in_input_order_at request (pre post : list Row) (row : Row)
    (checks_ : list (@Check Request)) :
  in_input_order request (pre ++ row :: post) checks_ ->
  exists check, checks_ !! length pre = Some check /\ answers request row check.
Proof.
  unfold Hierarchy.in_input_order. intros H.
  destruct (Forall2_lookup_l _ _ _ (length pre) row H) as (check & Hcheck & Hrow).
  { now apply list_lookup_middle. }
  exists check. split; [|exact Hrow].
  apply lookup_take_Some in Hcheck. tauto.
Qed.

Lemma first_denied_find request (rows : list Row) (checks_ : list (@Check Request)) row :
  in_input_order request rows checks_ ->
  List.find (fun row => negb (row_allowed row)) rows = Some row ->
  exists check, first_denied request rows checks_ row check.
Proof.
  intros Horder Hfind.
  apply find_split in Hfind as (pre & post & -> & Hpre & Hrow).
  destruct (in_input_order_at _ _ _ _ _ Horder) as (check & Hcheck & Hans).
  exists check, pre, post. split_and!; try done.
  - eapply Forall_impl; [exact Hpre|]. intros x Hx. now apply negb_false_iff in Hx.
  - now apply negb_true_iff in Hrow.
Qed.

Lemma first_allowed_find request (rows : list Row) (checks_ : list (@Check Request)) row :
  in_input_order request rows checks_ ->
  List.find row_allowed rows = Some row ->
  exists check, first_allowed request rows checks_ row check.
Proof.
  intros Horder Hfind.
  apply find_split in Hfind as (pre & post & -> & Hpre & Hrow).
  destruct (in_input_order_at _ _ _ _ _ Horder) as (check & Hcheck & Hans).
  now exists check, pre, post.
Qed.

(** *** The three modes *)

Lemma stops_all : stops (fun a => negb a) "all".
Proof. intros a. simpl. now destruct a. Qed.

Lemma stops_any : stops (fun a => a) "any".
Proof. intros a. simpl. now destruct a. Qed.

Lemma stops_first_match : stops (fun a => a) "first_match".
Proof. intros a. simpl. now destruct a. Qed.

Lemma sequential_all request checks_ subject_type w r w' :
  _check_hierarchy_sequential request checks_ "all" subject_type w = (Returned r, w') ->
  in_input_order request (checks r) checks_
  /\ allowed r = forallb row_allowed (checks r)
  /\ denied_at r
     = option_map row_type (List.find (fun row => negb (row_allowed row)) (checks r)).
Proof.
  intros H.
  apply (sequential_loop_shape _ _ _ _ stops_all) in H as (new & Hchecks & Halign & Hcases).
  simpl in Hchecks. rewrite Hchecks. split; [exact Halign|].
  destruct Hcases as [(Hall & _ & Ha & Hd & _) | (pre & row & -> & Hpre & Hrow & Ha & Hd & _)].
  - rewrite Ha, Hd, forallb_negb_none, find_none_all by exact Hall. now split.
  - rewrite Ha, Hd, forallb_denied_last, find_skip by assumption. simpl. rewrite Hrow.
    apply negb_true_iff in Hrow. now split.
Qed.

Lemma sequential_any request checks_ mode subject_type w r w' :
  mode = "any" \/ mode = "first_match" ->
  _check_hierarchy_sequential request checks_ mode subject_type w = (Returned r, w') ->
  in_input_order request (checks r) checks_
  /\ allowed r = existsb row_allowed (checks r)
  /\ (allowed r = true ->
      exists pre row,
        checks r = pre ++ [row]
        /\ Forall (fun x => row_allowed x = false) pre /\ row_allowed row = true)
  /\ first_match r
     = if String.eqb mode "any" then None
       else option_map row_relation (List.find row_allowed (checks r)).
Proof.
  intros Hmode H.
  assert (Hstops : stops (fun a => a) mode)
    by (destruct Hmode as [-> | ->]; [apply stops_any | apply stops_first_match]).
  apply (sequential_loop_shape _ _ _ _ Hstops) in H as (new & Hchecks & Halign & Hcases).
  simpl in Hchecks. rewrite Hchecks. split; [exact Halign|].
  destruct Hcases as [(Hall & _ & Ha & _ & Hf) | (pre & row & -> & Hpre & Hrow & Ha & _ & Hf)].
  - rewrite Ha, Hf, existsb_none, find_none_all by exact Hall.
    destruct Hmode as [-> | ->]; simpl; (split_and!; [reflexivity | discriminate | reflexivity]).
  - rewrite Ha, Hf, existsb_last, find_skip by assumption. simpl. rewrite Hrow.
    split_and!; [reflexivity | intros _; now exists pre, row |].
    destruct Hmode as [-> | ->]; reflexivity.
Qed.

Lemma concurrent_all_any request checks_ mode subject_type schedule w r w' :
  fair schedule checks_ ->
  _check_hierarchy_concurrent schedule request checks_ mode subject_type w = (Returned r, w') ->
  Forall2 (answers request) (checks r) checks_
  /\ (mode = "all" ->
      allowed r = forallb row_allowed (checks r)
      /\ denied_at r
         = option_map row_type (List.find (fun row => negb (row_allowed row)) (checks r)))
  /\ (mode = "any" -> allowed r = existsb row_allowed (checks r)).
Proof.
  intros Hfair H. unfold Hierarchy._check_hierarchy_concurrent in H.
  destruct (gather_run schedule request checks_ subject_type ∅ None w)
    as [[rows [e|]] w1] eqn:Hrun; [discriminate|].
  pose proof (concurrent_rows _ _ _ _ _ _ _ Hfair Hrun) as Hrows.
  destruct (String.eqb mode "all") eqn:Em.
  - destruct (List.find _ _) as [row|] eqn:Hfind; injection H as <- <-; simpl;
      (split_and!; [exact Hrows | | intros ->; discriminate]);
      intros _; rewrite forallb_find_denied, Hfind; now split.
  - injection H as <- <-. simpl.
    split_and!; [exact Hrows | intros ->; discriminate | reflexivity].
Qed.

(** *** The modes, with what was run *)

Lemma sequential_ran request checks_ mode subject_type w r w' :
  _check_hierarchy_sequential request checks_ mode subject_type w = (Returned r, w') ->
  ran request subject_type checks_ (checks r) (seq 0 (length (checks r))) w w'.
Proof.
  intros H.
  apply (sequential_loop_ran _ _ _ _ []) in H as (new & Hchecks & Hran); [|reflexivity].
  simpl in Hchecks, Hran. now rewrite Hchecks in Hran |- *.
Qed.

Lemma concurrent_result request checks_ mode subject_type schedule w r w' :
  _check_hierarchy_concurrent schedule request checks_ mode subject_type w = (Returned r, w') ->
  exists rows,
    gather_run schedule request checks_ subject_type ∅ None w = (rows, None, w')
    /\ checks r = gathered rows (length checks_).
Proof.
  unfold Hierarchy._check_hierarchy_concurrent.
  destruct (gather_run schedule request checks_ subject_type ∅ None w)
    as [[rows [e|]] w1]; [discriminate|].
  intros H. exists rows.
  destruct (String.eqb mode "all").
  - destruct (List.find _ _); now injection H as <- <-.
  - now injection H as <- <-.
Qed.

Lemma sequential_all_stops request checks_ subject_type w r w' :
  _check_hierarchy_sequential request checks_ "all" subject_type w = (Returned r, w') ->
  (allowed r = true -> length (checks r) = length checks_)
  /\ (allowed r = false ->
      exists pre row,
        checks r = pre ++ [row]
        /\ Forall (fun x => row_allowed x = true) pre /\ row_allowed row = false).
Proof.
  intros H.
  apply (sequential_loop_shape _ _ _ _ stops_all) in H as (new & Hchecks & Halign & Hcases).
  simpl in Hchecks. rewrite Hchecks.
  destruct Hcases as [(Hall & Hlen & Ha & _) | (pre & row & -> & Hpre & Hrow & Ha & _)].
  - split; [intros _; exact Hlen | intros Hfalse; rewrite Ha in Hfalse; discriminate].
  - apply negb_true_iff in Hrow. split.
    + intros Htrue. congruence.
    + intros _. exists pre, row. split_and!; [reflexivity | | exact Hrow].
      eapply Forall_impl; [exact Hpre|]. intros x Hx. now apply negb_false_iff in Hx.
Qed.

Lemma sequential_any_stops request checks_ mode subject_type w r w' :
  mode = "any" \/ mode = "first_match" ->
  _check_hierarchy_sequential request checks_ mode subject_type w = (Returned r, w') ->
  (allowed r = false -> length (checks r) = length checks_ /\ first_match r = None)
  /\ (allowed r = true ->
      exists pre row check,
        checks r = pre ++ [row]
        /\ Forall (fun x => row_allowed x = false) pre /\ row_allowed row = true
        /\ checks_ !! length pre = Some check /\ answers request row check
        /\ (mode = "first_match" -> first_match r = Some (check_relation_name check))).
Proof.
  intros Hmode H.
  assert (Hstops : stops (fun a => a) mode)
    by (destruct Hmode as [-> | ->]; [apply stops_any | apply stops_first_match]).
  apply (sequential_loop_shape _ _ _ _ Hstops) in H as (new & Hchecks & Halign & Hcases).
  simpl in Hchecks. rewrite Hchecks.
  destruct Hcases as [(Hall & Hlen & Ha & _ & Hf) | (pre & row & -> & Hpre & Hrow & Ha & _ & Hf)].
  - split; [intros _; now split|].
    intros Htrue. rewrite Ha in Htrue. destruct Hmode as [-> | ->]; discriminate.
  - split; [intros Hfalse; congruence|]. intros _.
    destruct (in_input_order_at request pre [] row checks_ Halign) as (check & Hcheck & Hans).
    exists pre, row, check. split_and!; try done.
    intros ->. rewrite Hf. simpl. destruct Hans as (_ & Hrel & _). now rewrite Hrel.
Qed.

Lemma check_hierarchy_all_spec request checks_ subject_type schedule optimize w r w' :
  fair schedule checks_ ->
  check_hierarchy schedule request checks_ "all" subject_type optimize w = (Returned r, w') ->
  in_input_order request (checks r) checks_
  /\ ran request subject_type checks_ (checks r)
       (if optimize then schedule else seq 0 (length (checks r))) w w'
  /\ allowed r = forallb row_allowed (checks r)
  /\ (allowed r = true -> length (checks r) = length checks_)
  /\ denied_at r
     = option_map row_type (List.find (fun row => negb (row_allowed row)) (checks r))
  /\ (allowed r = false ->
      exists row check,
        first_denied request (checks r) checks_ row check
        /\ denied_at r = Some (check_type check))
  /\ (optimize = true -> length (checks r) = length checks_)
  /\ (optimize = false -> allowed r = false ->
      exists pre row,
        checks r = pre ++ [row]
        /\ Forall (fun x => row_allowed x = true) pre /\ row_allowed row = false).
Proof.
  intros Hfair H. unfold Hierarchy.check_hierarchy in H. simpl in H.
  assert (Hdenied : in_input_order request (checks r) checks_ ->
            allowed r = forallb row_allowed (checks r) ->
            denied_at r
            = option_map row_type
                (List.find (fun row => negb (row_allowed row)) (checks r)) ->
            allowed r = false ->
            exists row check,
              first_denied request (checks r) checks_ row check
              /\ denied_at r = Some (check_type check)).
  { intros Horder Ha Hd Hfalse. rewrite forallb_find_denied, Hfalse in Ha.
    destruct (List.find (fun row => negb (row_allowed row)) (checks r)) as [row|] eqn:Hfind;
      [|discriminate].
    destruct (first_denied_find _ _ _ _ Horder Hfind) as (check & Hfirst).
    exists row, check. split; [exact Hfirst|].
    destruct Hfirst as (pre & post & _ & _ & _ & _ & (Htype & _)).
    rewrite Hd. simpl. now rewrite Htype. }
  destruct optimize; simpl in H.
  - destruct (concurrent_all_any _ _ _ _ _ _ _ _ Hfair H) as (Hrows & Hall & _).
    destruct (Hall eq_refl) as [Ha Hd].
    destruct (concurrent_result _ _ _ _ _ _ _ _ H) as (rows & Hrun & Hchecks).
    pose proof (in_input_order_full _ _ _ Hrows) as Horder.
    pose proof (Forall2_length _ _ _ Hrows) as Hlen.
    split_and!; try done.
    + rewrite Hchecks. exact (concurrent_ran _ _ _ _ _ _ _ Hfair Hrun).
    + now apply Hdenied.
  - destruct (sequential_all _ _ _ _ _ _ H) as (H1 & H2 & H3).
    destruct (sequential_all_stops _ _ _ _ _ _ H) as (H4 & H5).
    split_and!; try done.
    + exact (sequential_ran _ _ _ _ _ _ _ H).
    + now apply Hdenied.
Qed.

Lemma check_hierarchy_any_spec request checks_ subject_type schedule optimize w r w' :
  fair schedule checks_ ->
  check_hierarchy schedule request checks_ "any" subject_type optimize w = (Returned r, w') ->
  in_input_order request (checks r) checks_
  /\ ran request subject_type checks_ (checks r)
       (if optimize then schedule else seq 0 (length (checks r))) w w'
  /\ allowed r = existsb row_allowed (checks r)
  /\ (allowed r = false -> length (checks r) = length checks_)
  /\ (optimize = true -> length (checks r) = length checks_)
  /\ (optimize = false -> allowed r = true ->
      exists pre row,
        checks r = pre ++ [row]
        /\ Forall (fun x => row_allowed x = false) pre /\ row_allowed row = true).
Proof.
  intros Hfair H. unfold Hierarchy.check_hierarchy in H. simpl in H.
  destruct optimize; simpl in H.
  - destruct (concurrent_all_any _ _ _ _ _ _ _ _ Hfair H) as (Hrows & _ & Hany).
    destruct (concurrent_result _ _ _ _ _ _ _ _ H) as (rows & Hrun & Hchecks).
    pose proof (Forall2_length _ _ _ Hrows) as Hlen.
    split_and!; try done.
    + now apply in_input_order_full.
    + rewrite Hchecks. exact (concurrent_ran _ _ _ _ _ _ _ Hfair Hrun).
    + now apply Hany.
  - destruct (sequential_any _ _ "any" _ _ _ _ (or_introl eq_refl) H) as (H1 & H2 & _).
    destruct (sequential_any_stops _ _ "any" _ _ _ _ (or_introl eq_refl) H) as (H3 & H4).
    split_and!; try done.
    + exact (sequential_ran _ _ _ _ _ _ _ H).
    + intros Hfalse. now apply H3.
    + intros _ Htrue. destruct (H4 Htrue) as (pre & row & check & Hc & Hpre & Hrow & _).
      now exists pre, row.
Qed.


(** *** What the result says about a refusal *)

Lemma sequential_loop_denied_at request mode subject_type :
  String.eqb mode "all" = false ->
  forall todo results w r w',
    sequential_loop request todo mode subject_type results w = (Returned r, w') ->
    denied_at r = None.
Proof.
  intros Hmode. induction todo as [|check rest IH]; intros results w r w' H; simpl in H.
  - rewrite Hmode in H. now injection H as <- <-.
  - destruct (check_relation request (check_type check)
                (_resolve_id_source (check_id_source check) request)
                (check_relation_name check) subject_type w) as [[a|e] w1];
      [|discriminate].
    rewrite Hmode in H. simpl in H.
    destruct (String.eqb mode "any" && a); [now injection H as <- <-|].
    destruct (String.eqb mode "first_match" && a); [now injection H as <- <-|].
    exact (IH _ _ _ _ H).
Qed.

Lemma check_hierarchy_denied_at request checks_ mode subject_type schedule optimize w r w' :
  mode <> "all" ->
  check_hierarchy schedule request checks_ mode subject_type optimize w = (Returned r, w') ->
  denied_at r = None.
Proof.
  intros Hmode H. apply String.eqb_neq in Hmode. unfold Hierarchy.check_hierarchy in H.
  destruct (String.eqb mode "first_match" || negb optimize).
  - exact (sequential_loop_denied_at _ _ _ Hmode _ _ _ _ _ H).
  - unfold Hierarchy._check_hierarchy_concurrent in H.
    destruct (gather_run schedule request checks_ subject_type ∅ None w)
      as [[rows [e|]] w1]; [discriminate|].
    rewrite Hmode in H. now injection H as <- <-.
Qed.

(** *** The formats of an identifier source *)

Lemma prefix_append (p s : string) : String.prefix p (p +:+ s) = true.
Proof.
  induction p as [|a p IH]; [now destruct s|].
  change (String a p +:+ s) with (String a (p +:+ s)). simpl.
  destruct (ascii_dec a a); [exact IH | congruence].
Qed.

Lemma substring_all (s : string) : String.substring 0 (String.length s) s = s.
Proof. induction s as [|a s IH]; simpl; [reflexivity | now rewrite IH]. Qed.

Lemma drop_prefix_append (p s : string) :
  Hierarchy.drop_prefix (String.length p) (p +:+ s) = s.
Proof.
  unfold Hierarchy.drop_prefix. induction p as [|a p IH].
  - change ("" +:+ s) with s. simpl. rewrite Nat.sub_0_r. apply substring_all.
  - change (String a p +:+ s) with (String a (p +:+ s)). simpl. exact IH.
Qed.

(** What each format of an identifier source resolves to: the header or
    the query parameter named after the prefix, or the empty string when the
    request has none; the text after [static:] itself; without one of the
    three prefixes, the path parameter of that name, or the empty string;
    and for a callable, what it returns. *)
Theorem resolve_id_source_formats (request : Request) :
  (forall name,
      _resolve_id_source (IdSpec ("header:" +:+ name)) request
      = get_or_empty (header request name))
  /\ (forall name,
        _resolve_id_source (IdSpec ("query:" +:+ name)) request
        = get_or_empty (query_param request name))
  /\ (forall value, _resolve_id_source (IdSpec ("static:" +:+ value)) request = value)
  /\ (forall name,
        String.prefix "header:" name = false ->
        String.prefix "query:" name = false ->
        String.prefix "static:" name = false ->
        _resolve_id_source (IdSpec name) request = get_or_empty (path_param request name))
  /\ (forall f, _resolve_id_source (IdCallable f) request = f request).
Proof.
  split_and!.
  - intros name. unfold Hierarchy._resolve_id_source.
    rewrite (prefix_append "header:" name).
    pose proof (drop_prefix_append "header:" name) as Hd.
    cbn [String.length] in Hd. now rewrite Hd.
  - intros name. unfold Hierarchy._resolve_id_source.
    assert (H : String.prefix "header:" ("query:" +:+ name) = false) by reflexivity.
    rewrite H, (prefix_append "query:" name).
    pose proof (drop_prefix_append "query:" name) as Hd.
    cbn [String.length] in Hd. now rewrite Hd.
  - intros value. unfold Hierarchy._resolve_id_source.
    assert (H1 : String.prefix "header:" ("static:" +:+ value) = false) by reflexivity.
    assert (H2 : String.prefix "query:" ("static:" +:+ value) = false) by reflexivity.
    rewrite H1, H2, (prefix_append "static:" value).
    pose proof (drop_prefix_append "static:" value) as Hd.
    cbn [String.length] in Hd. exact Hd.
  - intros name H1 H2 H3. unfold Hierarchy._resolve_id_source. now rewrite H1, H2, H3.
  - reflexivity.
Qed.

End WithEngine.


(** *** The result as a dictionary *)

Lemma as_dict_update (r : HierarchyResult) :
  as_dict r
  = PyDict.update [] (map (fun row => (row_type row, row_allowed row)) (checks r)).
Proof.
  unfold as_dict, PyDict.update. generalize (@nil (string * bool)).
  induction (checks r) as [|row rows IH]; intros d; simpl; [reflexivity | apply IH].
Qed.

Lemma get_rows (object_type : string) (rows : list Row) :
  PyDict.get object_type (map (fun row => (row_type row, row_allowed row)) rows)
  = option_map row_allowed
      (List.find (fun row => String.eqb (row_type row) object_type) rows).
Proof.
  induction rows as [|row rows IH]; simpl; [reflexivity|].
  now destruct (String.eqb (row_type row) object_type).
Qed.

(** [as_dict] has one entry for each object type of the rows, and the
    entry of an object type is the answer of the last row of that type: of
    two checks on the same object type, the earlier one is not reported. *)
Theorem as_dict_last_row_wins (r : HierarchyResult) (object_type : string) :
  PyDict.get object_type (as_dict r)
  = option_map row_allowed
      (List.find (fun row => String.eqb (row_type row) object_type) (rev (checks r)))
  /\ NoDup (PyDict.keys (as_dict r))
  /\ (length (as_dict r) <= length (checks r))%nat.
Proof.
  rewrite as_dict_update. split_and!.
  - rewrite PyDictFacts.get_update. simpl.
    rewrite <- map_rev, get_rows.
    now destruct (List.find _ (rev (checks r))).
  - apply PyDictFacts.NoDup_keys_update. constructor.
  - etransitivity; [apply PyDictFacts.length_update_le|].
    simpl. now rewrite length_map.
Qed.

End HierarchyFacts.

Module EngineFacts.
Import PyExc Engine.

(** *** The order in which the stale cache gives up its entries *)

Lemma insert_by_time_perm kv l : Permutation (insert_by_time kv l) (kv :: l).
Proof.
  induction l as [|kv' l IH]; simpl; [reflexivity|].
  destruct (snd (snd kv) <=? snd (snd kv'))%Z; [reflexivity|].
  rewrite IH. apply perm_swap.
Qed.

Lemma sorted_perm d : Permutation (fold_right insert_by_time [] d) d.
Proof.
  induction d as [|kv d IH]; simpl; [reflexivity|].
  rewrite insert_by_time_perm. now rewrite IH.
Qed.

Lemma insert_by_time_sorted kv l : by_time l -> by_time (insert_by_time kv l).
Proof.
  induction l as [|kv' l IH]; simpl; [intros _; split; [constructor | exact I]|].
  intros [Hall Hl].
  destruct (snd (snd kv) <=? snd (snd kv'))%Z eqn:E.
  - simpl. split_and!; [|exact Hall | exact Hl].
    constructor; [lia|]. eapply Forall_impl; [exact Hall|]. simpl. intros x Hx. lia.
  - simpl. split; [|now apply IH].
    rewrite insert_by_time_perm. constructor; [lia | exact Hall].
Qed.

Lemma sorted_by_time d : by_time (fold_right insert_by_time [] d).
Proof.
  induction d as [|kv d IH]; simpl; [exact I | now apply insert_by_time_sorted].
Qed.

Lemma by_time_split l n a b :
  by_time l -> In a (firstn n l) -> In b (skipn n l) ->
  (snd (snd a) <= snd (snd b))%Z.
Proof.
  revert n. induction l as [|kv l IH]; intros n Hl Ha Hb.
  - now rewrite firstn_nil in Ha.
  - destruct n as [|n]; [now simpl in Ha|]. simpl in Ha, Hb. destruct Hl as [Hall Hl].
    destruct Ha as [<-|Ha]; [|now apply (IH n)].
    rewrite List.Forall_forall in Hall. apply Hall.
    rewrite <- (firstn_skipn n l). apply List.in_or_app. now right.
Qed.

Section WithEnv.
Context {Request Value : Type}.
Variable py_str : list (string * Value) -> string.
Variable sha256_hex32 : string -> string.
Variable fnmatch : string -> string -> bool.

Local Abbreviation TopazConfig := (@Engine.TopazConfig Request Value).
Local Abbreviation Env := (@Engine.Env Request Value).
Local Abbreviation Ran := (@Engine.Ran Request Value).
Local Abbreviation _make_stale_cache_key := (@Engine._make_stale_cache_key Value py_str sha256_hex32).
Local Abbreviation _get_stale_cached := (@Engine._get_stale_cached Request Value py_str sha256_hex32).
Local Abbreviation _set_stale_cached := (@Engine._set_stale_cached Request Value py_str sha256_hex32).
Local Abbreviation use_fallback := (@Engine.use_fallback Request Value py_str sha256_hex32 fnmatch).
Local Abbreviation on_exception := (@Engine.on_exception Request Value py_str sha256_hex32 fnmatch).
Local Abbreviation call_authorizer := (@Engine.call_authorizer Request Value py_str sha256_hex32 fnmatch).
Local Abbreviation gate := (@Engine.gate Request Value py_str sha256_hex32 fnmatch).
Local Abbreviation fresh_lookup := (@Engine.fresh_lookup Request Value py_str sha256_hex32).
Local Abbreviation try_block := (@Engine.try_block Request Value py_str sha256_hex32 fnmatch).
Local Abbreviation check_decision := (@Engine.check_decision Request Value py_str sha256_hex32 fnmatch).

Implicit Types (t : TopazConfig) (env : Env) (request : Request)
  (resource_context : option (list (string * Value))).

(** *** The pool is never touched *)

Lemma get_stale_cached_pool t i p d resource_context now :
  connection_pool (snd (_get_stale_cached t i p d resource_context now)) = connection_pool t.
Proof.
  unfold Engine._get_stale_cached.
  destruct (circuit_breaker t) as [[bc bs]|]; [|reflexivity].
  destruct (negb (Breaker.serve_stale_cache bc)); [reflexivity|].
  destruct (PyDict.get _ _) as [[v at_]|]; [|reflexivity].
  now destruct (_ >? _)%Z.
Qed.

Lemma set_stale_cached_pool t i p d resource_context v now :
  connection_pool (_set_stale_cached t i p d resource_context v now) = connection_pool t.
Proof.
  unfold Engine._set_stale_cached.
  destruct (circuit_breaker t); [|reflexivity].
  now destruct (_ >? _)%Z.
Qed.

Lemma use_fallback_pool t bc kind error request i p d resource_context now :
  connection_pool (engine (use_fallback t bc kind error request i p d resource_context now))
  = connection_pool t.
Proof.
  unfold Engine.use_fallback.
  pose proof (get_stale_cached_pool t i p d resource_context now) as H.
  destruct (_get_stale_cached t i p d resource_context now) as [stale t1]. simpl in H.
  now destruct (Breaker.get_fallback_decision _ _ _ _ _ _ _).
Qed.

Lemma on_exception_pool t e request i p d resource_context now :
  connection_pool (engine (on_exception t e request i p d resource_context now))
  = connection_pool t.
Proof.
  unfold Engine.on_exception.
  destruct (circuit_breaker t) as [[bc bs]|]; [|reflexivity].
  destruct (Breaker.is_failure_exception bc e); [|reflexivity].
  simpl. now rewrite use_fallback_pool.
Qed.

Lemma call_authorizer_pool env t request i p d resource_context now :
  connection_pool (engine (call_authorizer env t request i p d resource_context now))
  = connection_pool t.
Proof.
  unfold Engine.call_authorizer.
  destruct (identity_provider env request) as [identity|e]; [|apply on_exception_pool].
  destruct (decisions env identity p d resource_context) as [answer|e];
    [|simpl; apply on_exception_pool].
  simpl. rewrite set_stale_cached_pool.
  destruct (circuit_breaker t) as [[bc bs]|]; simpl;
    now destruct (decision_cache t).
Qed.

Lemma gate_pool env t request i p d resource_context now :
  connection_pool (engine (gate env t request i p d resource_context now))
  = connection_pool t.
Proof.
  unfold Engine.gate.
  destruct (circuit_breaker t) as [[bc bs]|]; [|apply call_authorizer_pool].
  destruct (Breaker.should_allow_request bc now bs) as [[|] bs'].
  - now rewrite call_authorizer_pool.
  - match goal with |- context [outcome ?r] => set (ran := r) end.
    assert (Hran : connection_pool (engine ran) = connection_pool t)
      by (subst ran; now rewrite use_fallback_pool).
    destruct (outcome ran); [exact Hran|].
    simpl. now rewrite on_exception_pool.
Qed.

Lemma fresh_lookup_pool t i p d resource_context now :
  connection_pool (snd (fresh_lookup t i p d resource_context now)) = connection_pool t.
Proof.
  unfold Engine.fresh_lookup. destruct (decision_cache t) as [c|]; [|reflexivity].
  now destruct (Cache.get _ _ _ _ _ _ _ _).
Qed.

Lemma check_decision_pool env t request p d resource_context source now :
  connection_pool (snd (fst (check_decision env t request p d resource_context source now)))
  = connection_pool t.
Proof.
  unfold Engine.check_decision.
  destruct (identity_provider env request) as [identity|e]; [|reflexivity].
  simpl. unfold Engine.try_block.
  destruct identity as [identity|].
  - pose proof (fresh_lookup_pool t (value_or_empty identity) p d resource_context now) as H.
    destruct (fresh_lookup t _ _ _ _ _) as [[b|] t1]; simpl in *; [exact H|].
    now rewrite gate_pool.
  - unfold Engine.on_missing_identity_value.
    destruct (circuit_breaker t) as [[bc bs]|]; [|reflexivity].
    now destruct (Breaker.is_failure_exception bc _).
Qed.

(** *** When the call is made, a client is constructed for it *)

Lemma call_authorizer_constructs env t request i p d resource_context now identity :
  identity_provider env request = Returned identity ->
  exists rest,
    events (call_authorizer env t request i p d resource_context now)
    = EvCreateClient identity :: EvDecisions identity p d resource_context :: rest.
Proof.
  intros Hid. unfold Engine.call_authorizer. rewrite Hid.
  destruct (decisions env identity p d resource_context) as [answer|e]; simpl; eauto.
Qed.

(** *** The circuit is open *)

(** The stale value served for a key: present when stale serving is on,
    the side table has the key, and the entry is not older than
    [stale_cache_ttl]. *)
Lemma get_stale_cached_value t bc bs i p d resource_context now :
  circuit_breaker t = Some (bc, bs) ->
  fst (_get_stale_cached t i p d resource_context now)
  = if Breaker.serve_stale_cache bc then
      match PyDict.get (_make_stale_cache_key i p d resource_context) (_stale_cache t) with
      | Some (value, cached_at) =>
          if (now - cached_at >? Breaker.stale_cache_ttl bc)%Z then None else Some value
      | None => None
      end
    else None.
Proof.
  intros Hb. unfold Engine._get_stale_cached. rewrite Hb.
  destruct (Breaker.serve_stale_cache bc); simpl; [|reflexivity].
  destruct (PyDict.get _ _) as [[v at_]|]; [|reflexivity].
  now destruct (_ >? _)%Z.
Qed.

Lemma get_stale_cached_metrics t i p d resource_context now :
  metrics (snd (_get_stale_cached t i p d resource_context now)) = metrics t.
Proof.
  unfold Engine._get_stale_cached.
  destruct (circuit_breaker t) as [[bc bs]|]; [|reflexivity].
  destruct (negb (Breaker.serve_stale_cache bc)); [reflexivity|].
  destruct (PyDict.get _ _) as [[v at_]|]; [|reflexivity].
  now destruct (_ >? _)%Z.
Qed.

Lemma fresh_lookup_keeps t i p d resource_context now :
  circuit_breaker (snd (fresh_lookup t i p d resource_context now)) = circuit_breaker t
  /\ _stale_cache (snd (fresh_lookup t i p d resource_context now)) = _stale_cache t
  /\ metrics (snd (fresh_lookup t i p d resource_context now)) = metrics t.
Proof.
  unfold Engine.fresh_lookup. destruct (decision_cache t) as [c|]; [|now split_and!].
  now destruct (Cache.get _ _ _ _ _ _ _ _).
Qed.


(** *** Without a circuit breaker an error of the authorizer propagates *)

Lemma check_decision_propagates env t request policy_path decision resource_context
    source now identity e :
  identity_provider env request = Returned (Some identity) ->
  fst (fresh_lookup t (value_or_empty identity) policy_path decision resource_context now)
  = None ->
  circuit_breaker t = None ->
  decisions env (Some identity) policy_path decision resource_context = Raised e ->
  fst (fst (check_decision env t request policy_path decision resource_context source now))
  = Raised e.
Proof.
  intros Hid Hmiss Hb Hcall.
  unfold Engine.check_decision. rewrite Hid. simpl.
  destruct (fresh_lookup_keeps t (value_or_empty identity) policy_path decision
              resource_context now) as (Kb & _ & _).
  destruct (fresh_lookup t (value_or_empty identity) policy_path decision
              resource_context now) as [cached t0].
  simpl in Hmiss, Kb. subst cached. simpl.
  unfold Engine.gate. rewrite Kb, Hb.
  unfold Engine.call_authorizer. rewrite Hid, Hcall. simpl.
  unfold Engine.on_exception. now rewrite Kb, Hb.
Qed.

(** C6 on the code.  [check_decision] leaves the connection pool of the
    engine as it found it, on every path; when it comes to the call it
    constructs a client for the identity of the request and calls the
    authorizer with it; and so does an engine created with a pool: its pool
    stays as [configure] left it, with no connection created and none
    busy. *)
Theorem check_decision_bypasses_pool :
  (forall env t request policy_path decision resource_context source now,
      connection_pool
        (snd (fst (check_decision env t request policy_path decision resource_context
                     source now)))
      = connection_pool t)
  /\ (forall env t request identity_value policy_path decision resource_context now identity,
        identity_provider env request = Returned identity ->
        exists rest,
          events (call_authorizer env t request identity_value policy_path decision
                    resource_context now)
          = EvCreateClient identity
              :: EvDecisions identity policy_path decision resource_context :: rest)
  /\ (forall env request identity pool_config,
        identity_provider env request = Returned (Some identity) ->
        decisions env (Some identity) "myapp.GET.documents" "allowed" None
        = Returned [("allowed", true)] ->
        let t := make "myapp" None None None (Some pool_config) false in
        check_decision env t request "myapp.GET.documents" "allowed" None "dependency" 0
        = (Returned true, t,
           [EvCreateClient (Some identity);
            EvDecisions (Some identity) "myapp.GET.documents" "allowed" None])
        /\ connection_pool t = Some (pool_config, Pool.configure pool_config Pool.new)
        /\ Pool._busy (Pool.configure pool_config Pool.new) = ∅
        /\ Pool._connections (Pool.configure pool_config Pool.new) = ∅).
Proof.
  split_and!.
  - apply check_decision_pool.
  - apply call_authorizer_constructs.
  - intros env request identity pool_config Hid Hcall t.
    split_and!; try reflexivity.
    unfold Engine.check_decision. rewrite Hid. simpl.
    unfold Engine.gate. simpl. unfold Engine.call_authorizer. rewrite Hid, Hcall.
    reflexivity.
Qed.

(** *** The paths of [check_decision] *)

Lemma with_decision_cache_same (t : TopazConfig) c :
  decision_cache t = Some c -> with_decision_cache c t = t.
Proof. destruct t. simpl. now intros ->. Qed.

Lemma fresh_lookup_hit t i p d resource_context now b :
  fst (fresh_lookup t i p d resource_context now) = Some b ->
  snd (fresh_lookup t i p d resource_context now) = t.
Proof.
  unfold Engine.fresh_lookup. destruct (decision_cache t) as [c|] eqn:Hc; [|discriminate].
  unfold Cache.get.
  destruct (PyDict.get _ (Cache._cache c)) as [entry|]; [|discriminate].
  destruct (now >? Cache.expires_at entry)%Z; [discriminate|].
  intros _. simpl. now apply with_decision_cache_same.
Qed.

Lemma fresh_lookup_cache t i p d resource_context now :
  decision_cache (snd (fresh_lookup t i p d resource_context now))
  = option_map
      (fun c => snd (Cache.get py_str sha256_hex32 c i p d resource_context now))
      (decision_cache t).
Proof.
  unfold Engine.fresh_lookup. destruct (decision_cache t) as [c|] eqn:Hc; simpl.
  - now destruct (Cache.get py_str sha256_hex32 c i p d resource_context now).
  - now rewrite Hc.
Qed.

(** A hit of the fresh cache. *)
Lemma check_decision_hit env t request policy_path decision resource_context source now
    identity b :
  identity_provider env request = Returned (Some identity) ->
  fst (fresh_lookup t (value_or_empty identity) policy_path decision resource_context now)
  = Some b ->
  check_decision env t request policy_path decision resource_context source now
  = (Returned b, t,
     if metrics t
     then [EvCacheHit source; EvAuthRequest source "denied"; EvLatency source true]
     else []).
Proof.
  intros Hid Hhit. pose proof (fresh_lookup_hit _ _ _ _ _ _ _ Hhit) as Hsame.
  unfold Engine.check_decision. rewrite Hid. simpl.
  assert (Hc : exists c, decision_cache t = Some c).
  { unfold Engine.fresh_lookup in Hhit.
    destruct (decision_cache t) as [c|]; [now exists c | discriminate]. }
  destruct Hc as [c Hc].
  destruct (fresh_lookup t (value_or_empty identity) policy_path decision
              resource_context now) as [cached t0].
  simpl in Hhit, Hsame. subst cached t0. simpl. rewrite Hc.
  now destruct (metrics t).
Qed.

(** A miss: what follows is [gate], between events that are no calls. *)
Lemma check_decision_miss env t request policy_path decision resource_context source now
    identity :
  identity_provider env request = Returned (Some identity) ->
  fst (fresh_lookup t (value_or_empty identity) policy_path decision resource_context now)
  = None ->
  let ran :=
    gate env
      (snd (fresh_lookup t (value_or_empty identity) policy_path decision
              resource_context now))
      request (value_or_empty identity) policy_path decision resource_context now in
  exists pre post,
    check_decision env t request policy_path decision resource_context source now
    = (outcome ran, engine ran, pre ++ events ran ++ post)
    /\ existsb is_network_event pre = false
    /\ existsb is_network_event post = false.
Proof.
  intros Hid Hmiss. cbv zeta. unfold Engine.check_decision. rewrite Hid. simpl.
  destruct (fresh_lookup t (value_or_empty identity) policy_path decision
              resource_context now) as [cached t0].
  simpl in Hmiss. subst cached. simpl.
  eexists _, _. split; [rewrite <- app_assoc; reflexivity|].
  split.
  - destruct (decision_cache t); [destruct (metrics t)|]; reflexivity.
  - now destruct (metrics (engine _)).
Qed.

Lemma set_stale_cached_keeps t i p d resource_context v now :
  decision_cache (_set_stale_cached t i p d resource_context v now) = decision_cache t
  /\ circuit_breaker (_set_stale_cached t i p d resource_context v now) = circuit_breaker t
  /\ metrics (_set_stale_cached t i p d resource_context v now) = metrics t.
Proof.
  unfold Engine._set_stale_cached. destruct (circuit_breaker t) as [pb|] eqn:Hb.
  - cbv zeta. destruct (PyDict.len _ >? 10000)%Z; simpl; rewrite ?Hb; now split_and!.
  - rewrite ?Hb. now split_and!.
Qed.

(** The call that succeeds: the answer under the decision name, [False]
    when the answer of the authorizer has no such name, recorded as a success
    by the breaker and stored in the fresh cache. *)
Lemma call_authorizer_success env t request i p d resource_context now identity answer :
  identity_provider env request = Returned identity ->
  decisions env identity p d resource_context = Returned answer ->
  let result := match PyDict.get d answer with Some b => b | None => false end in
  let ran := call_authorizer env t request i p d resource_context now in
  outcome ran = Returned result
  /\ decision_cache (engine ran)
     = option_map
         (fun c => Cache.set py_str sha256_hex32 c i p d resource_context result now now)
         (decision_cache t)
  /\ circuit_breaker (engine ran)
     = match circuit_breaker t with
       | Some (bc, bs) => Some (bc, Breaker.record_success bc now bs)
       | None => None
       end.
Proof.
  intros Hid Hcall. cbv zeta. unfold Engine.call_authorizer. rewrite Hid, Hcall. simpl.
  split; [reflexivity|].
  match goal with
  | |- context [_set_stale_cached ?t2 i p d resource_context ?r now] =>
      destruct (set_stale_cached_keeps t2 i p d resource_context r now) as (Kc & Kb & _)
  end.
  rewrite Kc, Kb.
  destruct (circuit_breaker t) as [[bc bs]|] eqn:Hb; destruct (decision_cache t) as [c|] eqn:Hc;
    simpl; rewrite ?Hc, ?Hb; simpl; now rewrite ?Hc, ?Hb.
Qed.

Lemma get_stale_cached_breaker t i p d resource_context now :
  circuit_breaker (snd (_get_stale_cached t i p d resource_context now)) = circuit_breaker t
  /\ decision_cache (snd (_get_stale_cached t i p d resource_context now)) = decision_cache t.
Proof.
  unfold Engine._get_stale_cached.
  destruct (circuit_breaker t) as [[bc bs]|] eqn:Hb; [|simpl; rewrite ?Hb; now split].
  destruct (negb (Breaker.serve_stale_cache bc)); [simpl; rewrite ?Hb; now split|].
  destruct (PyDict.get _ (_stale_cache t)) as [[value cached_at]|];
    [|simpl; rewrite ?Hb; now split].
  destruct (now - cached_at >? Breaker.stale_cache_ttl bc)%Z; simpl; rewrite ?Hb; now split.
Qed.

(** A decision that the fresh cache has is returned as it is: the breaker
    is not asked, no client is made and the authorizer is not called, and the
    engine stays as it was.  With a metrics collector the request is counted
    under the label "denied" whatever the decision: the [finally] block
    reads the local [result], which this path does not assign. *)
Theorem check_decision_served_from_cache env t request policy_path decision
    resource_context source now identity b :
  identity_provider env request = Returned (Some identity) ->
  fst (fresh_lookup t (value_or_empty identity) policy_path decision resource_context now)
  = Some b ->
  exists evs,
    check_decision env t request policy_path decision resource_context source now
    = (Returned b, t, evs)
    /\ existsb is_network_event evs = false
    /\ evs = (if metrics t
              then [EvCacheHit source; EvAuthRequest source "denied"; EvLatency source true]
              else []).
Proof.
  intros Hid Hhit. eexists. split; [now apply (check_decision_hit _ _ _ _ _ _ _ _ identity)|].
  split; [now destruct (metrics t) | reflexivity].
Qed.

(** The answer of the authorizer is the value under the decision name, or
    [False] when the answer has no such name; with a decision cache it is
    stored, and the same check made again before [ttl_seconds] have passed
    returns it with no call to the authorizer and leaves the engine alone. *)
Theorem check_decision_result_is_cached env t request policy_path decision
    resource_context source now later identity c answer :
  identity_provider env request = Returned (Some identity) ->
  decision_cache t = Some c ->
  fst (fresh_lookup t (value_or_empty identity) policy_path decision resource_context now)
  = None ->
  match circuit_breaker t with
  | Some (bc, bs) => fst (Breaker.should_allow_request bc now bs) = true
  | None => True
  end ->
  decisions env (Some identity) policy_path decision resource_context = Returned answer ->
  (later <= now + Cache.ttl_seconds c)%Z ->
  let result := match PyDict.get decision answer with Some b => b | None => false end in
  exists t1 evs1 evs2,
    check_decision env t request policy_path decision resource_context source now
    = (Returned result, t1, evs1)
    /\ check_decision env t1 request policy_path decision resource_context source later
       = (Returned result, t1, evs2)
    /\ existsb is_network_event evs2 = false.
Proof.
  intros Hid Hc Hmiss Hgate Hcall Hlater result.
  destruct (check_decision_miss env t request policy_path decision resource_context source
              now identity Hid Hmiss) as (pre & post & Hcd & _ & _).
  cbv zeta in Hcd.
  pose proof (fresh_lookup_cache t (value_or_empty identity) policy_path decision
                resource_context now) as Hc0.
  destruct (fresh_lookup_keeps t (value_or_empty identity) policy_path decision
              resource_context now) as (Kb & _ & _).
  set (t0 := snd (fresh_lookup t (value_or_empty identity) policy_path decision
                    resource_context now)) in *.
  rewrite Hc in Hc0. simpl in Hc0.
  set (c0 := snd (Cache.get py_str sha256_hex32 c (value_or_empty identity) policy_path
                    decision resource_context now)) in *.
  assert (Hran : exists t0',
             gate env t0 request (value_or_empty identity) policy_path decision
               resource_context now
             = call_authorizer env t0' request (value_or_empty identity) policy_path
                 decision resource_context now
             /\ decision_cache t0' = Some c0).
  { unfold Engine.gate. rewrite Kb.
    destruct (circuit_breaker t) as [[bc bs]|]; [|now exists t0].
    destruct (Breaker.should_allow_request bc now bs) as [should_call bs'].
    simpl in Hgate. subst should_call. now eexists. }
  destruct Hran as (t0' & Hran & Hc0'). rewrite Hran in Hcd.
  destruct (call_authorizer_success env t0' request (value_or_empty identity) policy_path
              decision resource_context now (Some identity) answer Hid Hcall)
    as (Hout & Hcache & _).
  fold result in Hout, Hcache. rewrite Hc0' in Hcache. simpl in Hcache.
  rewrite Hout in Hcd.
  set (t1 := engine (call_authorizer env t0' request (value_or_empty identity) policy_path
                       decision resource_context now)) in *.
  assert (Hhit : fst (fresh_lookup t1 (value_or_empty identity) policy_path decision
                        resource_context later) = Some result).
  { unfold Engine.fresh_lookup. rewrite Hcache.
    rewrite CacheFacts.get_after_set_fresh; [reflexivity|].
    destruct (CacheFacts.get_keeps_settings py_str sha256_hex32 c (value_or_empty identity)
                policy_path decision resource_context now) as (_ & Httl & _).
    fold c0 in Httl. lia. }
  eexists t1, _, _. split; [exact Hcd|].
  split; [exact (check_decision_hit env t1 request policy_path decision resource_context
                   source later identity result Hid Hhit)|].
  now destruct (metrics t1).
Qed.


(** The authorizer raises an exception that is no failure for the
    breaker, or there is no breaker: the exception comes out of
    [check_decision], and the breaker is told of neither a failure nor a
    success; it keeps the state in which it let the call through. *)
Theorem check_decision_reraises_other_errors env t request policy_path decision
    resource_context source now identity e :
  identity_provider env request = Returned (Some identity) ->
  fst (fresh_lookup t (value_or_empty identity) policy_path decision resource_context now)
  = None ->
  decisions env (Some identity) policy_path decision resource_context = Raised e ->
  match circuit_breaker t with
  | Some (bc, bs) =>
      fst (Breaker.should_allow_request bc now bs) = true
      /\ Breaker.is_failure_exception bc e = false
  | None => True
  end ->
  exists t' evs,
    check_decision env t request policy_path decision resource_context source now
    = (Raised e, t', evs)
    /\ circuit_breaker t'
       = match circuit_breaker t with
         | Some (bc, bs) => Some (bc, snd (Breaker.should_allow_request bc now bs))
         | None => None
         end.
Proof.
  intros Hid Hmiss Hcall Hgate.
  destruct (check_decision_miss env t request policy_path decision resource_context source
              now identity Hid Hmiss) as (pre & post & Hcd & _ & _).
  cbv zeta in Hcd.
  destruct (fresh_lookup_keeps t (value_or_empty identity) policy_path decision
              resource_context now) as (Kb & _ & _).
  set (t0 := snd (fresh_lookup t (value_or_empty identity) policy_path decision
                    resource_context now)) in *.
  unfold Engine.gate in Hcd. rewrite Kb in Hcd.
  destruct (circuit_breaker t) as [[bc bs]|] eqn:Hb.
  - destruct Hgate as [Hallow Hfail].
    destruct (Breaker.should_allow_request bc now bs) as [should_call bs1].
    simpl in Hallow. subst should_call. simpl.
    unfold Engine.call_authorizer in Hcd. rewrite Hid, Hcall in Hcd.
    unfold Engine.on_exception in Hcd. simpl in Hcd. rewrite Hfail in Hcd. simpl in Hcd.
    eexists _, _. split; [exact Hcd | reflexivity].
  - unfold Engine.call_authorizer in Hcd. rewrite Hid, Hcall in Hcd.
    unfold Engine.on_exception in Hcd. rewrite Kb in Hcd. simpl in Hcd.
    eexists _, _. split; [exact Hcd | exact Kb].
Qed.

Lemma check_decision_no_identity env t request policy_path decision
    resource_context source now :
  (identity_provider env request = Returned None
   \/ exists e, identity_provider env request = Raised e) ->
  exists e t' evs,
    check_decision env t request policy_path decision resource_context source now
    = (Raised e, t', evs)
    /\ existsb is_network_event evs = false
    /\ decision_cache t' = decision_cache t.
Proof.
  intros [Hid|[e Hid]]; unfold Engine.check_decision; rewrite Hid.
  - simpl. unfold Engine.on_missing_identity_value.
    destruct (circuit_breaker t) as [[bc bs]|];
      [destruct (Breaker.is_failure_exception bc _)|];
      simpl; eexists _, _, _; (split; [reflexivity|]);
      (split; [now destruct (metrics t) | reflexivity]).
  - exists e, t, []. now split_and!.
Qed.

(** Without an identity there is no decision: when the identity provider
    returns [None] the check raises, on the missing attribute or, when the
    breaker counts that as a failure, on the name the handler finds unbound;
    no call is made and the caches stay as they were.  An exception of the
    identity provider itself comes out untouched. *)
Theorem check_decision_without_identity env t request policy_path decision
    resource_context source now :
  (identity_provider env request = Returned None ->
   exists e t' evs,
     check_decision env t request policy_path decision resource_context source now
     = (Raised e, t', evs)
     /\ (exc_class e = AttributeError_ \/ exc_class e = UnboundLocalError_)
     /\ existsb is_network_event evs = false
     /\ decision_cache t' = decision_cache t
     /\ _stale_cache t' = _stale_cache t)
  /\ (forall e,
        identity_provider env request = Raised e ->
        check_decision env t request policy_path decision resource_context source now
        = (Raised e, t, [])).
Proof.
  split.
  - intros Hid. unfold Engine.check_decision. rewrite Hid. simpl.
    unfold Engine.on_missing_identity_value.
    destruct (circuit_breaker t) as [[bc bs]|];
      [destruct (Breaker.is_failure_exception bc _)|];
      simpl; eexists _, _, _; (split; [reflexivity|]);
      (split_and!; [simpl; tauto | now destruct (metrics t) | reflexivity | reflexivity]).
  - intros e Hid. unfold Engine.check_decision. now rewrite Hid.
Qed.

(** *** The stale cache *)

Lemma slice_to_nonneg {A : Type} (n : Z) (l : list A) :
  (0 <= n)%Z -> PyDict.slice_to n l = firstn (Z.to_nat n) l.
Proof. intros H. unfold PyDict.slice_to. destruct (0 <=? n)%Z eqn:E; [reflexivity | lia]. Qed.

(** Storing a decision for the fallback: the stale cache stays within
    its 10000 entries; the entries it keeps are entries it had or the new one;
    when it gives up entries, none of them is newer than an entry it keeps;
    and below the limit it gives up nothing. *)
Theorem stale_cache_evicts_oldest (t : TopazConfig) bc bs i p d ctx v now :
  circuit_breaker t = Some (bc, bs) ->
  NoDup (PyDict.keys (_stale_cache t)) ->
  (PyDict.len (_stale_cache t) <= 10000)%Z ->
  let stored := PyDict.set (_make_stale_cache_key i p d ctx) (v, now) (_stale_cache t) in
  let t' := _set_stale_cached t i p d ctx v now in
  (PyDict.len (_stale_cache t') <= 10000)%Z
  /\ NoDup (PyDict.keys (_stale_cache t'))
  /\ (forall k entry,
        PyDict.get k (_stale_cache t') = Some entry -> PyDict.get k stored = Some entry)
  /\ (forall k1 e1 k2 e2,
        PyDict.get k1 stored = Some e1 ->
        PyDict.get k1 (_stale_cache t') = None ->
        PyDict.get k2 (_stale_cache t') = Some e2 ->
        (snd e1 <= snd e2)%Z)
  /\ ((PyDict.len (_stale_cache t) < 10000)%Z -> _stale_cache t' = stored).
Proof.
  intros Hb Hnd Hlen. cbv zeta. unfold Engine._set_stale_cached. rewrite Hb.
  set (d0 := PyDict.set (_make_stale_cache_key i p d ctx) (v, now) (_stale_cache t)).
  assert (Hnd0 : NoDup (PyDict.keys d0)) by now apply PyDictFacts.NoDup_keys_set.
  assert (Hlen0 : (PyDict.len d0 <= PyDict.len (_stale_cache t) + 1)%Z).
  { unfold PyDict.len, d0.
    pose proof (PyDictFacts.length_set_le (_make_stale_cache_key i p d ctx) (v, now)
                  (_stale_cache t)). lia. }
  destruct (PyDict.len d0 >? 10000)%Z eqn:Hfull; simpl.
  2: { split_and!; [lia | exact Hnd0 | auto | congruence | reflexivity]. }
  rewrite slice_to_nonneg by now vm_compute.
  remember (Z.to_nat (10000 / 10)) as n eqn:Hn.
  assert (Hpos : (0 < n)%nat) by (subst n; vm_compute; lia).
  clear Hn.
  set (sorted := fold_right insert_by_time [] d0).
  assert (Hremoved : firstn n (keys_by_time d0) = PyDict.keys (firstn n sorted)).
  { unfold keys_by_time, PyDict.keys. now rewrite firstn_map. }
  rewrite Hremoved.
  assert (Hperm : Permutation sorted d0) by apply sorted_perm.
  assert (Hin_removed : forall k, In k (PyDict.keys (firstn n sorted)) ->
                                   exists e, In (k, e) (firstn n sorted)).
  { intros k Hk. unfold PyDict.keys in Hk.
    apply List.in_map_iff in Hk as [[k' e] [Hk Hin]]. simpl in Hk. subst k'. now exists e. }
  split_and!.
  - destruct sorted as [|s1 rest] eqn:Hs.
    { apply Permutation_nil_l in Hperm. rewrite <- Hperm in Hfull.
      vm_compute in Hfull. discriminate. }
    destruct n as [|n']; [lia|]. simpl.
    assert (Hs1 : In (fst s1) (PyDict.keys d0)).
    { unfold PyDict.keys. apply List.in_map.
      apply (Permutation_in s1 Hperm). now left. }
    pose proof (PyDictFacts.length_del_lt (fst s1) d0 Hs1) as Hlt.
    pose proof (PyDictFacts.length_del_all_le (PyDict.keys (firstn n' rest))
                  (PyDict.del (fst s1) d0)) as Hle.
    unfold PyDict.len in *. unfold PyDict.del_all at 1. simpl.
    fold (PyDict.del_all (PyDict.keys (firstn n' rest)) (PyDict.del (fst s1) d0)). lia.
  - now apply PyDictFacts.NoDup_keys_del_all.
  - intros k entry Hget.
    destruct (in_dec string_dec k (PyDict.keys (firstn n sorted))) as [Hin|Hout].
    + now rewrite PyDictFacts.get_del_all_in in Hget.
    + now rewrite PyDictFacts.get_del_all_other in Hget.
  - intros k1 e1 k2 e2 H1 Hgone H2.
    assert (Hk1 : In k1 (PyDict.keys (firstn n sorted))).
    { destruct (in_dec string_dec k1 (PyDict.keys (firstn n sorted))) as [Hin|Hout];
        [exact Hin|].
      rewrite PyDictFacts.get_del_all_other in Hgone by exact Hout. congruence. }
    assert (Hk2 : ~ In k2 (PyDict.keys (firstn n sorted))).
    { intros Hin. now rewrite PyDictFacts.get_del_all_in in H2. }
    rewrite PyDictFacts.get_del_all_other in H2 by exact Hk2.
    destruct (Hin_removed k1 Hk1) as [e1' He1'].
    assert (He1 : e1' = e1).
    { assert (Hd0 : In (k1, e1') d0).
      { apply (Permutation_in _ Hperm).
        rewrite <- (firstn_skipn n sorted). apply List.in_or_app. now left. }
      apply (PyDictFacts.In_get _ _ _ Hnd0) in Hd0. congruence. }
    subst e1'.
    assert (Hd2 : In (k2, e2) (skipn n sorted)).
    { apply PyDictFacts.get_In in H2.
      apply (Permutation_in _ (Permutation_sym Hperm)) in H2.
      rewrite <- (firstn_skipn n sorted) in H2.
      apply List.in_app_or in H2 as [H2|H2]; [|exact H2].
      destruct Hk2. unfold PyDict.keys. apply List.in_map_iff. now exists (k2, e2). }
    exact (by_time_split sorted n (k1, e1) (k2, e2) (sorted_by_time d0) He1' Hd2).
  - lia.
Qed.

(** A decision stored for the fallback is found again for as long as
    [stale_cache_ttl] allows, when the breaker serves stale decisions; it is
    not found after that, and the lookup that finds it too old removes it.
    Without a circuit breaker nothing is stored. *)
Theorem stale_cache_roundtrip (t : TopazConfig) i p d ctx v now later :
  (forall bc bs,
      circuit_breaker t = Some (bc, bs) ->
      (PyDict.len (_stale_cache t) < 10000)%Z ->
      let looked_up := _get_stale_cached (_set_stale_cached t i p d ctx v now) i p d ctx later in
      fst looked_up
      = (if Breaker.serve_stale_cache bc
            && (later - now <=? Breaker.stale_cache_ttl bc)%Z
         then Some v else None)
      /\ (Breaker.serve_stale_cache bc = true ->
          (Breaker.stale_cache_ttl bc < later - now)%Z ->
          PyDict.get (_make_stale_cache_key i p d ctx) (_stale_cache (snd looked_up))
          = None))
  /\ (circuit_breaker t = None ->
      _set_stale_cached t i p d ctx v now = t
      /\ fst (_get_stale_cached t i p d ctx later) = None).
Proof.
  split.
  - intros bc bs Hb Hlen. cbv zeta.
    assert (Hset : _stale_cache (_set_stale_cached t i p d ctx v now)
                   = PyDict.set (_make_stale_cache_key i p d ctx) (v, now) (_stale_cache t)).
    { unfold Engine._set_stale_cached. rewrite Hb. cbv zeta.
      pose proof (PyDictFacts.length_set_le (_make_stale_cache_key i p d ctx) (v, now)
                    (_stale_cache t)) as Hle.
      destruct (PyDict.len _ >? 10000)%Z eqn:Hfull; [|reflexivity].
      unfold PyDict.len in *. lia. }
    assert (Hb' : circuit_breaker (_set_stale_cached t i p d ctx v now) = Some (bc, bs)).
    { unfold Engine._set_stale_cached. rewrite Hb. cbv zeta.
      now destruct (PyDict.len _ >? 10000)%Z. }
    unfold Engine._get_stale_cached. rewrite Hb'.
    destruct (Breaker.serve_stale_cache bc); simpl; [|split; [reflexivity | discriminate]].
    rewrite Hset, PyDictFacts.get_set_same.
    destruct (later - now >? Breaker.stale_cache_ttl bc)%Z eqn:Hold; simpl.
    + split.
      * destruct (later - now <=? Breaker.stale_cache_ttl bc)%Z eqn:Hle; [lia | reflexivity].
      * intros _ _. apply PyDictFacts.get_del_same.
    + split.
      * destruct (later - now <=? Breaker.stale_cache_ttl bc)%Z eqn:Hle; [reflexivity | lia].
      * intros _ Hlate. lia.
  - intros Hb. unfold Engine._set_stale_cached, Engine._get_stale_cached. now rewrite Hb.
Qed.

End WithEnv.


Section Examples.

Let identity : Identity :=
  {| identity_type := IDENTITY_TYPE_SUB; identity_value := Some "user-1" |}.

Let refused : Exn := {| exc_class := ConnectionError_; exc_message := "refused" |}.

Let malformed : Exn := {| exc_class := ValueError_; exc_message := "malformed answer" |}.

(** An authorizer that allows, one that is down, and one whose client
    fails on the answer. *)
Let env_ok : @Env unit string :=
  {| identity_provider := fun _ => Returned (Some identity);
     decisions := fun _ _ _ _ => Returned [("allowed", true)] |}.

Let env_down : @Env unit string :=
  {| identity_provider := fun _ => Returned (Some identity);
     decisions := fun _ _ _ _ => Raised refused |}.

Let env_bad : @Env unit string :=
  {| identity_provider := fun _ => Returned (Some identity);
     decisions := fun _ _ _ _ => Raised malformed |}.

Let bc : @Breaker.Config unit string := Breaker.default_config.

Let key : string := "user-1:myapp.GET.documents:allowed:".

Let check (env : @Env unit string) (t : @TopazConfig unit string) (now : Z) :=
  check_decision Sample.str_items Sample.plain_digest Sample.fnmatch env t tt
    "myapp.GET.documents" "allowed" None "dependency" now.

(** A cached decision is served while the authorizer is down. *)
Lemma check_decision_served_from_cache_witness :
  let t : @TopazConfig unit string :=
    {| policy_path_root := "myapp"; resource_context_provider := None;
       decision_cache :=
         Some {| Cache.ttl_seconds := 60; Cache.max_size := 1000;
                 Cache._cache := [(key, {| Cache.value := true; Cache.expires_at := 60 |})] |};
       circuit_breaker := Some (bc, Breaker.initial);
       connection_pool := None; metrics := true; _stale_cache := [] |} in
  check env_down t 10
  = (Returned true, t,
     [EvCacheHit "dependency"; EvAuthRequest "dependency" "denied";
      EvLatency "dependency" true]).
Proof.
  intros t.
  destruct (check_decision_served_from_cache Sample.str_items Sample.plain_digest
              Sample.fnmatch env_down t tt "myapp.GET.documents" "allowed" None
              "dependency" 10 identity true eq_refl eq_refl) as (evs & Hcd & _ & Hevs).
  rewrite Hevs in Hcd. exact Hcd.
Defined.

(** The answer of the first check is served again a minute later. *)
Lemma check_decision_result_is_cached_witness :
  let t : @TopazConfig unit string :=
    make "myapp" None (Some (Cache.empty 60 1000)) (Some bc) None false in
  exists t1 evs1 evs2,
    check env_ok t 0 = (Returned true, t1, evs1)
    /\ check env_ok t1 60 = (Returned true, t1, evs2)
    /\ existsb is_network_event evs2 = false.
Proof.
  intros t.
  apply (check_decision_result_is_cached Sample.str_items Sample.plain_digest
           Sample.fnmatch env_ok t tt "myapp.GET.documents" "allowed" None "dependency"
           0 60 identity (Cache.empty 60 1000) [("allowed", true)]);
    first [reflexivity | simpl; lia].
Defined.


(** An error of the client that is no failure for the breaker. *)
Lemma check_decision_reraises_other_errors_witness :
  let t : @TopazConfig unit string := make "myapp" None None (Some bc) None false in
  exists t' evs,
    check env_bad t 10 = (Raised malformed, t', evs)
    /\ circuit_breaker t' = Some (bc, Breaker.initial).
Proof.
  intros t.
  apply (check_decision_reraises_other_errors Sample.str_items Sample.plain_digest
           Sample.fnmatch env_bad t tt "myapp.GET.documents" "allowed" None "dependency"
           10 identity malformed);
    try reflexivity.
  split; reflexivity.
Defined.

(** The first decision stored in an empty stale cache. *)
Lemma stale_cache_evicts_oldest_witness :
  let t : @TopazConfig unit string := make "myapp" None None (Some bc) None false in
  _stale_cache
    (_set_stale_cached Sample.str_items Sample.plain_digest t "user-1"
       "myapp.GET.documents" "allowed" None true 5)
  = [(key, (true, 5%Z))].
Proof.
  intros t.
  destruct (stale_cache_evicts_oldest Sample.str_items Sample.plain_digest
              t bc Breaker.initial "user-1" "myapp.GET.documents" "allowed" None true 5)
    as (_ & _ & _ & _ & Hsame).
  - reflexivity.
  - constructor.
  - now vm_compute.
  - apply Hsame. now vm_compute.
Defined.

End Examples.

End EngineFacts.

Module MiddlewareFacts.
Import PyExc Engine Middleware.

Section WithEnv.
Context {Request Value : Type}.
Variable py_str : list (string * Value) -> string.
Variable sha256_hex32 : string -> string.
Variable fnmatch : string -> string -> bool.
Variable re_match : string -> string -> bool.
Variable match_route : Scope -> option (Route * list (string * string)).
Variable request_of : Scope -> Request.
Variable param_value : string -> Value.

Local Abbreviation check_decision :=
  (@Engine.check_decision Request Value py_str sha256_hex32 fnmatch).
Local Abbreviation prepare :=
  (@Middleware.prepare Request Value re_match match_route request_of param_value).
Local Abbreviation call :=
  (@Middleware.call Request Value py_str sha256_hex32 fnmatch re_match match_route
     request_of param_value).

(** When the check raises, the decision is a denial: the audit logger is
    told so, and the request ends with the exception of the logger, if it
    raises one, and with the denial otherwise. *)
Lemma call_when_check_raises (mw : @Config Request Value) env t scope now
    request identity policy_path resource_context path_params :
  prepare mw env t scope
  = ToCheck request identity policy_path resource_context path_params ->
  (exists e,
     fst (fst (check_decision env t request policy_path "allowed"
                 (or_none resource_context) "dependency" now)) = Raised e) ->
  fst (fst (call mw env t scope now))
  = match fst (audit_decision mw request policy_path false identity resource_context) with
    | Some e' => Failed e'
    | None => served_of (denial mw request policy_path)
    end.
Proof.
  intros Hprep [e Hcheck]. unfold Middleware.call. rewrite Hprep.
  destruct (check_decision env t request policy_path "allowed"
              (or_none resource_context) "dependency" now) as [[checked t'] events].
  simpl in Hcheck. subst checked.
  destruct (audit_decision mw request policy_path false identity resource_context)
    as [[e'|] audited]; reflexivity.
Qed.

Lemma served_of_not_downstream (response : Outcome Response) path_params :
  served_of response <> Downstream path_params.
Proof. destruct response; discriminate. Qed.

Lemma call_when_check_raises_closed (mw : @Config Request Value) env t scope now
    request identity policy_path resource_context path_params :
  prepare mw env t scope
  = ToCheck request identity policy_path resource_context path_params ->
  (exists e,
     fst (fst (check_decision env t request policy_path "allowed"
                 (or_none resource_context) "dependency" now)) = Raised e) ->
  (forall path_params', fst (fst (call mw env t scope now)) <> Downstream path_params')
  /\ (audit_logger mw = None -> on_denied mw = None ->
      fst (fst (call mw env t scope now)) = Responded forbidden).
Proof.
  intros Hprep Hcheck.
  rewrite (call_when_check_raises _ _ _ _ _ _ _ _ _ _ Hprep Hcheck). split.
  - intros path_params'.
    destruct (fst (audit_decision mw request policy_path false identity resource_context));
      [discriminate | apply served_of_not_downstream].
  - intros Hlogger Hdenied. unfold audit_decision, denial.
    now rewrite Hlogger, Hdenied.
Qed.

(** C4, as the code has it.  When the middleware comes to the check and
    the check raises, whatever the exception and whether or not the engine
    has a circuit breaker, the request is treated as denied and is not handed
    to the application.  What the client gets depends on the two calls that
    follow the check outside its [try]: if the audit logger raises, that
    exception leaves the middleware; otherwise the answer is the 403
    "Forbidden" when no [on_denied] callback is configured, the response of
    the callback when it returns one, and the exception of the callback when
    it raises.  So it is, in particular, when the engine has no circuit
    breaker, the fresh cache has no answer and the call to the authorizer
    raises: with neither an audit logger nor a callback the answer is the
    403. *)
Theorem middleware_fails_closed (mw : @Config Request Value) env t scope now
    request identity policy_path resource_context path_params :
  prepare mw env t scope
  = ToCheck request identity policy_path resource_context path_params ->
  (forall e t' events,
      check_decision env t request policy_path "allowed" (or_none resource_context)
        "dependency" now = (Raised e, t', events) ->
      (forall path_params',
          fst (fst (call mw env t scope now)) <> Downstream path_params')
      /\ (forall e',
            fst (audit_decision mw request policy_path false identity resource_context)
            = Some e' ->
            fst (fst (call mw env t scope now)) = Failed e')
      /\ (fst (audit_decision mw request policy_path false identity resource_context)
          = None ->
          (on_denied mw = None ->
           fst (fst (call mw env t scope now)) = Responded forbidden
           /\ status_code forbidden = 403%Z)
          /\ (forall callback response,
                on_denied mw = Some callback ->
                callback request policy_path = Returned response ->
                fst (fst (call mw env t scope now)) = Responded response)
          /\ (forall callback e',
                on_denied mw = Some callback ->
                callback request policy_path = Raised e' ->
                fst (fst (call mw env t scope now)) = Failed e')))
  /\ (forall found e,
        circuit_breaker t = None ->
        identity_provider env request = Returned (Some found) ->
        fst (Engine.fresh_lookup py_str sha256_hex32 t (value_or_empty found)
               policy_path "allowed" (or_none resource_context) now) = None ->
        decisions env (Some found) policy_path "allowed" (or_none resource_context)
        = Raised e ->
        (forall path_params',
            fst (fst (call mw env t scope now)) <> Downstream path_params')
        /\ (audit_logger mw = None -> on_denied mw = None ->
            fst (fst (call mw env t scope now)) = Responded forbidden)).
Proof.
  intros Hprep. split.
  - intros e t' events Hcheck.
    assert (Hraises : exists e,
               fst (fst (check_decision env t request policy_path "allowed"
                           (or_none resource_context) "dependency" now)) = Raised e)
      by (exists e; now rewrite Hcheck).
    pose proof (call_when_check_raises _ _ _ _ _ _ _ _ _ _ Hprep Hraises) as Hcall.
    split_and!.
    + apply (call_when_check_raises_closed _ _ _ _ _ _ _ _ _ _ Hprep Hraises).
    + intros e' Haudit. now rewrite Hcall, Haudit.
    + intros Haudit. rewrite Haudit in Hcall. unfold denial in Hcall. split_and!.
      * intros Hnone. rewrite Hnone in Hcall. now split.
      * intros callback response Hsome Hresp. now rewrite Hsome, Hresp in Hcall.
      * intros callback e' Hsome Hresp. now rewrite Hsome, Hresp in Hcall.
  - intros found e Hb Hid Hmiss Hraise.
    apply call_when_check_raises_closed with (identity := identity)
      (request := request) (policy_path := policy_path)
      (resource_context := resource_context) (path_params := path_params);
      [exact Hprep|].
    exists e.
    now apply (EngineFacts.check_decision_propagates py_str sha256_hex32 fnmatch)
      with (identity := found).
Qed.

Lemma prepare_to_check (mw : @Config Request Value) env t scope
    request identity policy_path resource_context path_params :
  prepare mw env t scope
  = ToCheck request identity policy_path resource_context path_params ->
  scope_type scope = "http"
  /\ request = request_of scope
  /\ (exists route,
        match_route scope = Some (route, path_params)
        /\ _is_excluded re_match mw
             (default "GET" (scope_method scope)) (default "/" (scope_path scope))
             (Some route) = false
        /\ policy_path
           = PolicyPath._resolve_policy_path (policy_path_root t)
               (default "GET" (scope_method scope))
               (default (default "/" (scope_path scope)) (route_path route)))
  /\ (on_missing_identity mw = "deny" ->
      exists i v, identity_provider env request = Returned (Some i)
                  /\ identity_value i = Some v /\ v <> "")
  /\ (identity_provider env request = Returned None
      \/ (exists e, identity_provider env request = Raised e) ->
      identity = anonymous).
Proof.
  unfold Middleware.prepare.
  destruct (String.eqb (scope_type scope) "http") eqn:Htype; simpl; [|discriminate].
  apply String.eqb_eq in Htype.
  destruct (match_route scope) as [[route ps]|] eqn:Hroute; simpl.
  - destruct (scope_method scope) as [m|], (scope_path scope) as [pa|]; simpl;
      (destruct (_is_excluded re_match mw _ _ (Some route)) eqn:Hex; [discriminate|]);
      (destruct (missing _ && String.eqb (on_missing_identity mw) "deny") eqn:Hmiss;
         [destruct (audit_logger mw) as [logger|];
            [destruct (log_unauthenticated_event logger _ _)|]; discriminate|]);
      intros [= <- <- <- <- <-];
      (split_and!;
         [ exact Htype
         | reflexivity
         | exists route; split_and!;
             [reflexivity | exact Hex | now destruct (route_path route)]
         | intros Hdeny; rewrite Hdeny in Hmiss; simpl in Hmiss;
           rewrite andb_true_r in Hmiss;
           destruct (identity_provider env (request_of scope)) as [[i|]|e];
             simpl in Hmiss; try discriminate;
           destruct (identity_value i) as [v|] eqn:Hv; [|discriminate];
           exists i, v; split_and!; [reflexivity | exact Hv |];
           intros ->; discriminate
         | intros [Hid|[e Hid]]; now rewrite Hid ]).
  - destruct (_is_excluded re_match mw _ _ None); discriminate.
Qed.

(** The middleware hands a request to the application in two cases only.
    Either the request is not subject to authorization (the scope is not
    ["http"], the method, the path or the route is excluded, or no route
    matches): then it is passed on as it came, with no check, no event and the
    engine untouched.  Or a route matched and [check_decision] returned
    [True] for the policy path of that route and the decision ["allowed"]:
    then the path parameters of the match are stored in the scope.  With
    [on_missing_identity] at ["deny"] the second case needs an identity with
    a value that is not empty. *)
Theorem middleware_serves_only_when_allowed (mw : @Config Request Value) env t scope
    now pp :
  fst (fst (call mw env t scope now)) = Downstream pp ->
  (pp = None
   /\ (scope_type scope <> "http"
       \/ _is_excluded re_match mw
            (default "GET" (scope_method scope)) (default "/" (scope_path scope))
            (option_map fst (match_route scope)) = true
       \/ match_route scope = None)
   /\ call mw env t scope now = (Downstream None, t, []))
  \/ (exists route path_params resource_context,
        pp = Some path_params
        /\ scope_type scope = "http"
        /\ match_route scope = Some (route, path_params)
        /\ _is_excluded re_match mw
             (default "GET" (scope_method scope)) (default "/" (scope_path scope))
             (Some route) = false
        /\ fst (fst (check_decision env t (request_of scope)
                       (PolicyPath._resolve_policy_path (policy_path_root t)
                          (default "GET" (scope_method scope))
                          (default (default "/" (scope_path scope)) (route_path route)))
                       "allowed" resource_context "dependency" now))
           = Returned true
        /\ (on_missing_identity mw = "deny" ->
            exists i v, identity_provider env (request_of scope) = Returned (Some i)
                        /\ identity_value i = Some v /\ v <> "")).
Proof.
  intros Hcall. unfold Middleware.call in *.
  destruct (prepare mw env t scope)
    as [served events|request identity policy_path rc ps] eqn:Hprep.
  - left. simpl in Hcall. subst served.
    unfold Middleware.prepare in Hprep.
    destruct (String.eqb (scope_type scope) "http") eqn:Htype; simpl in Hprep.
    + destruct (scope_method scope) as [m|], (scope_path scope) as [pa|]; simpl;
        (destruct (_is_excluded re_match mw _ _ (option_map fst (match_route scope)))
           eqn:Hex;
           [ injection Hprep as <- <-; split_and!; [reflexivity | now right; left | reflexivity]
           | destruct (match_route scope) as [[route ps]|] eqn:Hroute; simpl in Hprep;
               [ destruct (missing _ && String.eqb (on_missing_identity mw) "deny");
                   [destruct (audit_logger mw) as [logger|];
                      [destruct (log_unauthenticated_event logger _ _)|]|];
                   discriminate
               | injection Hprep as <- <-;
                 split_and!; [reflexivity | now right; right | reflexivity] ] ]).
    + injection Hprep as <- <-. split_and!; [reflexivity | | reflexivity].
      left. intros Heq. rewrite Heq in Htype. discriminate.
  - right. apply prepare_to_check in Hprep
      as (Htype & -> & (route & Hroute & Hex & ->) & Hdeny & _).
    destruct (check_decision env t (request_of scope) _ "allowed" (or_none rc)
                "dependency" now) as [[checked t'] evs] eqn:Hcheck.
    exists route, ps, (or_none rc). rewrite Hcheck. simpl.
    destruct (audit_decision mw (request_of scope) _ _ identity rc)
      as [[e'|] audited]; simpl in Hcall; [discriminate|].
    destruct checked as [[|]|e]; simpl in Hcall;
      try (now apply served_of_not_downstream in Hcall).
    injection Hcall as <-. now split_and!.
Qed.

(** [on_missing_identity="anonymous"] does not pass an anonymous identity
    on to the check: the identity the middleware makes up goes to the audit
    logger only, and [check_decision] asks the identity provider again.  So
    when the provider returns [None] or raises, a request that comes to the
    check is never handed to the application, and neither a client is
    created nor the authorizer called: the check raises, the audit logger is
    told of a denial of the anonymous identity, and the request ends with
    the exception of the logger if it raises one, and otherwise with the
    denial (the 403, or what [on_denied] returns or raises). *)
Theorem anonymous_identity_is_not_passed_on (mw : @Config Request Value) env t scope now
    request identity policy_path resource_context path_params :
  prepare mw env t scope
  = ToCheck request identity policy_path resource_context path_params ->
  (identity_provider env request = Returned None
   \/ exists e, identity_provider env request = Raised e) ->
  on_missing_identity mw <> "deny"
  /\ identity = anonymous
  /\ (forall path_params',
        fst (fst (call mw env t scope now)) <> Downstream path_params')
  /\ fst (fst (call mw env t scope now))
     = match fst (audit_decision mw request policy_path false anonymous resource_context)
       with
       | Some e' => Failed e'
       | None => served_of (denial mw request policy_path)
       end
  /\ (audit_logger mw = None -> on_denied mw = None ->
      fst (fst (call mw env t scope now)) = Responded forbidden)
  /\ (forall ev, In (Check ev) (snd (call mw env t scope now)) ->
        is_network_event ev = false)
  /\ decision_cache (snd (fst (call mw env t scope now))) = decision_cache t.
Proof.
  intros Hprep Hid.
  pose proof (prepare_to_check _ _ _ _ _ _ _ _ _ Hprep) as (_ & _ & _ & Hsome & Hanon).
  assert (Hmode : on_missing_identity mw <> "deny").
  { intros Hdeny. destruct (Hsome Hdeny) as (i & v & Hi & _).
    destruct Hid as [Hid|[e Hid]]; rewrite Hid in Hi; discriminate. }
  specialize (Hanon Hid). subst identity.
  destruct (EngineFacts.check_decision_no_identity py_str sha256_hex32 fnmatch
              env t request policy_path "allowed" (or_none resource_context)
              "dependency" now Hid) as (e & t' & evs & Hcheck & Hnet & Hcache).
  assert (Hraises : exists e,
             fst (fst (check_decision env t request policy_path "allowed"
                         (or_none resource_context) "dependency" now)) = Raised e)
    by (exists e; now rewrite Hcheck).
  destruct (call_when_check_raises_closed _ _ _ _ _ _ _ _ _ _ Hprep Hraises)
    as [Hclosed H403].
  split_and!.
  - exact Hmode.
  - reflexivity.
  - exact Hclosed.
  - exact (call_when_check_raises _ _ _ _ _ _ _ _ _ _ Hprep Hraises).
  - exact H403.
  - unfold Middleware.call. rewrite Hprep, Hcheck.
    destruct (audit_decision mw request policy_path false anonymous resource_context)
      as [audit_raised audited] eqn:Haudit.
    assert (Haudited : forall ev, ~ In (Check ev) audited).
    { unfold audit_decision in Haudit. intros ev Hin.
      destruct (audit_logger mw); injection Haudit as <- <-; simpl in Hin;
        [destruct Hin as [Hin|[]]; discriminate | contradiction]. }
    assert (Hevents : forall ev, In (Check ev) (map Check evs ++ audited) ->
                                 is_network_event ev = false).
    { intros ev Hin. apply in_app_or in Hin as [Hin|Hin]; [|now apply Haudited in Hin].
      apply in_map_iff in Hin as (ev' & [= ->] & Hin').
      destruct (is_network_event ev) eqn:Hev; [|reflexivity].
      rewrite <- Hnet. symmetry. apply existsb_exists. now exists ev. }
    destruct audit_raised; simpl; exact Hevents.
  - unfold Middleware.call. rewrite Hprep, Hcheck.
    destruct (audit_decision mw request policy_path false anonymous resource_context)
      as [[e'|] audited]; simpl; exact Hcache.
Qed.

End WithEnv.

(** The request of the examples: [GET /documents/42] on the route
    [/documents/{id}], an authenticated user, an engine with neither cache
    nor circuit breaker, and an authorizer that refuses the connection. *)
Section Examples.

Let identity : Identity :=
  {| identity_type := IDENTITY_TYPE_SUB; identity_value := Some "user-1" |}.

Let refused : Exn :=
  {| exc_class := ConnectionError_; exc_message := "Connection refused" |}.

Let env : @Env unit string :=
  {| identity_provider := fun _ => Returned (Some identity);
     decisions := fun _ _ _ _ => Raised refused |}.

Let t : @TopazConfig unit string := make "webapp" None None None None false.

Let scope : Scope :=
  {| scope_type := "http"; scope_method := Some "GET";
     scope_path := Some "/documents/42" |}.

Let match_route (_ : Scope) : option (Route * list (string * string)) :=
  Some ({| route_path := Some "/documents/{id}"; endpoint_skip := false;
           depends_on_skip := false |}, [("id", "42")]).

Let mw (on_denied : option (unit -> string -> Outcome Response))
    (audit_logger : option (@AuditLogger unit string)) : @Config unit string :=
  {| exclude_paths := []; exclude_methods := ["OPTIONS"; "HEAD"];
     on_missing_identity := "deny"; on_denied := on_denied;
     audit_logger := audit_logger |}.

Let call (mw : @Config unit string) (env : @Env unit string) :=
  Middleware.call Sample.str_items Sample.plain_digest Sample.fnmatch
    (fun _ _ => false) match_route (fun _ => tt) (fun v : string => v)
    mw env t scope 0.

Let env_ok : @Env unit string :=
  {| identity_provider := fun _ => Returned (Some identity);
     decisions := fun _ _ _ _ => Returned [("allowed", true)] |}.

(** An identity provider that finds nobody, in front of an authorizer that
    would allow. *)
Let env_nobody : @Env unit string :=
  {| identity_provider := fun _ => Returned None;
     decisions := fun _ _ _ _ => Returned [("allowed", true)] |}.

(** A logger that records, and one whose handler raises. *)
Let logger_ok : @AuditLogger unit string :=
  {| log_decision := fun _ _ _ _ _ => None;
     log_unauthenticated_event := fun _ _ => None |}.

Let handler_error : Exn :=
  {| exc_class := RuntimeError_; exc_message := "audit sink unavailable" |}.

Let logger_broken : @AuditLogger unit string :=
  {| log_decision := fun _ _ _ _ _ => Some handler_error;
     log_unauthenticated_event := fun _ _ => Some handler_error |}.

Let mw_anonymous : @Config unit string :=
  {| exclude_paths := []; exclude_methods := ["OPTIONS"; "HEAD"];
     on_missing_identity := "anonymous"; on_denied := None;
     audit_logger := Some logger_ok |}.

(** Without a callback and without an audit logger the refused connection
    ends in the 403. *)
Lemma middleware_fails_closed_witness :
  fst (fst (call (mw None None) env)) = Responded forbidden
  /\ status_code forbidden = 403%Z
  /\ (forall path_params', fst (fst (call (mw None None) env)) <> Downstream path_params').
Proof.
  destruct (middleware_fails_closed Sample.str_items Sample.plain_digest Sample.fnmatch
              (fun _ _ => false) match_route (fun _ => tt) (fun v : string => v)
              (mw None None) env t scope 0%Z tt identity "webapp.GET.documents.__id"
              [("id", "42")] [("id", "42")]) as [Hraised _]; [reflexivity|].
  destruct (Hraised refused
              t [EvCreateClient (Some identity);
                 EvDecisions (Some identity) "webapp.GET.documents.__id" "allowed"
                   (Some [("id", "42")])])
    as (Hnot & _ & H403); [reflexivity|].
  destruct (H403 eq_refl) as [Hnone _].
  destruct (Hnone eq_refl) as [Hresp Hstatus].
  split_and!; [exact Hresp | exact Hstatus | exact Hnot].
Defined.

(** C4 as written fails with an [on_denied] callback: the answer to the
    failed check is the response of the callback, here a 404. *)
Lemma middleware_custom_denial :
  let not_found := {| status_code := 404; content_detail := "Not Found" |} in
  fst (fst (call (mw (Some (fun _ _ => Returned not_found)) None) env))
  = Responded not_found
  /\ status_code not_found <> 403%Z
  /\ fst (fst (Engine.check_decision Sample.str_items Sample.plain_digest Sample.fnmatch
                 env t tt "webapp.GET.documents.__id" "allowed" (Some [("id", "42")])
                 "dependency" 0))
     = Raised refused.
Proof. split_and!; [reflexivity | discriminate | reflexivity]. Qed.

(** And it fails with an audit logger whose handler raises: the failed
    check ends in the exception of the logger, not in a response of the
    middleware; so does a callback that raises. *)
Lemma middleware_audit_failure :
  fst (fst (call (mw None (Some logger_broken)) env)) = Failed handler_error
  /\ fst (fst (call (mw (Some (fun _ _ => Raised handler_error)) (Some logger_ok)) env))
     = Failed handler_error
  /\ snd (call (mw None (Some logger_broken)) env)
     = [Check (EvCreateClient (Some identity));
        Check (EvDecisions (Some identity) "webapp.GET.documents.__id" "allowed"
                 (Some [("id", "42")]));
        AuditDecision "webapp.GET.documents.__id" false].
Proof. split_and!; reflexivity. Qed.

(** The allowed request reaches the application with its path parameter. *)
Lemma middleware_serves_only_when_allowed_witness :
  fst (fst (call (mw None None) env_ok)) = Downstream (Some [("id", "42")])
  /\ exists route,
       match_route scope = Some (route, [("id", "42")])
       /\ fst (fst (Engine.check_decision Sample.str_items Sample.plain_digest
                      Sample.fnmatch env_ok t tt
                      (PolicyPath._resolve_policy_path (policy_path_root t)
                         (default "GET" (scope_method scope))
                         (default (default "/" (scope_path scope)) (route_path route)))
                      "allowed" (Some [("id", "42")]) "dependency" 0))
          = Returned true.
Proof.
  split; [reflexivity|].
  destruct (middleware_serves_only_when_allowed Sample.str_items Sample.plain_digest
              Sample.fnmatch (fun _ _ => false) match_route (fun _ => tt)
              (fun v : string => v) (mw None None) env_ok t scope 0%Z
              (Some [("id", "42")]) eq_refl)
    as [(Hnone & _)|(route & ps & rc & Hpp & _ & Hroute & _)]; [discriminate|].
  injection Hpp as <-. exists route. split; [exact Hroute|].
  injection Hroute as <-. reflexivity.
Defined.

(** In the anonymous mode the request of nobody is answered with the 403,
    although the authorizer would allow it. *)
Lemma anonymous_identity_is_not_passed_on_witness :
  fst (fst (call mw_anonymous env_nobody)) = Responded forbidden
  /\ snd (call mw_anonymous env_nobody)
     = [AuditDecision "webapp.GET.documents.__id" false].
Proof.
  destruct (anonymous_identity_is_not_passed_on Sample.str_items Sample.plain_digest
              Sample.fnmatch (fun _ _ => false) match_route (fun _ => tt)
              (fun v : string => v) mw_anonymous env_nobody t scope 0%Z tt
              anonymous "webapp.GET.documents.__id" [("id", "42")] [("id", "42")]
              eq_refl (or_introl eq_refl))
    as (_ & _ & _ & Hcall & _).
  split; [exact Hcall | reflexivity].
Defined.

End Examples.
End MiddlewareFacts.

Module GatherFacts.
Import PyExc Gather.

Section Tasks.
Context {World A B : Type}.
Variable task : A -> World -> Outcome B * World.

Local Abbreviation run := (@Gather.run World A B task).
Local Abbreviation gather := (@Gather.gather World A B task).
Local Abbreviation result_of := (@Gather.result_of World A B task).

Lemma run_spec inputs schedule :
  forall results raised w results' raised' w',
    run schedule inputs results raised w = (results', raised', w') ->
    (forall i b, results' !! i = Some b ->
       results !! i = Some b \/ exists a, inputs !! i = Some a /\ result_of a b)
    /\ (forall i, is_Some (results !! i) -> is_Some (results' !! i))
    /\ (raised' = None ->
        raised = None
        /\ forall i, i ∈ schedule -> (i < length inputs)%nat -> is_Some (results' !! i)).
Proof.
  induction schedule as [|i rest IH]; intros results raised w results' raised' w' H;
    simpl in H.
  - injection H as <- <- <-. split_and!; [now left | done |].
    intros ->. split; [reflexivity|]. intros i Hi. now apply elem_of_nil in Hi.
  - destruct (inputs !! i) as [a|] eqn:Ha.
    + destruct (task a w) as [[b|e] w1] eqn:Htask.
      * apply IH in H as (H1 & H2 & H3). split_and!.
        -- intros j b' Hj. destruct (H1 j b' Hj) as [Hin|Hex]; [|now right].
           destruct (decide (i = j)) as [->|Hne].
           ++ rewrite lookup_insert_eq in Hin. injection Hin as <-.
              right. exists a. split; [exact Ha | now exists w, w1].
           ++ rewrite lookup_insert_ne in Hin by exact Hne. now left.
        -- intros j Hj. apply H2. destruct (decide (i = j)) as [->|Hne].
           ++ rewrite lookup_insert_eq. eauto.
           ++ now rewrite lookup_insert_ne.
        -- intros Hnone. destruct (H3 Hnone) as [Hr Hall]. split; [exact Hr|].
           intros j Hj Hlt. apply elem_of_cons in Hj as [->|Hj]; [|now apply Hall].
           apply H2. rewrite lookup_insert_eq. eauto.
      * apply IH in H as (H1 & H2 & H3). split_and!; [exact H1 | exact H2 |].
        intros Hnone. destruct (H3 Hnone) as [Hr _]. now destruct raised.
    + apply IH in H as (H1 & H2 & H3). split_and!; [exact H1 | exact H2 |].
      intros Hnone. destruct (H3 Hnone) as [Hr Hall]. split; [exact Hr|].
      intros j Hj Hlt. apply elem_of_cons in Hj as [->|Hj]; [|now apply Hall].
      apply lookup_lt_is_Some_2 in Hlt. rewrite Ha in Hlt. now destruct Hlt.
Qed.

Lemma collected_in_order inputs (results : gmap nat B) :
  (forall i, (i < length inputs)%nat ->
     exists a b, inputs !! i = Some a /\ results !! i = Some b /\ result_of a b) ->
  forall k, (k <= length inputs)%nat ->
    Forall2 result_of (firstn k inputs) (collected results k).
Proof.
  intros Hres. induction k as [|k IH]; intros Hk.
  - constructor.
  - destruct (Hres k) as (a & b & Ha & Hb & Hab); [lia|].
    unfold collected. rewrite seq_S, omap_app. simpl. rewrite Hb.
    rewrite (take_S_r _ _ _ Ha).
    apply Forall2_app; [apply IH; lia | constructor; [exact Hab | constructor]].
Qed.

(** Whatever the order in which the tasks ran, the results are those of
    the inputs, one for one and in the order of the inputs. *)
Lemma gather_results schedule inputs w bs w' :
  fair schedule inputs ->
  gather schedule inputs w = (Returned bs, w') ->
  Forall2 result_of inputs bs.
Proof.
  intros Hfair H. unfold Gather.gather in H.
  destruct (run schedule inputs ∅ None w) as [[results [e|]] w1] eqn:Hrun;
    [discriminate|].
  injection H as <- <-.
  apply run_spec in Hrun as (H1 & _ & H3). destruct (H3 eq_refl) as [_ Hall].
  rewrite <- (firstn_all inputs) at 1.
  apply collected_in_order; [|lia].
  intros i Hi.
  assert (Hin : i ∈ schedule).
  { unfold fair in Hfair. rewrite Hfair. apply elem_of_seq. lia. }
  destruct (Hall i Hin Hi) as [b Hb].
  destruct (H1 i b Hb) as [Hempty | (a & Ha & Hab)].
  - now rewrite lookup_empty in Hempty.
  - now exists a, b.
Qed.

Lemma run_returns inputs :
  (forall a w, exists b w', task a w = (Returned b, w')) ->
  forall schedule results w,
  exists results' w', run schedule inputs results None w = (results', None, w').
Proof.
  intros Hnever. induction schedule as [|i rest IH]; intros results w; simpl.
  - now exists results, w.
  - destruct (inputs !! i) as [a|]; [|apply IH].
    destruct (Hnever a w) as (b & w1 & ->). apply IH.
Qed.

Lemma gather_returns schedule inputs w :
  (forall a w, exists b w', task a w = (Returned b, w')) ->
  exists bs w', gather schedule inputs w = (Returned bs, w').
Proof.
  intros Hnever. unfold Gather.gather.
  destruct (run_returns inputs Hnever schedule ∅ w) as (results & w' & ->).
  now eexists _, _.
Qed.

End Tasks.
End GatherFacts.

Module DependenciesFacts.
Import PyExc Engine Dependencies.

Section WithEnv.
Context {Request Value : Type}.
Variable py_str : list (string * Value) -> string.
Variable sha256_hex32 : string -> string.
Variable fnmatch : string -> string -> bool.
Variable path_params : Request -> list (string * string).
Variable route_path : Request -> option string.
Variable method : Request -> string.
Variable param_value : string -> Value.
Variable str_value : string -> Value.
Variable capitalize : string -> string.

Local Abbreviation TopazConfig := (@Engine.TopazConfig Request Value).
Local Abbreviation Env := (@Engine.Env Request Value).
Local Abbreviation check_decision :=
  (@Engine.check_decision Request Value py_str sha256_hex32 fnmatch).
Local Abbreviation merged_context :=
  (@Dependencies.merged_context Request Value path_params param_value).
Local Abbreviation require_policy_allowed :=
  (@Dependencies.require_policy_allowed Request Value py_str sha256_hex32 fnmatch
     path_params param_value).
Local Abbreviation require_policy_auto :=
  (@Dependencies.require_policy_auto Request Value py_str sha256_hex32 fnmatch
     path_params route_path method param_value).
Local Abbreviation resolve_object_id :=
  (@Dependencies.resolve_object_id Request path_params).
Local Abbreviation rebac_fields := (@Dependencies.rebac_fields Value str_value).
Local Abbreviation require_rebac_allowed :=
  (@Dependencies.require_rebac_allowed Request Value py_str sha256_hex32 fnmatch
     path_params str_value).

Lemma get_map_values {V W : Type} (f : V -> W) (key : string) (d : list (string * V)) :
  PyDict.get key (map (fun kv => (fst kv, f (snd kv))) d) = option_map f (PyDict.get key d).
Proof.
  induction d as [|[k v] d IH]; simpl; [reflexivity|].
  now destruct (String.eqb k key).
Qed.

(** The context of a policy check ([is_allowed], [require_policy_allowed],
    [require_policy_auto]): under a key, a path parameter of the request wins
    over what the provider gives, which wins over the static context. *)
Theorem policy_context_precedence (t : TopazConfig)
    (resource_context : option (list (string * Value))) (request : Request)
    (key : string) :
  PyDict.get key (merged_context t resource_context request)
  = match PyDict.get key (rev (path_params request)) with
    | Some v => Some (param_value v)
    | None =>
        match
          match resource_context_provider t with
          | Some provider => PyDict.get key (rev (provider request))
          | None => None
          end
        with
        | Some v => Some v
        | None => PyDict.get key (context_or_empty resource_context)
        end
    end.
Proof.
  unfold Dependencies.merged_context.
  rewrite PyDictFacts.get_update, <- map_rev, get_map_values.
  destruct (PyDict.get key (rev (path_params request))); [reflexivity|]. simpl.
  destruct (resource_context_provider t) as [provider|]; [|reflexivity].
  apply PyDictFacts.get_update.
Qed.

Lemma deny_unless_allowed_done
    (checked : Outcome bool * TopazConfig * list (@Engine.Event Value)) detail t' events :
  deny_unless_allowed checked detail = (Done tt, t', events) ->
  checked = (Returned true, t', events).
Proof.
  unfold deny_unless_allowed. destruct checked as [[[[]|e] t1] evs]; simpl.
  - now intros [= <- <-].
  - discriminate.
  - discriminate.
Qed.

(** A [require_*] dependency lets the request through only when the check
    has answered [True]: the policy path checked is the one given, the one
    resolved from the route, or [root.check], and the engine and the events
    afterwards are those of that check. *)
Theorem dependencies_pass_only_when_allowed (env : Env) (t : TopazConfig)
    (request : Request) (now : Z) (t' : TopazConfig) events :
  (forall policy_path decision resource_context,
      require_policy_allowed env t policy_path decision resource_context request now
      = (Done tt, t', events) ->
      check_decision env t request policy_path decision
        (Some (merged_context t resource_context request)) "dependency" now
      = (Returned true, t', events))
  /\ (forall decision resource_context,
        require_policy_auto env t decision resource_context request now
        = (Done tt, t', events) ->
        exists pattern,
          route_path request = Some pattern
          /\ check_decision env t request
               (Engine.policy_path_for t (method request) pattern) decision
               (Some (merged_context t resource_context request)) "dependency" now
             = (Returned true, t', events))
  /\ (forall object_type relation object_id subject_type,
        require_rebac_allowed env t object_type relation object_id subject_type request now
        = (Done tt, t', events) ->
        exists resource_ctx,
          check_decision env t request (policy_path_root t +:+ ".check") "allowed"
            (Some resource_ctx) "dependency" now
          = (Returned true, t', events)).
Proof.
  assert (Hpolicy : forall policy_path decision resource_context,
             require_policy_allowed env t policy_path decision resource_context request now
             = (Done tt, t', events) ->
             check_decision env t request policy_path decision
               (Some (merged_context t resource_context request)) "dependency" now
             = (Returned true, t', events)).
  { intros policy_path decision resource_context.
    unfold Dependencies.require_policy_allowed.
    destruct (identity_provider env request) as [[identity|]|e]; try discriminate.
    apply deny_unless_allowed_done. }
  split_and!.
  - exact Hpolicy.
  - intros decision resource_context. unfold Dependencies.require_policy_auto.
    destruct (route_path request) as [pattern|]; [|discriminate].
    intros H. exists pattern. split; [reflexivity|]. now apply Hpolicy.
  - intros object_type relation object_id subject_type H.
    unfold Dependencies.require_rebac_allowed in H.
    apply deny_unless_allowed_done in H. eauto.
Qed.

(** The context of the check of [require_rebac_allowed]: the four fields of
    the relation are the arguments of the dependency whatever the provider
    gives under those names, and every other key is the provider's. *)
Theorem rebac_fields_override_provider (env : Env) (t : TopazConfig)
    (object_type relation : string) (object_id : ObjectId Request) (subject_type : string)
    (request : Request) (now : Z) :
  exists resource_ctx,
    require_rebac_allowed env t object_type relation object_id subject_type request now
    = deny_unless_allowed
        (check_decision env t request (policy_path_root t +:+ ".check") "allowed"
           (Some resource_ctx) "dependency" now)
        ("Access denied: " +:+ relation +:+ " on " +:+ object_type +:+ ":"
           +:+ resolve_object_id object_id request)
    /\ PyDict.get "object_type" resource_ctx = Some (str_value object_type)
    /\ PyDict.get "object_id" resource_ctx
       = Some (str_value (resolve_object_id object_id request))
    /\ PyDict.get "relation" resource_ctx = Some (str_value relation)
    /\ PyDict.get "subject_type" resource_ctx = Some (str_value subject_type)
    /\ (forall key,
          ~ In key ["object_type"; "object_id"; "relation"; "subject_type"] ->
          PyDict.get key resource_ctx
          = match resource_context_provider t with
            | Some provider => PyDict.get key (rev (provider request))
            | None => None
            end).
Proof.
  eexists. split; [reflexivity|].
  split_and!; try (rewrite PyDictFacts.get_update; reflexivity).
  intros key Hkey. rewrite PyDictFacts.get_update.
  assert (Hnone : PyDict.get key
                    (rev (rebac_fields object_type (resolve_object_id object_id request)
                            relation subject_type)) = None).
  { apply PyDictFacts.get_none_keys. simpl. simpl in Hkey. tauto. }
  rewrite Hnone.
  destruct (resource_context_provider t) as [provider|]; [|reflexivity].
  rewrite PyDictFacts.get_update. simpl.
  now destruct (PyDict.get key (rev (provider request))).
Qed.

(** [get_authorized_resource] answers a resource that is not there with the
    404 before it looks at anything else: no identity is asked for and no
    check is made.  A resource that is there is returned only when the check
    on the four fields of the relation, and on nothing of the provider, has
    answered [True]. *)
Theorem get_authorized_resource_not_found_first {T : Type} (env : Env) (t : TopazConfig)
    (resource_fetcher : Request -> option T) (object_type relation : string)
    (object_id : ObjectId Request) (subject_type : string) (request : Request) (now : Z) :
  let dependency :=
    Dependencies.get_authorized_resource py_str sha256_hex32 fnmatch path_params str_value
      capitalize env t resource_fetcher object_type relation object_id subject_type
      request now in
  (resource_fetcher request = None ->
   dependency = (HTTPException 404 (capitalize object_type +:+ " not found"), t, []))
  /\ (forall resource t' events,
        dependency = (Done resource, t', events) ->
        resource_fetcher request = Some resource
        /\ check_decision env t request (policy_path_root t +:+ ".check") "allowed"
             (Some (rebac_fields object_type (resolve_object_id object_id request)
                      relation subject_type)) "dependency" now
           = (Returned true, t', events)).
Proof.
  cbv zeta. unfold Dependencies.get_authorized_resource. split.
  - now intros ->.
  - intros resource t' events.
    destruct (resource_fetcher request) as [found|]; [|discriminate].
    destruct (check_decision env t request (policy_path_root t +:+ ".check") "allowed"
                (Some (rebac_fields object_type (resolve_object_id object_id request)
                         relation subject_type)) "dependency" now)
      as [[[[]|e] t1] evs]; simpl; try discriminate.
    now intros [= <- <- <-].
Qed.

End WithEnv.
Section Relations.
Context {Request World : Type}.
Variable check_relation :
  Request -> string -> string -> string -> string -> World -> Outcome bool * World.

Local Abbreviation check_single_relation :=
  (@Dependencies.check_single_relation Request World check_relation).
Local Abbreviation check_relations :=
  (@Dependencies.check_relations Request World check_relation).

Lemma check_single_relation_result request object_type object_id subject_type rel
    (pair : string * bool) :
  Gather.result_of (check_single_relation request object_type object_id subject_type)
    rel pair ->
  fst pair = rel
  /\ exists w1 w2,
      check_relation request object_type object_id rel subject_type w1
      = (Returned (snd pair), w2).
Proof.
  intros (w1 & w2 & H). unfold Dependencies.check_single_relation in H.
  destruct (check_relation request object_type object_id rel subject_type w1)
    as [[b|e] w'] eqn:E; [|discriminate].
  injection H as <- <-. split; [reflexivity|]. now exists w1, w'.
Qed.


End Relations.

Section Filter.
Context {Request Value World T : Type}.
Variable str_value : string -> Value.
Variable check_decision :
  Request -> string -> string -> list (string * Value) -> World -> Outcome bool * World.
Variable policy_path_root object_type relation : string.
Variable id_extractor : T -> string.
Variable subject_type : string.
Variable request : Request.

Local Abbreviation check_single :=
  (@Dependencies.check_single Request Value World str_value check_decision T
     policy_path_root object_type relation id_extractor subject_type request).
Local Abbreviation filter_fn :=
  (@Dependencies.filter_fn Request Value World str_value check_decision T
     policy_path_root object_type relation id_extractor subject_type request).
Local Abbreviation rebac_fields := (@Dependencies.rebac_fields Value str_value).

(** The check made for a resource. *)
Local Abbreviation check_of resource :=
  (check_decision request (policy_path_root +:+ ".check") "allowed"
     (rebac_fields object_type (id_extractor resource) relation subject_type)).

Lemma check_single_result resource (pair : T * bool) :
  Gather.result_of check_single resource pair ->
  fst pair = resource /\ exists w1 w2, check_of resource w1 = (Returned (snd pair), w2).
Proof.
  intros (w1 & w2 & H). unfold Dependencies.check_single in H. cbv zeta in H.
  destruct (check_decision request (policy_path_root +:+ ".check") "allowed" _ w1)
    as [[b|e] w'] eqn:E; [|discriminate].
  injection H as <- <-. split; [reflexivity|]. now exists w1, w'.
Qed.

Lemma kept_sublist (pairs : list (T * bool)) :
  sublist (map fst (List.filter (fun ra => snd ra) pairs)) (map fst pairs).
Proof.
  induction pairs as [|[r a] pairs IH]; simpl; [constructor|].
  destruct a; simpl; [now apply sublist_skip | now apply sublist_cons].
Qed.

Lemma kept_filter (authorized : T -> bool) (resources : list T) :
  map fst (List.filter (fun ra => snd ra) (map (fun r => (r, authorized r)) resources))
  = List.filter authorized resources.
Proof.
  induction resources as [|r rs IH]; simpl; [reflexivity|].
  destruct (authorized r); simpl; now rewrite IH.
Qed.


End Filter.

Section OverHierarchy.
Context {Request World : Type}.
Variable path_param : Request -> string -> option string.
Variable header : Request -> string -> option string.
Variable query_param : Request -> string -> option string.
Variable check_relation :
  Request -> string -> string -> string -> string -> World -> Outcome bool * World.

Local Abbreviation check_hierarchy :=
  (@Hierarchy.check_hierarchy Request World path_param header query_param check_relation).
Local Abbreviation require_rebac_hierarchy :=
  (@Dependencies.require_rebac_hierarchy Request World path_param header query_param
     check_relation).
Local Abbreviation answers := (@Hierarchy.answers Request path_param header query_param).
Local Abbreviation ran :=
  (@Hierarchy.ran Request World path_param header query_param check_relation).
Local Abbreviation first_denied :=
  (@Hierarchy.first_denied Request path_param header query_param).

(** [require_rebac_hierarchy] lets the request through exactly when the
    hierarchy check allows it; in mode "all" that is when every check of the
    input was run and [check_relation] answered true to each.  A refusal is
    a 403.  In mode "all" its message names the object type of the first
    check, in the order of the input, to which [check_relation] answered
    false when it was run, the checks before it having been answered true
    (or it speaks of no matching permissions when that object type is the
    empty string); in the other modes it speaks of no matching
    permissions. *)
Theorem require_rebac_hierarchy_refusal (schedule : list nat)
    (checks_ : list (@Hierarchy.Check Request)) (mode subject_type : string)
    (optimize : bool) (request : Request) (w : World) :
  Hierarchy.fair schedule checks_ ->
  (forall w',
      require_rebac_hierarchy schedule checks_ mode subject_type optimize request w
      = (Done tt, w')
      <-> exists r,
            check_hierarchy schedule request checks_ mode subject_type optimize w
            = (Returned r, w')
            /\ Hierarchy.allowed r = true)
  /\ (forall w',
        mode = "all" ->
        require_rebac_hierarchy schedule checks_ mode subject_type optimize request w
        = (Done tt, w') ->
        exists r,
          check_hierarchy schedule request checks_ mode subject_type optimize w
          = (Returned r, w')
          /\ Forall2 (answers request) (Hierarchy.checks r) checks_
          /\ Forall (fun row => Hierarchy.row_allowed row = true) (Hierarchy.checks r)
          /\ ran request subject_type checks_ (Hierarchy.checks r)
               (if optimize then schedule else seq 0 (length (Hierarchy.checks r))) w w')
  /\ (forall status detail w',
        require_rebac_hierarchy schedule checks_ mode subject_type optimize request w
        = (HTTPException status detail, w') ->
        status = 403%Z
        /\ exists r,
            check_hierarchy schedule request checks_ mode subject_type optimize w
            = (Returned r, w')
            /\ Hierarchy.allowed r = false
            /\ (mode <> "all" -> detail = "Access denied: no matching permissions")
            /\ (mode = "all" ->
                exists row check,
                  first_denied request (Hierarchy.checks r) checks_ row check
                  /\ ran request subject_type checks_ (Hierarchy.checks r)
                       (if optimize then schedule
                        else seq 0 (length (Hierarchy.checks r))) w w'
                  /\ detail
                     = if PyStr.is_empty (Hierarchy.check_type check)
                       then "Access denied: no matching permissions"
                       else "Access denied at " +:+ Hierarchy.check_type check)).
Proof.
  intros Hfair. unfold Dependencies.require_rebac_hierarchy. split_and!.
  - intros w'.
    destruct (check_hierarchy schedule request checks_ mode subject_type optimize w)
      as [[r|e] w1] eqn:Hcheck.
    + destruct (Hierarchy.allowed r) eqn:Ha; simpl; split.
      * intros [= <-]. now exists r.
      * intros (r' & [= <- <-] & _). reflexivity.
      * discriminate.
      * intros (r' & [= <- <-] & Ha'). congruence.
    + split; [discriminate | intros (r' & Hr & _); discriminate].
  - intros w' ->.
    destruct (check_hierarchy schedule request checks_ "all" subject_type optimize w)
      as [[r|e] w1] eqn:Hcheck; [|discriminate].
    destruct (Hierarchy.allowed r) eqn:Ha; simpl; [|discriminate].
    intros [= <-]. exists r.
    destruct (HierarchyFacts.check_hierarchy_all_spec _ _ _ _ _ _ _ _ _ _ _ _ Hfair Hcheck)
      as (Horder & Hran & Hall & Hlen & _).
    specialize (Hlen Ha). rewrite Ha in Hall.
    split_and!; [reflexivity | | | exact Hran].
    + unfold Hierarchy.in_input_order in Horder.
      now rewrite Hlen, firstn_all in Horder.
    + apply Forall_forall. intros row Hrow. symmetry in Hall.
      rewrite forallb_forall in Hall. apply Hall. now apply list_elem_of_In.
  - intros status detail w'.
    destruct (check_hierarchy schedule request checks_ mode subject_type optimize w)
      as [[r|e] w1] eqn:Hcheck; [|discriminate].
    destruct (Hierarchy.allowed r) eqn:Ha; simpl; [discriminate|].
    intros [= <- <- <-]. split; [reflexivity|]. exists r.
    split_and!; [reflexivity | exact Ha | |].
    + intros Hmode. unfold Dependencies.hierarchy_detail.
      now rewrite (HierarchyFacts.check_hierarchy_denied_at _ _ _ _ _ _ _ _ _ _ _ _ _
                     Hmode Hcheck).
    + intros ->.
      destruct (HierarchyFacts.check_hierarchy_all_spec _ _ _ _ _ _ _ _ _ _ _ _ Hfair Hcheck)
        as (_ & Hran & _ & _ & _ & Hdenied & _).
      destruct (Hdenied Ha) as (row & check & Hfirst & Hd).
      exists row, check. split_and!; [exact Hfirst | exact Hran |].
      unfold Dependencies.hierarchy_detail. now rewrite Hd.
Qed.

End OverHierarchy.

(** A member of the organization who may not read the document. *)
Lemma require_rebac_hierarchy_refusal_witness :
  let path_param (_ : unit) (name : string) :=
    if String.eqb name "org_id" then Some "acme"
    else if String.eqb name "doc_id" then Some "42" else None in
  let no_lookup (_ : unit) (_ : string) : option string := None in
  let check_relation (_ : unit) (object_type object_id relation subject_type : string)
        (calls : nat) : Outcome bool * nat :=
    (Returned (String.eqb relation "member"), S calls) in
  let checks_ :=
    [ {| Hierarchy.check_type := "organization";
         Hierarchy.check_id_source := @Hierarchy.IdSpec unit "org_id";
         Hierarchy.check_relation_name := "member" |};
      {| Hierarchy.check_type := "document";
         Hierarchy.check_id_source := @Hierarchy.IdSpec unit "doc_id";
         Hierarchy.check_relation_name := "can_read" |} ] in
  Dependencies.require_rebac_hierarchy path_param no_lookup no_lookup check_relation
    [1; 0]%nat checks_ "all" "user" true tt 0%nat
  = (HTTPException 403 "Access denied at document", 2%nat)
  /\ exists r,
      Hierarchy.check_hierarchy path_param no_lookup no_lookup check_relation
        [1; 0]%nat tt checks_ "all" "user" true 0%nat = (Returned r, 2%nat)
      /\ Hierarchy.allowed r = false.
Proof.
  intros path_param no_lookup check_relation checks_.
  assert (Hfair : Hierarchy.fair [1; 0]%nat checks_) by apply perm_swap.
  destruct (require_rebac_hierarchy_refusal path_param no_lookup no_lookup check_relation
              [1; 0]%nat checks_ "all" "user" true tt 0%nat Hfair) as (_ & _ & Hrefusal).
  split; [reflexivity|].
  destruct (Hrefusal 403%Z "Access denied at document" 2%nat eq_refl)
    as (_ & r & Hr & Ha & _).
  exists r. split; [exact Hr | exact Ha].
Defined.



End DependenciesFacts.
